(** * Query/filter/ranking engine of the employee agent

    Shallow embedding of [pkg/tools/json/json_query.go] and of the record
    model [pkg/model/employee.go], together with models of the library
    calls the engine makes (Go's [strings], [strconv], [time], [sort],
    [encoding/json] and the gojsonq query object), followed by the
    properties of the engine.  The directory tool of [pkg/tools/slack],
    which writes the file the engine reads, is embedded after the
    engine, with the Slack workspace as the answers its API gives.

    Strings are byte strings, as in Go: [String.length] is [len(s)]. *)

From Stdlib Require Import ZArith NArith String Ascii List Bool Lia Permutation.
From stdpp Require Import base option list gmap strings.

Local Open Scope string_scope.
Local Open Scope list_scope.

(* ===================================================================== *)
(** ** Package [strings] *)
(* ===================================================================== *)

Module strings.

(** [strings.HasPrefix(s, prefix)]. *)
Definition HasPrefix (s prefix : string) : bool := String.prefix prefix s.

(** [strings.Contains(s, substr)]: some suffix of [s] starts with
    [substr]; the empty string is contained in every string. *)
Fixpoint Contains (s substr : string) : bool :=
  HasPrefix s substr ||
  match s with
  | EmptyString => false
  | String _ s' => Contains s' substr
  end.

(** [strings.ToLower] and [strings.Fields] follow the Unicode tables of
    the Go runtime.  The engine only ever composes them with the
    functions above, so they are an interface here; [ascii] below is the
    instance for ASCII text, on which it agrees with Go. *)
Class Text := {
  ToLower : string -> string;
  Fields : string -> list string;
}.

Definition lowerByte (c : ascii) : ascii :=
  let n := nat_of_ascii c in
  if (65 <=? n)%nat && (n <=? 90)%nat then ascii_of_nat (n + 32) else c.

Fixpoint asciiToLower (s : string) : string :=
  match s with
  | EmptyString => EmptyString
  | String c s' => String (lowerByte c) (asciiToLower s')
  end.

(** The ASCII white space of [strings.Fields]:
    ['\t'], ['\n'], ['\v'], ['\f'], ['\r'] and [' ']. *)
Definition asciiSpace (c : ascii) : bool :=
  let n := nat_of_ascii c in
  ((9 <=? n)%nat && (n <=? 13)%nat) || (n =? 32)%nat.

(** [fieldsFrom cur s]: [cur] is the field being read, reversed. *)
Fixpoint fieldsFrom (cur : list ascii) (s : string) : list string :=
  let flush (rest : list string) :=
    match cur with
    | [] => rest
    | _ => string_of_list_ascii (rev cur) :: rest
    end in
  match s with
  | EmptyString => flush []
  | String c s' =>
      if asciiSpace c then flush (fieldsFrom [] s')
      else fieldsFrom (c :: cur) s'
  end.

Definition asciiFields (s : string) : list string := fieldsFrom [] s.

Definition ascii : Text := {| ToLower := asciiToLower; Fields := asciiFields |}.

(** [strings.Split(s, " ")]: [s] cut at every space.  [splitSpace s] is
    the first part and the parts after it, so that there is always one
    part at least. *)
Fixpoint splitSpace (s : string) : string * list string :=
  match s with
  | EmptyString => (EmptyString, [])
  | String c s' =>
      let '(part, parts) := splitSpace s' in
      if Ascii.eqb c " " then (EmptyString, part :: parts)
      else (String c part, parts)
  end.

Definition SplitSpace (s : string) : list string :=
  let '(part, parts) := splitSpace s in part :: parts.

End strings.

(* ===================================================================== *)
(** ** Package [strconv] *)
(* ===================================================================== *)

Module strconv.

Definition isDigit (c : ascii) : bool :=
  let n := nat_of_ascii c in (48 <=? n)%nat && (n <=? 57)%nat.

Definition digit (c : ascii) : Z := Z.of_nat (nat_of_ascii c) - 48.

(** Value of a run of decimal digits read after [acc]; [None] on a byte
    that is not a digit. *)
Fixpoint digits (acc : Z) (s : string) : option Z :=
  match s with
  | EmptyString => Some acc
  | String c s' => if isDigit c then digits (acc * 10 + digit c) s' else None
  end.

Definition maxInt : Z := 2 ^ 63 - 1.
Definition minInt : Z := - 2 ^ 63.

(** [strconv.Atoi] on a 64-bit platform: an optional sign, at least one
    decimal digit, nothing else; a value outside [int] is a range
    error.  [None] stands for a non-nil [err]. *)
Definition Atoi (s : string) : option Z :=
  let '(neg, body) :=
    match s with
    | String "-" r => (true, r)
    | String "+" r => (false, r)
    | _ => (false, s)
    end in
  match body with
  | EmptyString => None
  | _ =>
      match digits 0 body with
      | None => None
      | Some n =>
          let v := if neg then (- n)%Z else n in
          if (minInt <=? v)%Z && (v <=? maxInt)%Z then Some v else None
      end
  end.

End strconv.

(* ===================================================================== *)
(** ** Package [time] *)
(* ===================================================================== *)

Module time.

(** A [time.Time] produced by [Parse] with the layout ["2006-01-02"]:
    midnight UTC of a calendar day. *)
Record Time := Date { Year : Z; Month : Z; Day : Z }.

Definition isLeap (year : Z) : bool :=
  (year mod 4 =? 0)%Z && (negb (year mod 100 =? 0)%Z || (year mod 400 =? 0)%Z).

Definition daysIn (m year : Z) : Z :=
  if (m =? 2)%Z then (if isLeap year then 29 else 28)%Z
  else if (m =? 4)%Z || (m =? 6)%Z || (m =? 9)%Z || (m =? 11)%Z then 30%Z
  else 31%Z.

(** [getnum(s, true)]: exactly two digits. *)
Definition getnum2 (s : string) : option (Z * string) :=
  match s with
  | String c1 (String c2 r) =>
      if strconv.isDigit c1 && strconv.isDigit c2
      then Some ((strconv.digit c1 * 10 + strconv.digit c2)%Z, r)
      else None
  | _ => None
  end.

(** The four-digit year of the chunk ["2006"]. *)
Definition getyear (s : string) : option (Z * string) :=
  match s with
  | String c1 (String c2 (String c3 (String c4 r))) =>
      if strconv.isDigit c1 && strconv.isDigit c2 &&
         strconv.isDigit c3 && strconv.isDigit c4
      then Some ((((strconv.digit c1 * 10 + strconv.digit c2) * 10
                   + strconv.digit c3) * 10 + strconv.digit c4)%Z, r)
      else None
  | _ => None
  end.

(** [skip(value, "-")]. *)
Definition skipDash (s : string) : option string :=
  match s with
  | String "-" r => Some r
  | _ => None
  end.

(** [time.Parse("2006-01-02", value)]; [None] stands for a non-nil
    [err] (bad syntax, month or day out of range, extra text). *)
Definition Parse (value : string) : option Time :=
  match getyear value with
  | None => None
  | Some (year, v1) =>
  match skipDash v1 with
  | None => None
  | Some v2 =>
  match getnum2 v2 with
  | None => None
  | Some (month, v3) =>
  if (month <=? 0)%Z || (12 <? month)%Z then None else
  match skipDash v3 with
  | None => None
  | Some v4 =>
  match getnum2 v4 with
  | None => None
  | Some (day, v5) =>
  match v5 with
  | String _ _ => None
  | EmptyString =>
      if (day <? 1)%Z || (daysIn month year <? day)%Z then None
      else Some (Date year month day)
  end end end end end end.

(** [t.After(u)]: the instant [t] is later than [u]. *)
Definition After (t u : Time) : bool :=
  (Year u <? Year t)%Z ||
  ((Year u =? Year t)%Z &&
   ((Month u <? Month t)%Z ||
    ((Month u =? Month t)%Z && (Day u <? Day t)%Z))).

(** The decimal digits of [u], most significant first; the number has
    at most [fuel] digits. *)
Fixpoint digitsOf (fuel : nat) (u : Z) (acc : string) : string :=
  match fuel with
  | 0 => acc
  | S fuel' =>
      let acc := String (ascii_of_nat (48 + Z.to_nat (u mod 10))) acc in
      if (u <? 10)%Z then acc else digitsOf fuel' (u / 10) acc
  end.

Fixpoint zeros (pad : nat) : string :=
  match pad with
  | 0 => EmptyString
  | S pad' => String "0" (zeros pad')
  end.

(** [appendInt(b, x, width)]: the decimal text of [x], with a sign when
    negative, padded with zeros to [width] digits. *)
Definition appendInt (x : Z) (width : nat) : string :=
  let u := Z.abs x in
  let text := digitsOf (S (Z.to_nat (Z.log2 u))) u EmptyString in
  let sign := if (x <? 0)%Z then "-" else EmptyString in
  sign +:+ zeros (width - String.length text) +:+ text.

(** [t.Format("2006-01-02")]. *)
Definition Format (t : Time) : string :=
  appendInt (Year t) 4 +:+ "-" +:+ appendInt (Month t) 2 +:+ "-" +:+ appendInt (Day t) 2.

(** [time.Unix(sec, 0)] is a time in the local zone of the process; of
    the zone, only the calendar day it gives to an instant matters
    here. *)
Class Zone := {
  Unix : Z -> Time;
}.

(** The calendar day that is [days] days after 1970-01-01. *)
Definition civil (days : Z) : Time :=
  let z := (days + 719468)%Z in
  let era := (z / 146097)%Z in
  let doe := (z - era * 146097)%Z in
  let yoe := ((doe - doe / 1460 + doe / 36524 - doe / 146096) / 365)%Z in
  let doy := (doe - (365 * yoe + yoe / 4 - yoe / 100))%Z in
  let mp := ((5 * doy + 2) / 153)%Z in
  let day := (doy - (153 * mp + 2) / 5 + 1)%Z in
  let month := if (mp <? 10)%Z then (mp + 3)%Z else (mp - 9)%Z in
  let year := (yoe + era * 400 + (if (month <=? 2)%Z then 1 else 0))%Z in
  Date year month day.

(** The zone UTC. *)
Definition utc : Zone := {| Unix := fun sec => civil (sec / 86400) |}.

End time.


(* ===================================================================== *)
(** ** Package [sort]: [sort.Slice], the pattern-defeating quicksort of
       Go 1.19 and later (the repository asks for Go 1.24) *)
(* ===================================================================== *)

Module sort.

(** [bits.Len(uint(n))]: the number of bits of [n]. *)
Definition Len (n : nat) : nat := if (n =? 0)%nat then 0 else S (Nat.log2 n).

(** The generator behind [breakPatterns]: [Next] maps the 64-bit state
    to the next one.  Which elements get swapped depends on it, whether
    the slice ends up sorted does not, so it is left open. *)
Class Random := { xorshift_Next : Z -> Z }.

(** Marsaglia's 64-bit xorshift with the triple 13, 7, 17. *)
Definition xorshift64 (r : Z) : Z :=
  let r := Z.lxor r (Z.shiftl r 13 mod 2 ^ 64) in
  let r := Z.lxor r (Z.shiftr r 7) in
  Z.lxor r (Z.shiftl r 17 mod 2 ^ 64).

Definition xorshift : Random := {| xorshift_Next := xorshift64 |}.

Inductive sortedHint := unknownHint | increasingHint | decreasingHint.

Definition sortedHint_eqb (h1 h2 : sortedHint) : bool :=
  match h1, h2 with
  | unknownHint, unknownHint
  | increasingHint, increasingHint
  | decreasingHint, decreasingHint => true
  | _, _ => false
  end.

Section lessSwap.
Context {A : Type} (less : A -> A -> bool) `{Random}.

(** [data.Less(i, j)] and [data.Swap(i, j)] on the slice [data].  An
    index out of range panics in Go; here [Less] is then [false] and
    [Swap] changes nothing. *)
Definition Less (data : list A) (i j : nat) : bool :=
  match data !! i, data !! j with
  | Some x, Some y => less x y
  | _, _ => false
  end.

Definition Swap (data : list A) (i j : nat) : list A :=
  match data !! i, data !! j with
  | Some x, Some y => <[j:=x]> (<[i:=y]> data)
  | _, _ => data
  end.

(** [for j := i; j > a && data.Less(j, j-1); j-- { data.Swap(j, j-1) }] *)
Fixpoint insertDown (a j : nat) (data : list A) : list A :=
  match j with
  | 0 => data
  | S j' =>
      if (a <? j)%nat && Less data j j'
      then insertDown a j' (Swap data j j')
      else data
  end.

(** [n] iterations of [for i := ...; i < b; i++] starting at [i]. *)
Fixpoint insertionLoop (a n i : nat) (data : list A) : list A :=
  match n with
  | 0 => data
  | S n' => insertionLoop a n' (S i) (insertDown a i data)
  end.

Definition insertionSort_func (data : list A) (a b : nat) : list A :=
  insertionLoop a (b - (a + 1)) (a + 1) data.

(** The loop of [siftDown_func]; [root] grows at every turn, so [hi]
    turns are enough (lemma [siftDownLoop_fuel]). *)
Fixpoint siftDownLoop (fuel : nat) (data : list A) (root hi first : nat)
  : list A :=
  match fuel with
  | 0 => data
  | S fuel' =>
      let child := 2 * root + 1 in
      if (hi <=? child)%nat then data else
      let child :=
        if (child + 1 <? hi)%nat && Less data (first + child) (first + child + 1)
        then child + 1 else child in
      if negb (Less data (first + root) (first + child)) then data else
      siftDownLoop fuel' (Swap data (first + root) (first + child)) child hi first
  end.

Definition siftDown_func (data : list A) (lo hi first : nat) : list A :=
  siftDownLoop hi data lo hi first.

(** [for i := n - 1; i >= 0; i-- { siftDown_func(data, i, hi, first) }] *)
Fixpoint heapify (n : nat) (data : list A) (hi first : nat) : list A :=
  match n with
  | 0 => data
  | S i => heapify i (siftDown_func data i hi first) hi first
  end.

(** [for i := n - 1; i >= 0; i-- { data.Swap(first, first+i);
     siftDown_func(data, lo, i, first) }] *)
Fixpoint popAll (n : nat) (data : list A) (lo first : nat) : list A :=
  match n with
  | 0 => data
  | S i => popAll i (siftDown_func (Swap data first (first + i)) lo i first) lo first
  end.

Definition heapSort_func (data : list A) (a b : nat) : list A :=
  let first := a in
  let lo := 0 in
  let hi := b - a in
  popAll hi (heapify ((hi - 1) / 2 + 1) data hi first) lo first.

(** [for i <= j && p(i) { i++ }] and [for i <= j && p(j) { j-- }], with
    [fuel] turns at most; the length of the slice is enough (lemmas
    [scanUp_fuel] and [scanDown_fuel]). *)
Fixpoint scanUp (p : nat -> bool) (j fuel i : nat) : nat :=
  match fuel with
  | 0 => i
  | S fuel' => if (i <=? j)%nat && p i then scanUp p j fuel' (S i) else i
  end.

Fixpoint scanDown (p : nat -> bool) (i fuel j : nat) : nat :=
  match fuel with
  | 0 => j
  | S fuel' => if (i <=? j)%nat && p j then scanDown p i fuel' (j - 1) else j
  end.

(** The unconditional [for] loop of [partition_func]; returns the
    slice and the final [j].  It takes [fuel] turns at most; the length
    of the slice is enough (lemma [partitionLoop_fuel]). *)
Fixpoint partitionLoop (fuel : nat) (data : list A) (a i j : nat)
  : list A * nat :=
  match fuel with
  | 0 => (data, j)
  | S fuel' =>
      let i := scanUp (fun i => Less data i a) j (length data) i in
      let j := scanDown (fun j => negb (Less data j a)) i (length data) j in
      if (j <? i)%nat then (data, j)
      else partitionLoop fuel' (Swap data i j) a (S i) (j - 1)
  end.

(** [partition_func]: returns the slice, [newpivot] and
    [alreadyPartitioned]. *)
Definition partition_func (data : list A) (a b pivot : nat)
  : list A * nat * bool :=
  let data := Swap data a pivot in
  let i := a + 1 in
  let j := b - 1 in
  let i := scanUp (fun i => Less data i a) j (length data) i in
  let j := scanDown (fun j => negb (Less data j a)) i (length data) j in
  if (j <? i)%nat then (Swap data j a, j, true) else
  let data := Swap data i j in
  let '(data, j) := partitionLoop (length data) data a (S i) (j - 1) in
  (Swap data j a, j, false).

(** The [for] loop of [partitionEqual_func]; returns the slice and the
    final [i].  The length of the slice is enough fuel (lemma
    [partitionEqualLoop_fuel]). *)
Fixpoint partitionEqualLoop (fuel : nat) (data : list A) (a i j : nat)
  : list A * nat :=
  match fuel with
  | 0 => (data, i)
  | S fuel' =>
      let i := scanUp (fun i => negb (Less data a i)) j (length data) i in
      let j := scanDown (fun j => Less data a j) i (length data) j in
      if (j <? i)%nat then (data, i)
      else partitionEqualLoop fuel' (Swap data i j) a (S i) (j - 1)
  end.

(** [partitionEqual_func]: returns the slice and [newpivot]. *)
Definition partitionEqual_func (data : list A) (a b pivot : nat)
  : list A * nat :=
  let data := Swap data a pivot in
  partitionEqualLoop (length data) data a (a + 1) (b - 1).

(** [for j := i - 1; j >= 1; j-- { if !data.Less(j, j-1) { break };
     data.Swap(j, j-1) }] *)
Fixpoint shiftLeft (j : nat) (data : list A) : list A :=
  match j with
  | 0 => data
  | S j' => if negb (Less data j j') then data else shiftLeft j' (Swap data j j')
  end.

(** [for j := i + 1; j < b; j++ { if !data.Less(j, j-1) { break };
     data.Swap(j, j-1) }], with [n] turns left. *)
Fixpoint shiftRight (n j : nat) (data : list A) : list A :=
  match n with
  | 0 => data
  | S n' =>
      if negb (Less data j (j - 1)) then data
      else shiftRight n' (S j) (Swap data j (j - 1))
  end.

Definition maxSteps : nat := 5.
Definition shortestShifting : nat := 50.

(** [partialInsertionSort_func], with [steps] turns of its outer loop
    left. *)
Fixpoint partialInsertionLoop (steps : nat) (data : list A) (a b i : nat)
  : list A * bool :=
  match steps with
  | 0 => (data, false)
  | S steps' =>
      let i := scanUp (fun i => negb (Less data i (i - 1))) (b - 1) (length data) i in
      if (i =? b)%nat then (data, true) else
      if (b - a <? shortestShifting)%nat then (data, false) else
      let data := Swap data i (i - 1) in
      let data := if (2 <=? i - a)%nat then shiftLeft (i - 1) data else data in
      let data := if (2 <=? b - i)%nat then shiftRight (b - (i + 1)) (i + 1) data else data in
      partialInsertionLoop steps' data a b i
  end.

Definition partialInsertionSort_func (data : list A) (a b : nat)
  : list A * bool :=
  partialInsertionLoop maxSteps data a b (a + 1).

Definition nextPowerOfTwo (length : nat) : Z := 2 ^ Z.of_nat (Len length).

(** The three turns of the loop of [breakPatterns_func]. *)
Fixpoint breakLoop (n i : nat) (random modulus : Z) (length idx a : nat)
  (data : list A) : list A :=
  match n with
  | 0 => data
  | S n' =>
      let random := xorshift_Next random in
      let other := Z.to_nat (Z.land random (modulus - 1)) in
      let other := if (length <=? other)%nat then other - length else other in
      breakLoop n' (S i) random modulus length idx a
        (Swap data (idx - 1 + i) (a + other))
  end.

Definition breakPatterns_func (data : list A) (a b : nat) : list A :=
  let length := b - a in
  if (8 <=? length)%nat then
    let random := Z.of_nat length in
    let modulus := nextPowerOfTwo length in
    let idx := a + (length / 4) * 2 - 1 in
    breakLoop 3 0 random modulus length idx a data
  else data.

(** [order2_func]: returns the two indices and the updated [*swaps]. *)
Definition order2_func (data : list A) (a b swaps : nat) : nat * nat * nat :=
  if Less data b a then (b, a, S swaps) else (a, b, swaps).

Definition median_func (data : list A) (a b c swaps : nat) : nat * nat :=
  let '(a, b, swaps) := order2_func data a b swaps in
  let '(b, c, swaps) := order2_func data b c swaps in
  let '(a, b, swaps) := order2_func data a b swaps in
  (b, swaps).

Definition medianAdjacent_func (data : list A) (a swaps : nat) : nat * nat :=
  median_func data (a - 1) a (a + 1) swaps.

Definition shortestNinther : nat := 50.
Definition maxSwaps : nat := 4 * 3.

Definition choosePivot_func (data : list A) (a b : nat) : nat * sortedHint :=
  let l := b - a in
  let swaps := 0 in
  let i := a + l / 4 * 1 in
  let j := a + l / 4 * 2 in
  let k := a + l / 4 * 3 in
  let '(j, swaps) :=
    if (8 <=? l)%nat then
      let '(i, j, k, swaps) :=
        if (shortestNinther <=? l)%nat then
          let '(i, swaps) := medianAdjacent_func data i swaps in
          let '(j, swaps) := medianAdjacent_func data j swaps in
          let '(k, swaps) := medianAdjacent_func data k swaps in
          (i, j, k, swaps)
        else (i, j, k, swaps) in
      median_func data i j k swaps
    else (j, swaps) in
  if (swaps =? 0)%nat then (j, increasingHint)
  else if (swaps =? maxSwaps)%nat then (j, decreasingHint)
  else (j, unknownHint).

(** [for i < j { data.Swap(i, j); i++; j-- }], with [fuel] turns at most
    (lemma [reverseLoop_fuel]). *)
Fixpoint reverseLoop (fuel : nat) (data : list A) (i j : nat) : list A :=
  match fuel with
  | 0 => data
  | S fuel' =>
      if (i <? j)%nat then reverseLoop fuel' (Swap data i j) (S i) (j - 1)
      else data
  end.

Definition reverseRange_func (data : list A) (a b : nat) : list A :=
  reverseLoop (b - a) data a (b - 1).

Definition maxInsertion : nat := 12.

(** [pdqsort_func(data, a, b, limit)].  Every turn of its loop and
    every recursive call takes one unit of [fuel]; [wasBalanced] and
    [wasPartitioned] are the two local flags, [true] on entry.  With
    no fuel left the slice is returned as it is; [pdqsort_func]
    provides enough (lemma [pdqsort_func_fuel]). *)
Fixpoint pdqsort_loop (fuel : nat) (data : list A) (a b limit : nat)
  (wasBalanced wasPartitioned : bool) : list A :=
  match fuel with
  | 0 => data
  | S fuel' =>
      let length := b - a in
      if (length <=? maxInsertion)%nat then insertionSort_func data a b else
      if (limit =? 0)%nat then heapSort_func data a b else
      let '(data, limit) :=
        if negb wasBalanced then (breakPatterns_func data a b, limit - 1)
        else (data, limit) in
      let '(pivot, hint) := choosePivot_func data a b in
      let '(data, pivot, hint) :=
        if sortedHint_eqb hint decreasingHint
        then (reverseRange_func data a b, (b - 1) - (pivot - a), increasingHint)
        else (data, pivot, hint) in
      let '(data, done) :=
        if wasBalanced && wasPartitioned && sortedHint_eqb hint increasingHint
        then partialInsertionSort_func data a b
        else (data, false) in
      if done then data else
      if (0 <? a)%nat && negb (Less data (a - 1) pivot) then
        let '(data, mid) := partitionEqual_func data a b pivot in
        pdqsort_loop fuel' data mid b limit wasBalanced wasPartitioned
      else
        let '(data, mid, alreadyPartitioned) := partition_func data a b pivot in
        let wasPartitioned := alreadyPartitioned in
        let leftLen := mid - a in
        let rightLen := b - mid in
        let balanceThreshold := length / 8 in
        if (leftLen <? rightLen)%nat then
          let wasBalanced := (balanceThreshold <=? leftLen)%nat in
          let data := pdqsort_loop fuel' data a mid limit true true in
          pdqsort_loop fuel' data (mid + 1) b limit wasBalanced wasPartitioned
        else
          let wasBalanced := (balanceThreshold <=? rightLen)%nat in
          let data := pdqsort_loop fuel' data (mid + 1) b limit true true in
          pdqsort_loop fuel' data a mid limit wasBalanced wasPartitioned
  end.

Definition pdqsort_func (data : list A) (a b limit : nat) : list A :=
  pdqsort_loop (S (b - a)) data a b limit true true.

(** [sort.Slice(x, less)]. *)
Definition Slice (x : list A) : list A :=
  let length := length x in
  let limit := Len length in
  pdqsort_func x 0 length limit.

(** [sort.SliceIsSorted]: no element is less than its predecessor. *)
Fixpoint IsSorted (x : list A) : bool :=
  match x with
  | [] => true
  | y :: x' =>
      match x' with
      | [] => true
      | z :: _ => negb (less z y) && IsSorted x'
      end
  end.

End lessSwap.

End sort.

(* ===================================================================== *)
(** ** Package [fmt] *)
(* ===================================================================== *)

Module fmt.

(** The line feed of a format string. *)
Definition nl : string := String (ascii_of_nat 10) EmptyString.

Definition digitChar (n : nat) : ascii := ascii_of_nat (48 + n).

(** The verb [%d] on a non-negative [int]; the number has at most
    [fuel] digits. *)
Fixpoint decimal (fuel n : nat) (acc : string) : string :=
  match fuel with
  | 0 => acc
  | S fuel' =>
      let acc := String (digitChar (n mod 10)) acc in
      if (n <? 10)%nat then acc else decimal fuel' (n / 10) acc
  end.

Definition d (n : nat) : string := decimal (S n) n EmptyString.

End fmt.

(* ===================================================================== *)
(** ** Package [model] *)
(* ===================================================================== *)

Module model.

Record EmployeeInfo := {
  FirstName : string;
  LastName : string;
  Email : string;
  Title : string;
  Deactivated : bool;
  DeactivatedDate : string;
}.

End model.

(* ===================================================================== *)
(** ** The gojsonq query object *)
(* ===================================================================== *)

Module gojsonq.

(** A decoded JSON scalar ([nil], [bool], [float64] restricted to whole
    numbers, [string]) and a decoded JSON object with scalar members
    ([map[string]interface{}]).  The engine is run on the file written
    by the directory tool: a JSON array of such flat objects. *)
Inductive value := JNull | JBool (b : bool) | JNumber (n : Z) | JString (s : string).

Abbreviation object := (gmap string value).

Record query := { key : string; operator : string; val : value }.

(** The fields of [JSONQ] the engine reaches. *)
Record JSONQ := {
  rootJSONContent : list object;
  jsonContent : list object;
  queries : list (list query);
  queryIndex : nat;
}.

(** [gojsonq.New().FromString(s)], [s] the text of the array [doc]. *)
Definition FromString (doc : list object) : JSONQ :=
  {| rootJSONContent := doc; jsonContent := doc; queries := []; queryIndex := 0 |}.

Definition Reset (j : JSONQ) : JSONQ :=
  {| rootJSONContent := rootJSONContent j;
     jsonContent := rootJSONContent j;
     queries := [];
     queryIndex := 0 |}.

(** [Where]: the clause joins the group at [queryIndex] ([j.queries[j.queryIndex]]
    panics when there is no such group; the engine calls [Where] on a
    reset object only). *)
Definition Where (j : JSONQ) (k cond : string) (v : value) : JSONQ :=
  let q := {| key := k; operator := cond; val := v |} in
  let queries' :=
    if (queryIndex j =? 0)%nat && (length (queries j) =? 0)%nat
    then queries j ++ [[q]]
    else alter (fun qq => qq ++ [q]) (queryIndex j) (queries j) in
  {| rootJSONContent := rootJSONContent j; jsonContent := jsonContent j;
     queries := queries'; queryIndex := queryIndex j |}.

(** [OrWhere]: the clause opens a new group. *)
Definition OrWhere (j : JSONQ) (k cond : string) (v : value) : JSONQ :=
  let q := {| key := k; operator := cond; val := v |} in
  {| rootJSONContent := rootJSONContent j; jsonContent := jsonContent j;
     queries := queries j ++ [[q]]; queryIndex := S (queryIndex j) |}.

Section operators.
Context `{strings.Text}.

(** [eq(x, y)]: [x == y] on interface values. *)
Definition eq (x y : value) : bool :=
  match x, y with
  | JNull, JNull => true
  | JBool a, JBool b => Bool.eqb a b
  | JNumber a, JNumber b => (a =? b)%Z
  | JString a, JString b => String.eqb a b
  | _, _ => false
  end.

(** [strContains(x, y)]: both must be strings; the search ignores
    case. *)
Definition strContains (x y : value) : bool :=
  match x, y with
  | JString xv, JString yv =>
      strings.Contains (strings.ToLower xv) (strings.ToLower yv)
  | _, _ => false
  end.

(** The entries of the operator table the engine uses. *)
Definition queryMap (op : string) : option (value -> value -> bool) :=
  if String.eqb op "=" then Some eq
  else if String.eqb op "contains" then Some strContains
  else None.

(** One group of [findInMap]: every clause must pass; a missing key
    fails the clause; an unknown operator ends [findInMap] at once
    ([None]). *)
Fixpoint andGroup (vm : object) (qList : list query) (andPassed : bool)
  : option bool :=
  match qList with
  | [] => Some andPassed
  | q :: qList' =>
      match queryMap (operator q) with
      | None => None
      | Some cf =>
          let andPassed :=
            match vm !! key q with
            | None => false
            | Some nv => andPassed && cf nv (val q)
            end in
          andGroup vm qList' andPassed
      end
  end.

Fixpoint orGroups (vm : object) (qs : list (list query)) (orPassed : bool)
  : option bool :=
  match qs with
  | [] => Some orPassed
  | qList :: qs' =>
      match andGroup vm qList true with
      | None => None
      | Some andPassed => orGroups vm qs' (orPassed || andPassed)
      end
  end.

Definition findInMap (j : JSONQ) (vm : object) : list object :=
  match orGroups vm (queries j) false with
  | Some true => [vm]
  | _ => []
  end.

Definition findInArray (j : JSONQ) (aa : list object) : list object :=
  flat_map (findInMap j) aa.

Definition processQuery (j : JSONQ) : JSONQ :=
  {| rootJSONContent := rootJSONContent j;
     jsonContent := findInArray j (jsonContent j);
     queries := queries j; queryIndex := queryIndex j |}.

Definition prepare (j : JSONQ) : JSONQ :=
  let j := if (0 <? length (queries j))%nat then processQuery j else j in
  {| rootJSONContent := rootJSONContent j; jsonContent := jsonContent j;
     queries := queries j; queryIndex := 0 |}.

Definition Count (j : JSONQ) : nat * JSONQ :=
  let j := prepare j in (length (jsonContent j), j).

Definition Get (j : JSONQ) : list object * JSONQ :=
  let j := prepare j in (jsonContent j, j).

End operators.

End gojsonq.

(* ===================================================================== *)
(** ** Package [encoding/json], at the type [[]model.EmployeeInfo] *)
(* ===================================================================== *)

Module json.
Import gojsonq model.

Record UnmarshalTypeError := { Value : string; Type_ : string; Field : string }.

Definition Error (e : UnmarshalTypeError) : string :=
  "json: cannot unmarshal " +:+ Value e +:+ " into Go struct field EmployeeInfo."
    +:+ Field e +:+ " of type " +:+ Type_ e.

Definition kind (v : value) : string :=
  match v with
  | JNull => "null" | JBool _ => "bool" | JNumber _ => "number" | JString _ => "string"
  end.

(** A string member: absent or [null] leaves the zero value; a value of
    another type is a type error and leaves the zero value too. *)
Definition stringField (vm : object) (k : string) : string * option UnmarshalTypeError :=
  match vm !! k with
  | None | Some JNull => (EmptyString, None)
  | Some (JString s) => (s, None)
  | Some v => (EmptyString, Some {| Value := kind v; Type_ := "string"; Field := k |})
  end.

Definition boolField (vm : object) (k : string) : bool * option UnmarshalTypeError :=
  match vm !! k with
  | None | Some JNull => (false, None)
  | Some (JBool b) => (b, None)
  | Some v => (false, Some {| Value := kind v; Type_ := "bool"; Field := k |})
  end.

(** The first error is the one reported. *)
Definition saveError (saved e : option UnmarshalTypeError) : option UnmarshalTypeError :=
  match saved with
  | Some _ => saved
  | None => e
  end.

(** One array element into one struct.  The members arrive in the order
    of the marshalled map, sorted by key.  A member is looked up under
    the name of its field as the tag spells it: [encoding/json] would
    also take a member whose name differs from it by case only, which
    the files of the directory tool never have. *)
Definition unmarshalEmployee (vm : object) (saved : option UnmarshalTypeError)
  : EmployeeInfo * option UnmarshalTypeError :=
  let '(deactivated, e1) := boolField vm "deactivated" in
  let '(date, e2) := stringField vm "deactivated_date" in
  let '(email, e3) := stringField vm "email" in
  let '(first, e4) := stringField vm "first_name" in
  let '(last, e5) := stringField vm "last_name" in
  let '(title, e6) := stringField vm "title" in
  ({| FirstName := first; LastName := last; Email := email; Title := title;
      Deactivated := deactivated; DeactivatedDate := date |},
   saveError (saveError (saveError (saveError (saveError (saveError saved e1) e2) e3) e4) e5) e6).

Fixpoint unmarshalArray (doc : list object) (saved : option UnmarshalTypeError)
  : list EmployeeInfo * option UnmarshalTypeError :=
  match doc with
  | [] => ([], saved)
  | vm :: doc' =>
      let '(e, saved) := unmarshalEmployee vm saved in
      let '(es, saved) := unmarshalArray doc' saved in
      (e :: es, saved)
  end.

(** [json.Marshal(result)] on the value [Get] returned: the text of the
    array, identified with the array; it cannot fail on such a value. *)
Definition Marshal (result : list object) : list object * option UnmarshalTypeError :=
  (result, None).

(** [json.Unmarshal(resultBytes, &employees)]. *)
Definition Unmarshal (resultBytes : list object)
  : list EmployeeInfo * option UnmarshalTypeError :=
  unmarshalArray resultBytes None.

(** [json.Marshal] on an [EmployeeInfo], as the directory tool writes
    its file: [deactivated_date] carries [omitempty]. *)
Definition marshalEmployee (e : EmployeeInfo) : object :=
  let vm : object :=
    <["first_name" := JString (FirstName e)]>
    (<["last_name" := JString (LastName e)]>
    (<["email" := JString (Email e)]>
    (<["title" := JString (Title e)]>
    (<["deactivated" := JBool (Deactivated e)]> ∅)))) in
  match DeactivatedDate e with
  | EmptyString => vm
  | date => <["deactivated_date" := JString date]> vm
  end.

Definition MarshalEmployees (employees : list EmployeeInfo) : list object :=
  map marshalEmployee employees.

End json.

(* ===================================================================== *)
(** ** [pkg/tools/json/json_query.go] *)
(* ===================================================================== *)

Module JSONQuery.
Import model gojsonq.

(** A Go [error]; the engine only meets those of [encoding/json]. *)
Abbreviation error := json.UnmarshalTypeError.

Definition noEmployees : string := "No employees found matching the criteria.".
Definition notFound : string := "Employee not found in the dataset.".

(** [FormatAsMarkdownTable]: one turn of the loop over [employees]. *)
Definition tableRow (emp : EmployeeInfo) : string :=
  let name := FirstName emp +:+ " " +:+ LastName emp in
  let status := "Active" in
  let deactivationDate := EmptyString in
  let '(status, deactivationDate) :=
    if Deactivated emp then ("Deactivated", DeactivatedDate emp)
    else (status, deactivationDate) in
  "| " +:+ name +:+ " | " +:+ Title emp +:+ " | " +:+ Email emp +:+ " | " +:+ status
    +:+ " | " +:+ deactivationDate +:+ " |" +:+ fmt.nl.

Definition tableHeader : string :=
  "| Name | Title | Email | Status | Deactivation Date |" +:+ fmt.nl.
Definition tableSeparator : string :=
  "|------|-------|-------|--------|------------------|" +:+ fmt.nl.

Definition FormatAsMarkdownTable (employees : list EmployeeInfo)
  : string * option error :=
  if (length employees =? 0)%nat then (noEmployees, None) else
  let result := EmptyString in
  let result := result +:+ tableHeader in
  let result := result +:+ tableSeparator in
  let result := fold_left (fun result emp => result +:+ tableRow emp) employees result in
  (result, None).

(** [FormatResults]: one turn of the loop, at index [i]. *)
Definition listLine (i : nat) (emp : EmployeeInfo) : string :=
  let line := fmt.d (i + 1) +:+ ". " +:+ FirstName emp +:+ " " +:+ LastName emp in
  let line :=
    if negb (String.eqb (Title emp) EmptyString) then line +:+ " - " +:+ Title emp
    else line in
  let line :=
    if Deactivated emp then
      if negb (String.eqb (DeactivatedDate emp) EmptyString)
      then line +:+ " (Deactivated on " +:+ DeactivatedDate emp +:+ ")"
      else line +:+ " (Deactivated)"
    else line in
  line +:+ fmt.nl.

Fixpoint listLoop (i : nat) (employees : list EmployeeInfo) (result : string)
  : string :=
  match employees with
  | [] => result
  | emp :: employees' => listLoop (S i) employees' (result +:+ listLine i emp)
  end.

Definition FormatResults (employees : list EmployeeInfo) : string * option error :=
  if (length employees =? 0)%nat then (noEmployees, None) else
  let result := "Found " +:+ fmt.d (length employees) +:+ " employees:" +:+ fmt.nl +:+ fmt.nl in
  (listLoop 0 employees result, None).

Definition specificPatterns : list string :=
  [ "when was"; "when did"; "what date"; "who is"; "information about";
    "details for"; "details about"; "find employee"; "search for";
    "look for"; "locate"; "get info on" ].

Definition isSpecificEmployeeSearch (query : string) : bool :=
  if existsb (fun pattern => strings.Contains query pattern) specificPatterns
  then true else
  if strings.Contains query "find" then
    if strings.Contains query "find last" || strings.Contains query "find top" ||
       strings.Contains query "find the last" || strings.Contains query "find the top"
    then false
    else true
  else false.

(** The narrative built from the first matching employee. *)
Definition narrative (emp : EmployeeInfo) : string :=
  let result := "Employee: " +:+ FirstName emp +:+ " " +:+ LastName emp +:+ fmt.nl in
  let result :=
    if negb (String.eqb (Title emp) EmptyString)
    then result +:+ "Title: " +:+ Title emp +:+ fmt.nl else result in
  let result :=
    if negb (String.eqb (Email emp) EmptyString)
    then result +:+ "Email: " +:+ Email emp +:+ fmt.nl else result in
  if Deactivated emp then
    let result := result +:+ "Status: Deactivated" +:+ fmt.nl in
    if negb (String.eqb (DeactivatedDate emp) EmptyString)
    then result +:+ "Deactivation Date: " +:+ DeactivatedDate emp +:+ fmt.nl
    else result
  else result +:+ "Status: Active" +:+ fmt.nl.

(** The comparator handed to [sort.Slice], on the two elements
    [employees[i]] and [employees[j]]. *)
Definition dateLess (empI empJ : EmployeeInfo) : bool :=
  let dateI := DeactivatedDate empI in
  let dateJ := DeactivatedDate empJ in
  if String.eqb dateI EmptyString && String.eqb dateJ EmptyString then false else
  if String.eqb dateI EmptyString then false else
  if String.eqb dateJ EmptyString then true else
  match time.Parse dateI, time.Parse dateJ with
  | None, None => false
  | None, Some _ => false
  | Some _, None => true
  | Some timeI, Some timeJ => time.After timeI timeJ
  end.

(** [if num, err := strconv.Atoi(text); err == nil && num > 0 {
     if num < len(employees) { employees = employees[:num]; break } }]:
    [Some] is the truncated slice at the [break]. *)
Definition tryLimit (text : string) (employees : list EmployeeInfo)
  : option (list EmployeeInfo) :=
  match strconv.Atoi text with
  | Some num =>
      if (0 <? num)%Z then
        if (num <? Z.of_nat (length employees))%Z
        then Some (take (Z.to_nat num) employees)
        else None
      else None
  | None => None
  end.

(** The loop over [words] that looks for a numeric limit; [words] is
    [words[i:]], the result is [employees] and [limitApplied]. *)
Fixpoint limitLoop (words : list string) (employees : list EmployeeInfo)
  : list EmployeeInfo * bool :=
  match words with
  | [] => (employees, false)
  | word :: rest =>
      let first :=
        if String.eqb word "last" || String.eqb word "top" || String.eqb word "latest"
        then match rest with
             | next :: _ => tryLimit next employees
             | [] => None
             end
        else None in
      match first with
      | Some employees => (employees, true)
      | None =>
          let second :=
            match rest with
            | next :: _ =>
                if String.eqb next "employees" || String.eqb next "employee"
                then tryLimit word employees
                else None
            | [] => None
            end in
          match second with
          | Some employees => (employees, true)
          | None => limitLoop rest employees
          end
      end
  end.

Section engine.
Context `{strings.Text} `{sort.Random}.

(** Lines 175-189: the search for one pair of words and the decoding
    of what it found. *)
Definition searchPair (jq : JSONQ) (potentialFirstName potentialLastName : string)
  : list EmployeeInfo * option error * JSONQ :=
  let jq := Reset jq in
  let '(result, jq) :=
    Get (OrWhere (OrWhere jq "first_name" "contains" (JString potentialFirstName))
           "last_name" "contains" (JString potentialLastName)) in
  match json.Marshal result with
  | (_, Some err) => ([], Some err, jq)
  | (resultBytes, None) =>
      let '(employees, err) := json.Unmarshal resultBytes in
      (employees, err, jq)
  end.

(** The loop of [findSpecificEmployee] over the adjacent pairs of
    [words]; [words] is [words[i:]]. *)
Fixpoint findLoop (jq : JSONQ) (words : list string) : string * option error :=
  match words with
  | potentialFirstName :: ((potentialLastName :: _) as rest) =>
      if (String.length potentialFirstName <? 3)%nat ||
         (String.length potentialLastName <? 3)%nat
      then findLoop jq rest else
      match searchPair jq potentialFirstName potentialLastName with
      | (_, Some _, jq) => findLoop jq rest
      | ([], None, jq) => findLoop jq rest
      | (emp :: _, None, _) => (narrative emp, None)
      end
  | _ => (notFound, None)
  end.

Definition findSpecificEmployee (jq : JSONQ) (query : string)
  : string * option error :=
  let words := strings.Fields query in
  findLoop jq words.

(** Lines 41-47: the status filter, on the lower-cased [query]. *)
Definition statusFilter (jq : JSONQ) (query : string) : JSONQ :=
  if strings.Contains query "deactivat" || strings.Contains query "terminat"
  then Where jq "deactivated" "=" (JBool true)
  else if strings.Contains query "active" && negb (strings.Contains query "deactivat")
  then Where jq "deactivated" "=" (JBool false)
  else jq.

(** Lines 73-109: the sort by deactivation date. *)
Definition sortStage (query : string) (employees : list EmployeeInfo)
  : list EmployeeInfo :=
  if strings.Contains query "last" || strings.Contains query "recent" ||
     strings.Contains query "sort by date" ||
     strings.Contains query "sort by deactivation"
  then sort.Slice dateLess employees
  else employees.

(** Lines 112-142: the numeric limit. *)
Definition limitStage (query : string) (employees : list EmployeeInfo)
  : list EmployeeInfo :=
  let words := strings.Fields query in
  fst (limitLoop words employees).

(** Lines 150-157: the choice of the format. *)
Definition formatStage (query : string) (employees : list EmployeeInfo)
  : string * option error :=
  if strings.Contains query "table" || strings.Contains query "markdown"
  then FormatAsMarkdownTable employees
  else FormatResults employees.

(** Lines 28-47: the query object once the status filter is set;
    [query] is lower-cased. *)
Definition filterStage (jsonData : list object) (query : string) : JSONQ :=
  let jq := FromString jsonData in
  let '(totalCount, jq) := Count jq in
  let jq := Reset jq in
  statusFilter jq query.

(** [ProcessQuery], on the decoded [jsonData]; the progress lines it
    prints are left out. *)
Definition ProcessQuery (jsonData : list object) (query : string)
  : string * option error :=
  let query := strings.ToLower query in
  let jq := filterStage jsonData query in
  if isSpecificEmployeeSearch query then findSpecificEmployee jq query else
  let '(result, jq) := Get jq in
  match json.Marshal result with
  | (_, Some err) => ("Error: " +:+ json.Error err, Some err)
  | (resultBytes, None) =>
      match json.Unmarshal resultBytes with
      | (_, Some err) => ("Error: " +:+ json.Error err, Some err)
      | (employees, None) =>
          let employees := sortStage query employees in
          let employees := limitStage query employees in
          formatStage query employees
      end
  end.

End engine.

End JSONQuery.

(* ===================================================================== *)
(** ** Vocabulary of the statements *)
(* ===================================================================== *)

Module Stated.
Import model gojsonq JSONQuery.

(** The three status filters. *)
Inductive StatusFilter := ALL | ACTIVE | DEACTIVATED.

(** The filter selected from the lower-cased text, by precedence. *)
Definition selectedFilter (query : string) : StatusFilter :=
if strings.Contains query "deactivat" || strings.Contains query "terminat"
then DEACTIVATED
else if strings.Contains query "active" then ACTIVE
else ALL.

(** The member [deactivated] of the object is the boolean [b]. *)
Definition hasStatus (b : bool) (vm : object) : bool :=
match vm !! "deactivated" with
| Some (JBool b') => Bool.eqb b' b
| _ => false
end.

Definition matchesFilter (f : StatusFilter) (vm : object) : bool :=
match f with
| ALL => true
| ACTIVE => hasStatus false vm
| DEACTIVATED => hasStatus true vm
end.

(** What the date of a record is to the sort: a calendar day, a text
    that is no date, or nothing. *)
Inductive DateClass := Parsed (t : time.Time) | Unparseable | Empty.

Definition dateClass (emp : EmployeeInfo) : DateClass :=
  match DeactivatedDate emp with
  | EmptyString => Empty
  | date =>
      match time.Parse date with
      | Some t => Parsed t
      | None => Unparseable
      end
  end.

(** The query asks for the sort by date. *)
Definition wantsDateSort (query : string) : bool :=
  strings.Contains query "last" || strings.Contains query "recent" ||
  strings.Contains query "sort by date" ||
  strings.Contains query "sort by deactivation".

(** A token parseable as a positive integer. *)
Definition positive (text : string) : option Z :=
match strconv.Atoi text with
| Some num => if (0 <? num)%Z then Some num else None
| None => None
end.

Definition isLimitWord (word : string) : bool :=
String.eqb word "last" || String.eqb word "top" || String.eqb word "latest".

Definition isEmployeeWord (word : string) : bool :=
String.eqb word "employees" || String.eqb word "employee".

(** The numbers of the successful patterns among the tokens, from left
  to right: (a) ["last"], ["top"] or ["latest"] followed by a positive
  integer; (b) a positive integer followed by ["employee"] or
  ["employees"]. *)
Fixpoint limitCandidates (words : list string) : list Z :=
match words with
| [] => []
| word :: rest =>
    let a :=
      match rest with
      | next :: _ => if isLimitWord word then positive next else None
      | [] => None
      end in
    let b :=
      match rest with
      | next :: _ => if isEmployeeWord next then positive word else None
      | [] => None
      end in
    option_list a ++ option_list b ++ limitCandidates rest
end.

(** Truncation to the first [L] elements when [L] is smaller than the
  length, no change otherwise. *)
Definition truncateTo {A : Type} (L : Z) (result : list A) : list A :=
if (L <? Z.of_nat (length result))%Z then take (Z.to_nat L) result else result.

(** The limit as the specification words it: the number of the first
  successful pattern is the limit. *)
Definition limitAsStated {A : Type} (words : list string) (result : list A) : list A :=
match limitCandidates words with
| L :: _ => truncateTo L result
| [] => result
end.

Section lookup.
Context `{strings.Text}.

(** The record matches the pair of words: its first name contains the
first or its last name contains the second, case ignored. *)
Definition pairMatches (first last : string) (emp : EmployeeInfo) : bool :=
  strings.Contains (strings.ToLower (FirstName emp)) (strings.ToLower first) ||
  strings.Contains (strings.ToLower (LastName emp)) (strings.ToLower last).

(** The lookup as the specification words it, on the records
themselves: the first adjacent pair of words of three bytes or
more with a matching record decides, and its first matching
record is reported. *)
Fixpoint lookupAsStated (employees : list EmployeeInfo) (words : list string)
  : string * option error :=
  match words with
  | first :: ((last :: _) as rest) =>
  if (String.length first <? 3)%nat || (String.length last <? 3)%nat
  then lookupAsStated employees rest
  else match List.filter (pairMatches first last) employees with
       | emp :: _ => (narrative emp, None)
       | [] => lookupAsStated employees rest
       end
  | _ => (notFound, None)
  end.

(** The pair of words gives a narrative: both words have three bytes
or more, the records found decode, and there is one at least. *)
Definition pairSucceeds (jq : JSONQ) (first last : string) : bool :=
  negb ((String.length first <? 3)%nat || (String.length last <? 3)%nat) &&
  match searchPair jq first last with
  | (_ :: _, None, _) => true
  | _ => false
  end.

End lookup.

End Stated.


(** The vocabulary of the correctness of [sort.Slice]. *)
Module SortSpec.

Section spec.
Context {A : Type} (less : A -> A -> bool).

(** [less] is a strict weak ordering, as [sort.Slice] asks of it. *)
Class StrictWeak := {
  less_asym : forall x y, less x y = true -> less y x = false;
  less_cotrans : forall x y z, less x z = true -> less x y = true \/ less y z = true;
}.

(** [x] does not come after [y]. *)
Definition le (x y : A) : Prop := less y x = false.

(** Neither is less than the other. *)
Definition equiv (x y : A) : bool := negb (less x y) && negb (less y x).

(** Every element of [data[a:b]] satisfies [P]. *)
Definition all_in (a b : nat) (data : list A) (P : A -> Prop) : Prop :=
  forall k x, a <= k -> k < b -> data !! k = Some x -> P x.

(** [data[a:b]] is in order. *)
Definition sorted_in (a b : nat) (data : list A) : Prop :=
  forall i j x y, a <= i -> i < j -> j < b ->
data !! i = Some x -> data !! j = Some y -> le x y.

(** [data'] is [data] with [data[a:b]] rearranged. *)
Definition range_perm (a b : nat) (data data' : list A) : Prop :=
  data' ≡ₚ data /\ forall k, k < a \/ b <= k -> data' !! k = data !! k.

(** The element before [data[a:b]], if any, does not come after any
element of [data[a:b]]. *)
Definition lower_bound (a b : nat) (data : list A) : Prop :=
  forall x, 0 < a -> data !! (a - 1) = Some x -> all_in a b data (le x).

(** Every element of [data[a:b]] but the last does not come after its
successor. *)
Definition adj_sorted (a b : nat) (data : list A) : Prop :=
  forall k x y, a <= k -> S k < b ->
data !! k = Some x -> data !! S k = Some y -> le x y.

(** The same, but for the pair that ends at [j]. *)
Definition adj_except (a b j : nat) (data : list A) : Prop :=
  forall k x y, a <= k -> S k < b -> S k <> j ->
data !! k = Some x -> data !! S k = Some y -> le x y.

(** The neighbours of [data[j]] are in order. *)
Definition bridge (a b j : nat) (data : list A) : Prop :=
  forall i x y, S i = j -> a <= i -> S j < b ->
data !! i = Some x -> data !! S j = Some y -> le x y.

(** [c] is a child of the node [p] of a binary heap. *)
Definition child (p c : nat) : Prop := c = 2 * p + 1 \/ c = 2 * p + 2.

(** In [data[first:first+hi]] read as a binary heap, every node from
[lo] on, but the node [r], does not come before its children. *)
Definition heap_except (first lo hi r : nat) (data : list A) : Prop :=
  forall p c x y, lo <= p -> p <> r -> child p c -> c < hi ->
data !! (first + p) = Some x -> data !! (first + c) = Some y -> le y x.

(** The parent of the node [r] does not come before the children of
[r]. *)
Definition heap_bridge (first lo hi r : nat) (data : list A) : Prop :=
  forall p c x y, lo <= p -> child p r -> child r c -> c < hi ->
data !! (first + p) = Some x -> data !! (first + c) = Some y -> le y x.

Definition heap (first lo hi : nat) (data : list A) : Prop :=
  heap_except first lo hi hi data.

(** No element of [data[a:m]] comes after an element of [data[m:b]]. *)
Definition split_at (a m b : nat) (data : list A) : Prop :=
  forall k y, m <= k -> k < b -> data !! k = Some y ->
all_in a m data (fun x => le x y).

(** The whole list is in order. *)
Definition sorted (data : list A) : Prop := sorted_in 0 (length data) data.

(** The sort keeps the elements equivalent to [x] in their order. *)
Definition stable_on (x : A) (data data' : list A) : Prop :=
  List.filter (equiv x) data' = List.filter (equiv x) data.

End spec.

End SortSpec.


(* ===================================================================== *)
(** ** Sample records *)
(* ===================================================================== *)

Import model gojsonq JSONQuery Stated.

Definition fiveEmployees : list EmployeeInfo :=
  map (fun name =>
         {| FirstName := name; LastName := "Doe"; Email := EmptyString;
            Title := EmptyString; Deactivated := false;
            DeactivatedDate := EmptyString |})
      ["Ann"; "Bob"; "Cid"; "Dan"; "Eve"].

Definition jane : EmployeeInfo :=
  {| FirstName := "Jane"; LastName := "Roe"; Email := "jane.roe@example.com";
     Title := "Marketing Manager"; Deactivated := false;
     DeactivatedDate := EmptyString |}.

Definition john : EmployeeInfo :=
  {| FirstName := "John"; LastName := "Doe"; Email := "john.doe@example.com";
     Title := "Software Engineer"; Deactivated := false;
     DeactivatedDate := EmptyString |}.

(** A record whose first name is a number: it is found through its last
    name and does not decode. *)
Definition misshaped : object :=
  <["first_name" := JNumber 5]>
  (<["last_name" := JString "Doe"]> (<["deactivated" := JBool false]> ∅)).

Definition dated (name date : string) : EmployeeInfo :=
  {| FirstName := name; LastName := "Doe"; Email := EmptyString;
     Title := EmptyString; Deactivated := true; DeactivatedDate := date |}.

Definition fiveDates : list EmployeeInfo :=
  [ dated "Ann" "2023-01-01"; dated "Bob" "2023-06-01"; dated "Cid" "2022-01-01";
    dated "Dan" "2024-01-01"; dated "Eve" "2021-01-01" ].

(** Twelve records without a date, then one with a date. *)
Definition thirteen : list EmployeeInfo :=
  map (fun name => dated name EmptyString)
      ["A"; "B"; "C"; "D"; "E"; "F"; "G"; "H"; "I"; "J"; "K"; "L"]
  ++ [dated "M" "2024-01-01"].

(** Seven records with ties: two of the same day, two whose date is no
    date, two without a date. *)
Definition tiedDates : list EmployeeInfo :=
  [ dated "Ann" EmptyString; dated "Bob" "2023-01-01"; dated "Cid" "n/a";
    dated "Dan" EmptyString; dated "Eve" "2023-01-01"; dated "Fay" "n/a";
    dated "Gus" "2024-05-05" ].

(* ===================================================================== *)
(** ** The types of [github.com/slack-go/slack] the directory tool reads *)
(* ===================================================================== *)

Module slackgo.

Record UserProfile := {
  FirstName : string;
  LastName : string;
  Email : string;
  Title : string;
}.

(** A [slack.User]; [Updated] is a [JSONTime], seconds since the epoch. *)
Record User := {
  RealName : string;
  Deleted : bool;
  IsBot : bool;
  Updated : Z;
  Profile : UserProfile;
}.

(** What one call of [pagination.Next(ctx)] gives when the pagination
    is not complete: a page of users or a failure. *)
Inductive next := Page (users : list User) | Failed (err : string).

(** The Slack workspace as the tool sees it: the failure of
    [AuthTest], if any, and what the successive calls of [Next] give;
    after the last one the pagination is complete. *)
Record Client := {
  AuthTest : option string;
  Pages : list next;
}.

End slackgo.

(* ===================================================================== *)
(** ** Package [pkg/tools/slack] *)
(* ===================================================================== *)

Module slack.
Import slackgo.

Definition maxPaginationAttempts : nat := 10.

Definition FilterType := string.
Definition FilterAll : FilterType := "all".
Definition FilterActive : FilterType := "active".
Definition FilterDeactivated : FilterType := "deactivated".

Section tool.
Context `{time.Zone}.

Definition estimateDeactivatedDateFromJSON (jsonTime : Z) : string :=
  let t := time.Unix jsonTime in
  time.Format t.

(** [processUser]: the slice [employees] after the call. *)
Definition processUser (employees : list model.EmployeeInfo) (user : User)
    (filter : FilterType) : list model.EmployeeInfo :=
  let nameParts := strings.SplitSpace (RealName user) in
  let firstName := FirstName (Profile user) in
  let lastName := LastName (Profile user) in
  let firstName :=
    if String.eqb firstName EmptyString && (0 <? length nameParts)%nat
    then default EmptyString (nameParts !! 0%nat) else firstName in
  let lastName :=
    if String.eqb lastName EmptyString && (1 <? length nameParts)%nat
    then default EmptyString (nameParts !! (length nameParts - 1)%nat) else lastName in
  let deactivatedDate := EmptyString in
  let deactivatedDate :=
    if Deleted user then estimateDeactivatedDateFromJSON (Updated user)
    else deactivatedDate in
  let employee :=
    {| model.FirstName := firstName;
       model.LastName := lastName;
       model.Email := Email (Profile user);
       model.Title := Title (Profile user);
       model.Deactivated := Deleted user;
       model.DeactivatedDate := deactivatedDate |} in
  if String.eqb filter FilterAll then employees ++ [employee]
  else if String.eqb filter FilterDeactivated then
    if Deleted user then employees ++ [employee] else employees
  else if String.eqb filter FilterActive then
    if negb (Deleted user) then employees ++ [employee] else employees
  else employees.

(** The loop over the users of one page. *)
Definition processPage (employees : list model.EmployeeInfo) (users : list User)
    (filter : FilterType) : list model.EmployeeInfo :=
  fold_left
    (fun employees user =>
       if negb (IsBot user) then processUser employees user filter else employees)
    users employees.

(** The loop [for paginationCount < maxPaginationAttempts]; [attempts]
    is [maxPaginationAttempts - paginationCount] and [pages] what the
    calls of [Next] still give.  The result is [employees],
    [paginationCount] and [totalUsers]. *)
Fixpoint paginationLoop (attempts : nat) (pages : list next)
    (employees : list model.EmployeeInfo) (paginationCount totalUsers : nat)
    (filter : FilterType) : list model.EmployeeInfo * nat * nat :=
  match attempts with
  | 0 => (employees, paginationCount, totalUsers)
  | S attempts' =>
      match pages with
      | [] => (employees, paginationCount, totalUsers)
      | Failed _ :: _ => (employees, S paginationCount, totalUsers)
      | Page users :: pages' =>
          let paginationCount := S paginationCount in
          let fetchedCount := length users in
          let totalUsers := (totalUsers + fetchedCount)%nat in
          paginationLoop attempts' pages' (processPage employees users filter)
            paginationCount totalUsers filter
      end
  end.

Definition searchAMAEmployeesUsingStandardAPI (client : Client) (filter : FilterType)
  : list model.EmployeeInfo * option string :=
  let employees := [] in
  let paginationCount := 0%nat in
  let totalUsers := 0%nat in
  let '(employees, _, _) :=
    paginationLoop (maxPaginationAttempts - paginationCount) (Pages client)
      employees paginationCount totalUsers filter in
  (employees, None).

Definition SearchAMAEmployees (client : Client) (filter : FilterType)
  : list model.EmployeeInfo * option string :=
  match AuthTest client with
  | Some err => ([], Some ("slack authentication failed: " +:+ err))
  | None =>
      match searchAMAEmployeesUsingStandardAPI client filter with
      | (_, Some err) => ([], Some ("error searching for employees: " +:+ err))
      | (employees, None) => (employees, None)
      end
  end.

Context `{strings.Text}.

(** [SlackAMAEmployeesTool.Call], lines 84-95: the filter read from
    the input. *)
Definition callFilter (input : string) : FilterType :=
  let filter := FilterAll in
  let inputLower := strings.ToLower input in
  if strings.Contains inputLower "active" &&
     negb (strings.Contains inputLower "deactivated")
  then FilterActive
  else if strings.Contains inputLower "deactivated" then FilterDeactivated
  else filter.

(** [SlackAMAEmployeesTool.Call], lines 84-109: the document written to
    the file [data/employees-<filter>-<timestamp>.json], or the error
    returned before any file is written. *)
Definition callEmployeesJSON (client : Client) (input : string)
  : list gojsonq.object * option string :=
  let filter := callFilter input in
  match SearchAMAEmployees client filter with
  | (_, Some err) => ([], Some ("error searching for employees information: " +:+ err))
  | (employees, None) => (json.MarshalEmployees employees, None)
  end.

End tool.

End slack.

(* ===================================================================== *)
(** ** The engine on the records themselves *)
(* ===================================================================== *)

Module Typed.
Import model gojsonq JSONQuery Stated.

(** The record passes the status filter. *)
Definition keeps (f : StatusFilter) (emp : EmployeeInfo) : bool :=
  match f with
  | ALL => true
  | ACTIVE => negb (Deactivated emp)
  | DEACTIVATED => Deactivated emp
  end.

(** The member [deactivated] of the object is no boolean, or there is
    none. *)
Definition unflagged (vm : object) : bool :=
  match vm !! "deactivated" with
  | Some (JBool _) => false
  | _ => true
  end.

(** The member [k] of the object is a number or a boolean: it does not
    decode into a string field. *)
Definition notString (vm : object) (k : string) : bool :=
  match vm !! k with
  | Some (JBool _) | Some (JNumber _) => true
  | _ => false
  end.

(** The member [k] of the object is a number or a string: it does not
    decode into a boolean field. *)
Definition notBool (vm : object) (k : string) : bool :=
  match vm !! k with
  | Some (JNumber _) | Some (JString _) => true
  | _ => false
  end.

(** Under the name of a field of [EmployeeInfo], the object has a
    member of another type than the field. *)
Definition misTyped (vm : object) : bool :=
  notBool vm "deactivated" || notString vm "deactivated_date" ||
  notString vm "email" || notString vm "first_name" ||
  notString vm "last_name" || notString vm "title".

(** The answer of the engine on the records themselves: the lookup on
    the records, or the records that pass the filter, sorted, cut and
    formatted. *)
Definition answer `{strings.Text} `{sort.Random} (employees : list EmployeeInfo)
    (query : string) : string * option error :=
  if isSpecificEmployeeSearch query
  then lookupAsStated employees (strings.Fields query)
  else formatStage query
         (limitStage query
            (sortStage query (List.filter (keeps (selectedFilter query)) employees))).

(** The record with its date hidden when it is active. *)
Definition shown (emp : EmployeeInfo) : EmployeeInfo :=
  if Deactivated emp then emp else
  {| FirstName := FirstName emp; LastName := LastName emp; Email := Email emp;
     Title := Title emp; Deactivated := false; DeactivatedDate := EmptyString |}.

(** A calendar day of the years 0 to 9999. *)
Definition validDate (t : time.Time) : bool :=
  (0 <=? time.Year t)%Z && (time.Year t <=? 9999)%Z &&
  (1 <=? time.Month t)%Z && (time.Month t <=? 12)%Z &&
  (1 <=? time.Day t)%Z && (time.Day t <=? time.daysIn (time.Month t) (time.Year t))%Z.

(** The record passes the filter of the directory tool. *)
Definition passes (filter : slack.FilterType) (emp : EmployeeInfo) : bool :=
  String.eqb filter slack.FilterAll ||
  (String.eqb filter slack.FilterDeactivated && Deactivated emp) ||
  (String.eqb filter slack.FilterActive && negb (Deactivated emp)).

(** The users the directory tool reads: those of the pages before the
    first failure, among the first [maxPaginationAttempts] calls. *)
Fixpoint usersRead (attempts : nat) (pages : list slackgo.next) : list slackgo.User :=
  match attempts, pages with
  | S attempts', slackgo.Page users :: pages' => users ++ usersRead attempts' pages'
  | _, _ => []
  end.

(** No pair of adjacent words has two words of three bytes or more. *)
Fixpoint noEligiblePair (words : list string) : bool :=
  match words with
  | first :: ((last :: _) as rest) =>
      ((String.length first <? 3)%nat || (String.length last <? 3)%nat) &&
      noEligiblePair rest
  | _ => true
  end.

End Typed.

(** A record without the member [deactivated]. *)
Definition unflaggedRecord : object := <["first_name" := JString "Zed"]> ∅.

Definition mixedDocument : list object :=
  [ json.marshalEmployee john; unflaggedRecord;
    json.marshalEmployee (dated "Ann" "2023-01-01"); json.marshalEmployee jane ].

(** A user whose profile has no names. *)
Definition member (realName : string) (deleted isBot : bool) (updated : Z)
  : slackgo.User :=
  {| slackgo.RealName := realName; slackgo.Deleted := deleted;
     slackgo.IsBot := isBot; slackgo.Updated := updated;
     slackgo.Profile :=
       {| slackgo.FirstName := EmptyString; slackgo.LastName := EmptyString;
          slackgo.Email := EmptyString; slackgo.Title := EmptyString |} |}.

(** A workspace of two pages, a failure at the third call. *)
Definition workspace : slackgo.Client :=
  {| slackgo.AuthTest := None;
     slackgo.Pages :=
       [ slackgo.Page [ member "Mary Ann Smith" false false 1600000000;
                        member "buildbot" false true 1600000000 ];
         slackgo.Page [ member "Madonna" true false 1700000000 ];
         slackgo.Failed "rate limited";
         slackgo.Page [ member "Never Read" false false 1600000000 ] ] |}.

(* ===================================================================== *)
(** * Properties *)
(* ===================================================================== *)

(** ** The status filter *)

Section StatusFilter.
Context `{strings.Text}.

Lemma flat_map_singleton_filter {A : Type} (p : A -> bool) (l : list A) :
  flat_map (fun x => if p x then [x] else []) l = List.filter p l.
Proof.
  induction l as [|x l IH]; simpl; [reflexivity|].
  rewrite IH. destruct (p x); reflexivity.
Qed.

Lemma Get_Where_deactivated (doc : list object) (b : bool) :
  fst (Get (Where (Reset (snd (Count (FromString doc)))) "deactivated" "=" (JBool b)))
  = List.filter (hasStatus b) doc.
Proof.
  unfold Get, prepare, processQuery, findInArray, Where, Reset, Count, prepare,
    FromString; simpl.
  rewrite <- flat_map_singleton_filter.
  apply flat_map_ext. intros vm. unfold findInMap; simpl.
  unfold hasStatus. destruct (vm !! "deactivated") as [[| b' | n | s]|]; reflexivity.
Qed.

Lemma Get_unfiltered (doc : list object) :
  fst (Get (Reset (snd (Count (FromString doc))))) = doc.
Proof. reflexivity. Qed.

Lemma filterStage_result (jsonData : list object) (query : string) :
  fst (Get (filterStage jsonData query))
  = List.filter (matchesFilter (selectedFilter query)) jsonData.
Proof.
  unfold filterStage, statusFilter, selectedFilter.
  change (let '(_, jq) := Count (FromString jsonData) in
          let jq0 := Reset jq in ?f jq0)
    with (f (Reset (snd (Count (FromString jsonData))))).
  destruct (strings.Contains query "deactivat") eqn:Hd; simpl.
  - apply (Get_Where_deactivated jsonData true).
  - destruct (strings.Contains query "terminat"); simpl.
    + apply (Get_Where_deactivated jsonData true).
    + destruct (strings.Contains query "active"); simpl.
      * apply (Get_Where_deactivated jsonData false).
      * induction jsonData as [|vm l IH]; simpl; [reflexivity|].
        f_equal. exact IH.
Qed.

Lemma filter_sublist {A : Type} (p : A -> bool) (l : list A) :
  sublist (List.filter p l) l.
Proof.
  induction l as [|x l IH]; simpl; [constructor|].
  destruct (p x); [apply sublist_skip | apply sublist_cons]; exact IH.
Qed.

Lemma unmarshal_flag (b : bool) (vm : object) saved :
  hasStatus b vm = true -> Deactivated (fst (json.unmarshalEmployee vm saved)) = b.
Proof.
  unfold hasStatus, json.unmarshalEmployee, json.boolField.
  destruct (vm !! "deactivated") as [[| b' | n | s]|]; try discriminate.
  intros Hb. apply Bool.eqb_prop in Hb. subst b'.
  repeat match goal with |- context [json.stringField ?a ?b] =>
    destruct (json.stringField a b) end.
  reflexivity.
Qed.

Lemma unmarshalArray_flags (b : bool) (doc : list object) saved :
  Forall (fun vm => hasStatus b vm = true) doc ->
  Forall (fun e => Deactivated e = b) (fst (json.unmarshalArray doc saved)).
Proof.
  revert saved. induction doc as [|vm doc IH]; intros saved Hall; simpl.
  - constructor.
  - inversion Hall as [|? ? Hvm Hdoc]; subst.
    pose proof (unmarshal_flag b vm saved Hvm) as Hflag.
    destruct (json.unmarshalEmployee vm saved) as [e saved1].
    specialize (IH saved1 Hdoc).
    destruct (json.unmarshalArray doc saved1) as [es saved2].
    simpl in *. constructor; assumption.
Qed.

(** C1.  The filter is selected by precedence (a deactivation stem
    first, then ["active"], else none); the records handed on are
    exactly those of the input whose [deactivated] member is the flag
    of the selected filter, in their order, so they form a subsequence
    of the input on which every flag matches; the flag survives the
    decoding into [EmployeeInfo]. *)
Theorem status_filter_by_precedence (jsonData : list object) (text : string) :
  let query := strings.ToLower text in
  let result := fst (Get (filterStage jsonData query)) in
  let employees := fst (json.Unmarshal (fst (json.Marshal result))) in
  (if strings.Contains query "deactivat" || strings.Contains query "terminat"
   then result = List.filter (hasStatus true) jsonData /\
        Forall (fun e => Deactivated e = true) employees
   else if strings.Contains query "active"
   then result = List.filter (hasStatus false) jsonData /\
        Forall (fun e => Deactivated e = false) employees
   else result = jsonData) /\
  sublist result jsonData /\
  Forall (fun vm => matchesFilter (selectedFilter query) vm = true) result.
Proof.
  intros query result employees. subst employees result.
  rewrite filterStage_result. unfold selectedFilter.
  assert (Hflags : forall b,
    Forall (fun vm => hasStatus b vm = true) (List.filter (hasStatus b) jsonData)).
  { intros b. apply List.Forall_forall. intros vm Hin.
    apply List.filter_In in Hin. tauto. }
  split; [|split].
  - destruct (_ || _); simpl.
    { split; [reflexivity|]. apply unmarshalArray_flags, Hflags. }
    destruct (strings.Contains query "active"); simpl.
    { split; [reflexivity|]. apply unmarshalArray_flags, Hflags. }
    induction jsonData as [|vm l IH]; simpl; [reflexivity|].
    f_equal. apply IH. intros b. apply List.Forall_forall. intros vm' Hin.
    apply List.filter_In in Hin. tauto.
  - apply filter_sublist.
  - apply List.Forall_forall. intros vm Hin. apply List.filter_In in Hin. tauto.
Qed.

End StatusFilter.

(** ** Detection of the single-person lookup *)

Lemma existsb_specificPatterns (query pattern : string) :
  In pattern specificPatterns ->
  strings.Contains query pattern = true ->
  existsb (fun pattern => strings.Contains query pattern) specificPatterns = true.
Proof.
  intros Hin Hc. apply List.existsb_exists. exists pattern. split; assumption.
Qed.

(** C6.  A query with one of the fixed phrases is a lookup; so is a
    query with ["find"] and none of the four counting phrases; a query
    with a counting phrase and none of the fixed phrases is not, and
    ["find last 5"] is such a query. *)
Theorem lookup_detection (query : string) :
  (forall pattern, In pattern specificPatterns ->
     strings.Contains query pattern = true ->
     isSpecificEmployeeSearch query = true) /\
  (strings.Contains query "find" = true ->
   strings.Contains query "find last" = false ->
   strings.Contains query "find top" = false ->
   strings.Contains query "find the last" = false ->
   strings.Contains query "find the top" = false ->
   isSpecificEmployeeSearch query = true) /\
  (strings.Contains query "find last" = true \/
   strings.Contains query "find top" = true \/
   strings.Contains query "find the last" = true \/
   strings.Contains query "find the top" = true ->
   (forall pattern, In pattern specificPatterns ->
      strings.Contains query pattern = false) ->
   isSpecificEmployeeSearch query = false) /\
  isSpecificEmployeeSearch "find last 5" = false.
Proof.
  unfold isSpecificEmployeeSearch. split; [|split; [|split]].
  - intros pattern Hin Hc.
    rewrite (existsb_specificPatterns query pattern Hin Hc). reflexivity.
  - intros Hf H1 H2 H3 H4. rewrite Hf, H1, H2, H3, H4.
    destruct (existsb _ _); reflexivity.
  - intros Hcount Hnone.
    assert (Hex : existsb (fun pattern => strings.Contains query pattern)
                    specificPatterns = false).
    { apply Bool.not_true_is_false. intros Hex.
      apply List.existsb_exists in Hex. destruct Hex as [p [Hin Hc]].
      rewrite (Hnone p Hin) in Hc. discriminate. }
    rewrite Hex.
    destruct (strings.Contains query "find"); [|reflexivity].
    destruct Hcount as [Hc|[Hc|[Hc|Hc]]]; rewrite Hc;
      rewrite ?Bool.orb_true_r; reflexivity.
  - reflexivity.
Qed.

Lemma lookup_detection_witness :
  isSpecificEmployeeSearch "who is jane" = true /\
  isSpecificEmployeeSearch "find jane roe" = true /\
  isSpecificEmployeeSearch "find the top 3" = false.
Proof.
  split; [|split].
  - apply (proj1 (lookup_detection "who is jane") "who is").
    + simpl. tauto.
    + reflexivity.
  - apply (proj1 (proj2 (lookup_detection "find jane roe"))); reflexivity.
  - apply (proj1 (proj2 (proj2 (lookup_detection "find the top 3")))).
    + right. right. right. reflexivity.
    + intros pattern Hin. simpl in Hin.
      repeat (destruct Hin as [<-|Hin]; [reflexivity|]). contradiction.
Defined.

(** ** The formatters *)

(** C7.  On the empty list both formatters return the same fixed
    message, which is not the empty string, and no error; so does the
    choice between them, whatever the query. *)
Theorem empty_result_message :
  FormatResults [] = (noEmployees, None) /\
  FormatAsMarkdownTable [] = (noEmployees, None) /\
  noEmployees = "No employees found matching the criteria." /\
  noEmployees <> EmptyString /\
  forall query, formatStage query [] = (noEmployees, None).
Proof.
  repeat split.
  - discriminate.
  - intros query. unfold formatStage. destruct (_ || _); reflexivity.
Qed.

Lemma append_cons (c : ascii) (s t : string) : String c s +:+ t = String c (s +:+ t).
Proof. reflexivity. Qed.

Lemma append_assoc (s1 s2 s3 : string) : (s1 +:+ s2) +:+ s3 = s1 +:+ (s2 +:+ s3).
Proof.
  induction s1 as [|c s1 IH]; [reflexivity|].
  rewrite !append_cons, IH. reflexivity.
Qed.

Lemma append_empty_r (s : string) : s +:+ EmptyString = s.
Proof.
  induction s as [|c s IH]; [reflexivity|]. rewrite append_cons, IH. reflexivity.
Qed.

Lemma fold_left_rows (employees : list EmployeeInfo) (result : string) :
  fold_left (fun result emp => result +:+ tableRow emp) employees result
  = result +:+ String.concat EmptyString (map tableRow employees).
Proof.
  revert result. induction employees as [|emp l IH]; intros result.
  - simpl. rewrite append_empty_r. reflexivity.
  - cbn [fold_left map]. rewrite IH. rewrite append_assoc. f_equal.
    destruct l as [|emp' l'].
    + simpl. rewrite append_empty_r. reflexivity.
    + reflexivity.
Qed.

(** C8.  On a non-empty list the table is the fixed header row, the
    separator row and one row per record in order; a row shows
    ["Deactivated"] and the date for a deactivated record, ["Active"] and
    an empty last cell for an active one. *)
Theorem table_layout (employees : list EmployeeInfo) :
  employees <> [] ->
  FormatAsMarkdownTable employees
  = (tableHeader +:+ tableSeparator
       +:+ String.concat EmptyString (map tableRow employees), None) /\
  tableHeader = "| Name | Title | Email | Status | Deactivation Date |" +:+ fmt.nl /\
  length (map tableRow employees) = length employees /\
  forall emp, In emp employees ->
    tableRow emp =
      "| " +:+ FirstName emp +:+ " " +:+ LastName emp +:+ " | " +:+ Title emp
        +:+ " | " +:+ Email emp +:+ " | "
        +:+ (if Deactivated emp then "Deactivated" else "Active") +:+ " | "
        +:+ (if Deactivated emp then DeactivatedDate emp else EmptyString)
        +:+ " |" +:+ fmt.nl.
Proof.
  intros Hne. split; [|split; [|split]].
  - unfold FormatAsMarkdownTable.
    destruct employees as [|emp l]; [contradiction|].
    cbn [length Nat.eqb]. rewrite fold_left_rows.
    change (EmptyString +:+ tableHeader) with tableHeader.
    rewrite append_assoc. reflexivity.
  - reflexivity.
  - apply length_map.
  - intros emp _. unfold tableRow.
    destruct (Deactivated emp); rewrite !append_assoc; reflexivity.
Qed.

Lemma table_layout_witness :
  FormatAsMarkdownTable
    [ {| FirstName := "Jane"; LastName := "Roe"; Email := "jane@example.com";
         Title := "Manager"; Deactivated := false; DeactivatedDate := EmptyString |} ]
  = ("| Name | Title | Email | Status | Deactivation Date |" +:+ fmt.nl +:+
     "|------|-------|-------|--------|------------------|" +:+ fmt.nl +:+
     "| Jane Roe | Manager | jane@example.com | Active |  |" +:+ fmt.nl, None).
Proof.
  refine (eq_trans (proj1 (table_layout _ _)) _).
  - discriminate.
  - reflexivity.
Defined.

(** ** The numeric limit *)

Lemma tryLimit_positive (text : string) (employees : list EmployeeInfo) :
  tryLimit text employees =
  match positive text with
  | Some L =>
      if (L <? Z.of_nat (length employees))%Z
      then Some (take (Z.to_nat L) employees) else None
  | None => None
  end.
Proof.
  unfold tryLimit, positive.
  destruct (strconv.Atoi text) as [num|]; [|reflexivity].
  destruct (0 <? num)%Z; reflexivity.
Qed.

Lemma find_option_list_app {A : Type} (p : A -> bool) (o : option A) (l : list A) :
  List.find p (option_list o ++ l) =
  match o with
  | Some x => if p x then Some x else List.find p l
  | None => List.find p l
  end.
Proof. destruct o; reflexivity. Qed.

(** What the loop does: the first pattern whose number is smaller than
    the length truncates, and ends the scan. *)
Lemma limitLoop_find (words : list string) (employees : list EmployeeInfo) :
  fst (limitLoop words employees) =
  match List.find (fun L => (L <? Z.of_nat (length employees))%Z) (limitCandidates words) with
  | Some L => take (Z.to_nat L) employees
  | None => employees
  end.
Proof.
  induction words as [|word rest IH]; [reflexivity|].
  cbn [limitLoop limitCandidates].
  fold (isLimitWord word).
  destruct rest as [|next rest'].
  - destruct (isLimitWord word); reflexivity.
  - fold (isEmployeeWord next).
    rewrite !tryLimit_positive, !find_option_list_app.
    destruct (isLimitWord word), (isEmployeeWord next);
      repeat match goal with
      | |- context [positive ?t] => destruct (positive t)
      | |- context [(?L <? ?n)%Z] => destruct (L <? n)%Z
      end; first [reflexivity | exact IH].
Qed.

Lemma positive_pos (text : string) (L : Z) : positive text = Some L -> (0 < L)%Z.
Proof.
  unfold positive. destruct (strconv.Atoi text) as [num|]; [|discriminate].
  destruct (0 <? num)%Z eqn:Hpos; [|discriminate].
  intros [= <-]. apply Z.ltb_lt. exact Hpos.
Qed.

Lemma limitCandidates_pos (words : list string) :
  Forall (fun L => (0 < L)%Z) (limitCandidates words).
Proof.
  induction words as [|word rest IH]; [constructor|].
  cbn [limitCandidates]. destruct rest as [|next rest'].
  - simpl. constructor.
  - apply Forall_app. split; [|apply Forall_app; split; [|exact IH]].
    + destruct (isLimitWord word); [|constructor].
      destruct (positive next) eqn:Hp; [|constructor].
      constructor; [|constructor]. eapply positive_pos; eassumption.
    + destruct (isEmployeeWord next); [|constructor].
      destruct (positive word) eqn:Hp; [|constructor].
      constructor; [|constructor]. eapply positive_pos; eassumption.
Qed.

Section Limit.
Context `{strings.Text}.

(** C4, as the code has it.  The tokens are scanned from left to right
    for the two patterns; the scan ends at the first pattern whose
    number [L] is smaller than the length of the result, which is then
    cut to its first [L] elements; a pattern whose number is not
    smaller changes nothing, and when there is no pattern with a
    smaller number the result is left as it is. *)
Theorem limit_first_applicable (query : string) (employees : list EmployeeInfo) :
  let candidates := limitCandidates (strings.Fields query) in
  match List.find (fun L => (L <? Z.of_nat (length employees))%Z) candidates with
  | Some L =>
      limitStage query employees = take (Z.to_nat L) employees /\
      (0 < L < Z.of_nat (length employees))%Z /\
      length (limitStage query employees) = Z.to_nat L /\
      limitStage query employees `prefix_of` employees
  | None => limitStage query employees = employees
  end.
Proof.
  intros candidates. unfold limitStage. rewrite limitLoop_find.
  fold candidates.
  destruct (List.find _ candidates) as [L|] eqn:Hfind; [|reflexivity].
  apply List.find_some in Hfind. destruct Hfind as [Hin Hlt].
  apply Z.ltb_lt in Hlt.
  assert (Hpos : (0 < L)%Z).
  { pose proof (limitCandidates_pos (strings.Fields query)) as Hall.
    rewrite List.Forall_forall in Hall. apply Hall. exact Hin. }
  split; [reflexivity|]. split; [lia|]. split.
  - rewrite length_take. lia.
  - apply prefix_take.
Qed.

End Limit.

(** C4, as stated, fails: in ["top 10 of 3 employees"] the first
    successful pattern is ["top 10"], and 10 is not smaller than the five
    records at hand, so the result should stay as it is; the scan goes on
    to ["3 employees"] and cuts the result to three. *)
Lemma limit_first_pattern_counterexample :
  limitCandidates (strings.Fields (Text := strings.ascii) "top 10 of 3 employees")
    = [10%Z; 3%Z] /\
  limitAsStated (strings.Fields (Text := strings.ascii) "top 10 of 3 employees")
    fiveEmployees = fiveEmployees /\
  limitStage (H := strings.ascii) "top 10 of 3 employees" fiveEmployees
    = take 3 fiveEmployees /\
  limitStage (H := strings.ascii) "top 10 of 3 employees" fiveEmployees
    <> limitAsStated (strings.Fields (Text := strings.ascii) "top 10 of 3 employees")
         fiveEmployees.
Proof.
  split; [reflexivity|]. split; [reflexivity|]. split; [reflexivity|].
  vm_compute. discriminate.
Qed.

(** ** The single-person lookup *)

Section Lookup.
Context `{strings.Text}.

Lemma findLoop_step (jq : JSONQ) (first last : string) (rest : list string) :
  findLoop jq (first :: last :: rest) =
  if (String.length first <? 3)%nat || (String.length last <? 3)%nat
  then findLoop jq (last :: rest)
  else match searchPair jq first last with
       | (_, Some _, jq) => findLoop jq (last :: rest)
       | ([], None, jq) => findLoop jq (last :: rest)
       | (emp :: _, None, _) => (narrative emp, None)
       end.
Proof. reflexivity. Qed.

Lemma searchPair_root (jq : JSONQ) (first last : string) :
  rootJSONContent (snd (searchPair jq first last)) = rootJSONContent jq.
Proof.
  unfold searchPair, json.Marshal, Get, prepare. simpl.
  destruct (json.Unmarshal _) as [employees err]. reflexivity.
Qed.

(** The search starts from a reset object: only the root document of
    [jq] matters. *)
Lemma searchPair_reset (jq jq' : JSONQ) (first last : string) :
  rootJSONContent jq = rootJSONContent jq' ->
  fst (searchPair jq first last) = fst (searchPair jq' first last).
Proof.
  intros Hroot. unfold searchPair, Reset. rewrite Hroot. reflexivity.
Qed.

Lemma findLoop_reset (words : list string) (jq jq' : JSONQ) :
  rootJSONContent jq = rootJSONContent jq' ->
  findLoop jq words = findLoop jq' words.
Proof.
  revert jq jq'. induction words as [|first rest IH]; intros jq jq' Hroot.
  - reflexivity.
  - destruct rest as [|last rest']; [reflexivity|].
    cbn [findLoop].
    destruct (_ || _); [apply IH; exact Hroot|].
    pose proof (searchPair_reset jq jq' first last Hroot) as Hfst.
    pose proof (searchPair_root jq first last) as Hr.
    pose proof (searchPair_root jq' first last) as Hr'.
    destruct (searchPair jq first last) as [[employees err] jq1].
    destruct (searchPair jq' first last) as [[employees' err'] jq1'].
    simpl in Hfst, Hr, Hr'. injection Hfst as <- <-.
    assert (Hroot1 : rootJSONContent jq1 = rootJSONContent jq1') by congruence.
    destruct employees as [|emp employees], err as [e|];
      try (apply IH; exact Hroot1).
    reflexivity.
Qed.

Lemma unmarshal_marshalEmployee (e : EmployeeInfo) saved :
  json.unmarshalEmployee (json.marshalEmployee e) saved = (e, saved).
Proof.
  unfold json.unmarshalEmployee, json.boolField, json.stringField,
    json.marshalEmployee.
  destruct e as [first last email title deactivated date]. simpl.
  destruct date; destruct saved; reflexivity.
Qed.

(** Decoding the file the directory tool wrote gives its records back. *)
Lemma unmarshalArray_MarshalEmployees (employees : list EmployeeInfo) saved :
  json.unmarshalArray (json.MarshalEmployees employees) saved = (employees, saved).
Proof.
  unfold json.MarshalEmployees.
  induction employees as [|e l IH]; simpl; [reflexivity|].
  rewrite unmarshal_marshalEmployee, IH. reflexivity.
Qed.

Lemma findInMap_pair (jq : JSONQ) (first last : string) (e : EmployeeInfo) :
  findInMap
    (OrWhere (OrWhere (Reset jq) "first_name" "contains" (JString first))
       "last_name" "contains" (JString last))
    (json.marshalEmployee e)
  = if pairMatches first last e then [json.marshalEmployee e] else [].
Proof.
  unfold findInMap, pairMatches. simpl.
  assert (Hf : json.marshalEmployee e !! "first_name" = Some (JString (FirstName e))).
  { unfold json.marshalEmployee. destruct (DeactivatedDate e); reflexivity. }
  assert (Hl : json.marshalEmployee e !! "last_name" = Some (JString (LastName e))).
  { unfold json.marshalEmployee. destruct (DeactivatedDate e); reflexivity. }
  rewrite Hf, Hl. simpl.
  destruct (strings.Contains (strings.ToLower (FirstName e)) (strings.ToLower first));
    destruct (strings.Contains (strings.ToLower (LastName e)) (strings.ToLower last));
    reflexivity.
Qed.

Lemma searchPair_well_formed (jq : JSONQ) (employees : list EmployeeInfo)
    (first last : string) :
  rootJSONContent jq = json.MarshalEmployees employees ->
  fst (searchPair jq first last) = (List.filter (pairMatches first last) employees, None).
Proof.
  intros Hroot. unfold searchPair, Get, prepare, json.Marshal. simpl.
  unfold findInArray. rewrite Hroot.
  assert (Hfound :
    flat_map
      (findInMap
         (OrWhere (OrWhere (Reset jq) "first_name" "contains" (JString first))
            "last_name" "contains" (JString last)))
      (json.MarshalEmployees employees)
    = json.MarshalEmployees (List.filter (pairMatches first last) employees)).
  { unfold json.MarshalEmployees. clear Hroot.
    induction employees as [|e l IH]; [reflexivity|].
    cbn [map flat_map List.filter]. rewrite findInMap_pair, IH.
    destruct (pairMatches first last e); reflexivity. }
  unfold processQuery. simpl.
  change (flat_map _ (json.MarshalEmployees employees))
    with (flat_map
      (findInMap
         (OrWhere (OrWhere (Reset jq) "first_name" "contains" (JString first))
            "last_name" "contains" (JString last)))
      (json.MarshalEmployees employees)).
  rewrite Hfound. unfold json.Unmarshal.
  rewrite unmarshalArray_MarshalEmployees. reflexivity.
Qed.

(** C5.  On the records the directory tool wrote, the lookup scans the
    adjacent pairs of words from left to right, passes over a pair with
    a word of less than three bytes, matches a record when its first
    name contains the first word or its last name contains the second
    (case ignored), stops at the first pair with a matching record and
    builds the narrative from the first matching record of that pair. *)
Theorem lookup_first_pair_first_record (jq : JSONQ)
    (employees : list EmployeeInfo) (query : string) :
  rootJSONContent jq = json.MarshalEmployees employees ->
  findSpecificEmployee jq query = lookupAsStated employees (strings.Fields query).
Proof.
  unfold findSpecificEmployee. generalize (strings.Fields query) as words.
  intros words. revert jq.
  induction words as [|first rest IH]; intros jq Hroot; [reflexivity|].
  destruct rest as [|last rest']; [reflexivity|].
  cbn [findLoop lookupAsStated].
  destruct (_ || _); [apply IH; exact Hroot|].
  pose proof (searchPair_well_formed jq employees first last Hroot) as Hfst.
  pose proof (searchPair_root jq first last) as Hr.
  destruct (searchPair jq first last) as [[found err] jq1].
  simpl in Hfst, Hr. injection Hfst as -> ->.
  destruct (List.filter (pairMatches first last) employees) as [|emp found].
  - apply IH. congruence.
  - reflexivity.
Qed.

Lemma pairSucceeds_reset (jq jq' : JSONQ) (first last : string) :
  rootJSONContent jq = rootJSONContent jq' ->
  pairSucceeds jq first last = pairSucceeds jq' first last.
Proof.
  intros Hroot. unfold pairSucceeds.
  pose proof (searchPair_reset jq jq' first last Hroot) as Hfst.
  destruct (searchPair jq first last) as [[employees err] jq1].
  destruct (searchPair jq' first last) as [[employees' err'] jq1'].
  simpl in Hfst. injection Hfst as <- <-. reflexivity.
Qed.

Lemma findLoop_exhausted (words : list string) (jq : JSONQ) :
  (forall i first last,
     words !! i = Some first -> words !! S i = Some last ->
     pairSucceeds jq first last = false) ->
  findLoop jq words = (notFound, None).
Proof.
  revert jq. induction words as [|first rest IH]; intros jq Hnone; [reflexivity|].
  destruct rest as [|last rest']; [reflexivity|].
  cbn [findLoop].
  assert (Hrest : forall jq', rootJSONContent jq' = rootJSONContent jq ->
            findLoop jq' (last :: rest') = (notFound, None)).
  { intros jq' Hroot. apply IH. intros i w1 w2 H1 H2.
    rewrite (pairSucceeds_reset jq' jq w1 w2 Hroot).
    apply (Hnone (S i)); assumption. }
  pose proof (Hnone 0 first last eq_refl eq_refl) as Hpair.
  unfold pairSucceeds in Hpair.
  destruct (_ || _); [apply Hrest; reflexivity|].
  pose proof (searchPair_root jq first last) as Hr.
  destruct (searchPair jq first last) as [[employees err] jq1].
  simpl in Hpair, Hr.
  destruct employees as [|emp employees], err as [e|];
    try (apply Hrest; exact Hr).
  discriminate.
Qed.

Lemma findLoop_no_error (words : list string) (jq : JSONQ) :
  snd (findLoop jq words) = None.
Proof.
  revert jq. induction words as [|first rest IH]; intros jq; [reflexivity|].
  destruct rest as [|last rest']; [reflexivity|].
  cbn [findLoop].
  destruct (_ || _); [apply IH|].
  destruct (searchPair jq first last) as [[employees err] jq1].
  destruct employees as [|emp employees], err as [e|]; try apply IH.
  reflexivity.
Qed.

(** C9.  When the records found for a pair of words do not decode, the
    pair is passed over and the scan goes on with the next pair; when no
    pair gives a narrative the lookup returns the fixed message; in no
    case does the lookup return an error. *)
Theorem lookup_skips_and_never_fails (jq : JSONQ) :
  (forall first last rest err,
     (String.length first <? 3)%nat || (String.length last <? 3)%nat = false ->
     snd (fst (searchPair jq first last)) = Some err ->
     findLoop jq (first :: last :: rest) = findLoop jq (last :: rest)) /\
  (forall query,
     (forall i first last,
        strings.Fields query !! i = Some first ->
        strings.Fields query !! S i = Some last ->
        pairSucceeds jq first last = false) ->
     findSpecificEmployee jq query = (notFound, None)) /\
  (forall query, snd (findSpecificEmployee jq query) = None).
Proof.
  split; [|split].
  - intros first last rest err Hlen Herr. rewrite findLoop_step, Hlen.
    pose proof (searchPair_root jq first last) as Hr.
    destruct (searchPair jq first last) as [[employees e] jq1].
    simpl in Herr, Hr. subst e.
    destruct employees; apply findLoop_reset; exact Hr.
  - intros query Hnone. apply findLoop_exhausted. exact Hnone.
  - intros query. apply findLoop_no_error.
Qed.

Lemma statusFilter_root (jq : JSONQ) (query : string) :
  rootJSONContent (statusFilter jq query) = rootJSONContent jq.
Proof.
  unfold statusFilter.
  destruct (_ || _); [reflexivity|]. destruct (_ && _); reflexivity.
Qed.

Lemma filterStage_root (jsonData : list object) (query : string) :
  rootJSONContent (filterStage jsonData query) = jsonData.
Proof. unfold filterStage. simpl. rewrite statusFilter_root. reflexivity. Qed.

End Lookup.

Lemma lookup_first_pair_first_record_witness :
  findSpecificEmployee (H := strings.ascii)
    (FromString (json.MarshalEmployees [john; jane])) "who is jane doe"
  = (narrative john, None).
Proof.
  refine (eq_trans
    (lookup_first_pair_first_record (H := strings.ascii) _ [john; jane] _ _) _).
  - reflexivity.
  - reflexivity.
Defined.

Lemma lookup_skips_and_never_fails_witness :
  findLoop (H := strings.ascii) (FromString [misshaped; json.marshalEmployee jane])
    ["xxx"; "doe"; "jane"; "roe"]
  = findLoop (H := strings.ascii) (FromString [misshaped; json.marshalEmployee jane])
      ["doe"; "jane"; "roe"] /\
  findSpecificEmployee (H := strings.ascii)
    (FromString [json.marshalEmployee jane]) "who is john doe" = (notFound, None).
Proof.
  split.
  - refine (proj1 (lookup_skips_and_never_fails (H := strings.ascii) _)
              "xxx" "doe" _
              {| json.Value := "number"; json.Type_ := "string";
                 json.Field := "first_name" |} _ _).
    + reflexivity.
    + vm_compute. reflexivity.
  - apply (proj1 (proj2 (lookup_skips_and_never_fails (H := strings.ascii) _))).
    intros i first last H1 H2.
    destruct i as [|[|[|[|i]]]]; simpl in H1, H2;
      try discriminate; injection H1 as <-; injection H2 as <-;
      vm_compute; reflexivity.
Defined.

(** C10.  When the query is a lookup, [ProcessQuery] answers with the
    lookup run on the whole document: the status filter set from the
    text is dropped by the reset before each search.  So the narrative of
    ["when was John Doe deactivated"] reports an active John Doe, though
    the text selects the deactivated records and the filter alone keeps
    none. *)
Theorem lookup_discards_status_filter :
  (forall (T : strings.Text) (R : sort.Random) (jsonData : list object) (text : string),
     isSpecificEmployeeSearch (strings.ToLower text) = true ->
     ProcessQuery jsonData text
     = findSpecificEmployee (FromString jsonData) (strings.ToLower text)) /\
  (forall (T : strings.Text) (jq : JSONQ) (query : string),
     findSpecificEmployee (statusFilter jq query) query
     = findSpecificEmployee (FromString (rootJSONContent jq)) query) /\
  (forall (R : sort.Random),
     let text := "when was John Doe deactivated" in
     let query := strings.ToLower (Text := strings.ascii) text in
     let jsonData := json.MarshalEmployees [john] in
     selectedFilter query = DEACTIVATED /\
     fst (Get (H := strings.ascii) (filterStage (H := strings.ascii) jsonData query)) = [] /\
     ProcessQuery (H := strings.ascii) jsonData text = (narrative john, None) /\
     Deactivated john = false).
Proof.
  split; [|split].
  - intros T R jsonData text Hlookup. unfold ProcessQuery. rewrite Hlookup.
    apply findLoop_reset. apply filterStage_root.
  - intros T jq query. apply findLoop_reset. rewrite statusFilter_root. reflexivity.
  - intros R. repeat split.
Qed.

Lemma lookup_discards_status_filter_witness :
  ProcessQuery (H := strings.ascii) (H0 := sort.xorshift)
    (json.MarshalEmployees [john; jane]) "who is Jane Roe, is she active?"
  = (narrative jane, None).
Proof.
  refine (eq_trans
    (proj1 lookup_discards_status_filter strings.ascii sort.xorshift _ _ _) _).
  - reflexivity.
  - reflexivity.
Defined.

(** ** [sort.Slice]: swaps, ranges and order *)

Import SortSpec.

Section SortBasics.
Context {A : Type}.
Implicit Types (data : list A) (a b i j k : nat).

Lemma Swap_length data i j : length (sort.Swap data i j) = length data.
Proof.
  unfold sort.Swap. destruct (data !! i), (data !! j); try reflexivity.
  rewrite !length_insert. reflexivity.
Qed.

Lemma Swap_lookup data i j k :
  i < length data -> j < length data ->
  sort.Swap data i j !! k =
    if decide (k = j) then data !! i
    else if decide (k = i) then data !! j else data !! k.
Proof.
  intros Hi Hj. unfold sort.Swap.
  destruct (lookup_lt_is_Some_2 data i Hi) as [x Hx].
  destruct (lookup_lt_is_Some_2 data j Hj) as [y Hy].
  rewrite Hx, Hy.
  destruct (decide (k = j)) as [->|Hkj].
  - rewrite list_lookup_insert_eq; [reflexivity|]. rewrite length_insert. exact Hj.
  - rewrite list_lookup_insert_ne by congruence.
    destruct (decide (k = i)) as [->|Hki].
    + rewrite list_lookup_insert_eq by exact Hi. reflexivity.
    + rewrite list_lookup_insert_ne by congruence. reflexivity.
Qed.

Lemma Swap_perm data i j : sort.Swap data i j ≡ₚ data.
Proof.
  unfold sort.Swap.
  destruct (data !! i) as [x|] eqn:Hx; [|reflexivity].
  destruct (data !! j) as [y|] eqn:Hy; [|reflexivity].
  apply Permutation_insert_swap; assumption.
Qed.

Lemma Swap_same data i : sort.Swap data i i = data.
Proof.
  unfold sort.Swap. destruct (data !! i) as [x|] eqn:Hx; [|reflexivity].
  rewrite list_insert_insert_eq. apply list_insert_id. exact Hx.
Qed.

Lemma range_perm_refl a b data : range_perm a b data data.
Proof. split; [reflexivity|]. intros; reflexivity. Qed.

Lemma range_perm_trans a b data1 data2 data3 :
  range_perm a b data1 data2 -> range_perm a b data2 data3 ->
  range_perm a b data1 data3.
Proof.
  intros [Hp1 Ho1] [Hp2 Ho2]. split.
  - rewrite Hp2. exact Hp1.
  - intros k Hk. rewrite Ho2, Ho1 by exact Hk. reflexivity.
Qed.

Lemma range_perm_widen a b a' b' data data' :
  a' <= a -> b <= b' -> range_perm a b data data' -> range_perm a' b' data data'.
Proof.
  intros Ha Hb [Hp Ho]. split; [exact Hp|].
  intros k Hk. apply Ho. lia.
Qed.

Lemma range_perm_length a b data data' :
  range_perm a b data data' -> length data' = length data.
Proof. intros [Hp _]. apply Permutation_length. exact Hp. Qed.

Lemma range_perm_Swap a b data i j :
  a <= i -> i < b -> a <= j -> j < b ->
  range_perm a b data (sort.Swap data i j).
Proof.
  intros Hai Hib Haj Hjb. split; [apply Swap_perm|].
  intros k Hk. unfold sort.Swap.
  destruct (data !! i) as [x|] eqn:Hx; [|reflexivity].
  destruct (data !! j) as [y|] eqn:Hy; [|reflexivity].
  rewrite !list_lookup_insert_ne by lia. reflexivity.
Qed.

(** The slice [data[a:b]]. *)
Lemma lookup_slice data a b k :
  k < b - a -> take (b - a) (drop a data) !! k = data !! (a + k).
Proof.
  intros Hk. rewrite lookup_take_lt by exact Hk. apply lookup_drop.
Qed.

Lemma split_slice data a b :
  a <= b ->
  data = take a data ++ take (b - a) (drop a data) ++ drop b data.
Proof.
  intros Hab.
  rewrite <- (take_drop a data) at 1. f_equal.
  rewrite <- (take_drop (b - a) (drop a data)) at 1. f_equal.
  rewrite drop_drop. f_equal. lia.
Qed.

Lemma range_perm_slice a b data data' :
  a <= b -> range_perm a b data data' ->
  take (b - a) (drop a data') ≡ₚ take (b - a) (drop a data).
Proof.
  intros Hab [Hp Ho].
  assert (Hlen : length data' = length data) by (apply Permutation_length; exact Hp).
  assert (Htake : take a data' = take a data).
  { apply list_eq. intros k. destruct (decide (k < a)).
    - rewrite !lookup_take_lt by assumption. apply Ho. lia.
    - rewrite !lookup_take_ge by lia. reflexivity. }
  assert (Hdrop : drop b data' = drop b data).
  { apply list_eq. intros k. rewrite !lookup_drop. apply Ho. lia. }
  apply Permutation_app_inv_r with (l := drop b data).
  apply Permutation_app_inv_l with (l := take a data).
  rewrite <- (split_slice data a b Hab).
  rewrite <- Htake, <- Hdrop, <- (split_slice data' a b Hab).
  exact Hp.
Qed.

Lemma all_in_slice a b data (P : A -> Prop) :
  all_in a b data P <-> Forall P (take (b - a) (drop a data)).
Proof.
  rewrite Forall_lookup. split.
  - intros Hall k x Hk.
    assert (Hlt : k < b - a).
    { apply lookup_lt_Some in Hk. rewrite length_take in Hk. lia. }
    rewrite lookup_slice in Hk by exact Hlt.
    apply (Hall (a + k) x); [lia|lia|exact Hk].
  - intros Hall k x Hak Hkb Hk.
    apply (Hall (k - a) x). rewrite lookup_slice by lia.
    replace (a + (k - a)) with k by lia. exact Hk.
Qed.

Lemma range_perm_all_in a b data data' (P : A -> Prop) :
  a <= b -> range_perm a b data data' -> all_in a b data P -> all_in a b data' P.
Proof.
  intros Hab Hrp. rewrite !all_in_slice.
  rewrite (range_perm_slice a b data data' Hab Hrp). tauto.
Qed.

Lemma all_in_outside a b a' b' data data' (P : A -> Prop) :
  (b <= a' \/ b' <= a) -> range_perm a' b' data data' ->
  all_in a b data P -> all_in a b data' P.
Proof.
  intros Hdisj [_ Ho] Hall k x Hak Hkb Hk.
  apply (Hall k x Hak Hkb). rewrite <- Ho by lia. exact Hk.
Qed.

Lemma all_in_narrow a b a' b' data (P : A -> Prop) :
  a <= a' -> b' <= b -> all_in a b data P -> all_in a' b' data P.
Proof. intros Ha Hb Hall k x Hak Hkb. apply Hall; lia. Qed.

Lemma all_in_impl a b data (P Q : A -> Prop) :
  (forall x, P x -> Q x) -> all_in a b data P -> all_in a b data Q.
Proof. intros HPQ Hall k x Hak Hkb Hk. apply HPQ. eapply Hall; eassumption. Qed.

End SortBasics.

(** ** [sort.Slice]: the comparisons and the insertion sort *)

Section SortOrder.
Context {A : Type} (less : A -> A -> bool) `{!StrictWeak less}.
Implicit Types (data : list A) (a b i j k : nat) (x y z : A).

Lemma less_irrefl x : less x x = false.
Proof.
  destruct (less x x) eqn:Hx; [|reflexivity].
  rewrite (less_asym less x x Hx) in Hx. discriminate.
Qed.

Lemma less_le_refl x : le less x x.
Proof. apply less_irrefl. Qed.

Lemma less_lt_le x y : less x y = true -> le less x y.
Proof. intros Hxy. exact (less_asym less x y Hxy). Qed.

Lemma less_le_total x y : le less x y \/ le less y x.
Proof.
  unfold le. destruct (less y x) eqn:Hyx; [|left; reflexivity].
  right. exact (less_asym less y x Hyx).
Qed.

Lemma less_le_trans x y z : le less x y -> le less y z -> le less x z.
Proof.
  unfold le. intros Hxy Hyz.
  destruct (less z x) eqn:Hzx; [|reflexivity].
  destruct (less_cotrans less z y x Hzx) as [H|H]; congruence.
Qed.

Lemma less_lt_le_trans x y z : less x y = true -> le less y z -> less x z = true.
Proof.
  unfold le. intros Hxy Hyz.
  destruct (less_cotrans less x z y Hxy) as [H|H]; congruence.
Qed.

Lemma less_le_lt_trans x y z : le less x y -> less y z = true -> less x z = true.
Proof.
  unfold le. intros Hxy Hyz.
  destruct (less_cotrans less y x z Hyz) as [H|H]; congruence.
Qed.

Lemma less_not_lt_le x y : less x y = false -> le less y x.
Proof. intros H. exact H. Qed.

Lemma Less_lookup data i j x y :
  data !! i = Some x -> data !! j = Some y ->
  sort.Less less data i j = less x y.
Proof. intros Hx Hy. unfold sort.Less. rewrite Hx, Hy. reflexivity. Qed.

Lemma sorted_in_adj a b data : sorted_in less a b data -> adj_sorted less a b data.
Proof.
  intros Hs k x y Hak Hkb Hx Hy. apply (Hs k (S k) x y); auto with lia.
Qed.

Lemma adj_sorted_in a b data :
  b <= length data -> adj_sorted less a b data -> sorted_in less a b data.
Proof.
  intros Hlen Hadj i j x y Hai Hij Hjb Hx Hy.
  revert y Hjb Hy. induction Hij as [|j Hij IH]; intros y Hjb Hy.
  - apply (Hadj i x y); assumption.
  - destruct (lookup_lt_is_Some_2 data j) as [z Hz]; [lia|].
    apply (less_le_trans x z y).
    + apply IH; [lia|exact Hz].
    + apply (Hadj j z y); [lia|lia|exact Hz|exact Hy].
Qed.

Lemma sorted_in_narrow a b a' b' data :
  a <= a' -> b' <= b -> sorted_in less a b data -> sorted_in less a' b' data.
Proof. intros Ha Hb Hs i j x y Hai Hij Hjb. apply Hs; lia. Qed.

Lemma sorted_in_outside a b a' b' data data' :
  (b <= a' \/ b' <= a) -> range_perm a' b' data data' ->
  sorted_in less a b data -> sorted_in less a b data'.
Proof.
  intros Hdisj [_ Ho] Hs i j x y Hai Hij Hjb Hx Hy.
  apply (Hs i j x y Hai Hij Hjb); rewrite <- Ho by lia; assumption.
Qed.

(** *** [insertionSort_func] *)

Lemma insertDown_spec a b (j : nat) :
  forall data,
    a <= j -> j < b -> b <= length data ->
    adj_except less a b j data -> bridge less a b j data ->
    range_perm a b data (sort.insertDown less a j data) /\
    adj_sorted less a b (sort.insertDown less a j data).
Proof.
  induction j as [|j' IH]; intros data Haj Hjb Hlen Hadj Hbr.
  - split; [apply range_perm_refl|].
    intros k x y Hak Hkb. apply Hadj; lia.
  - cbn [sort.insertDown].
    destruct (lookup_lt_is_Some_2 data (S j')) as [x Hx]; [lia|].
    destruct (lookup_lt_is_Some_2 data j') as [y Hy]; [lia|].
    rewrite (Less_lookup data (S j') j' x y Hx Hy).
    destruct (a <? S j')%nat eqn:Ha; cbn [andb].
    + apply Nat.ltb_lt in Ha.
      destruct (less x y) eqn:Hxy.
      * assert (Hsw : forall k, sort.Swap data (S j') j' !! k =
                  if decide (k = j') then Some x
                  else if decide (k = S j') then Some y else data !! k).
        { intros k. rewrite Swap_lookup by lia. rewrite Hx, Hy. reflexivity. }
        destruct (IH (sort.Swap data (S j') j')) as [Hrp Hs].
        -- lia.
        -- lia.
        -- rewrite Swap_length. exact Hlen.
        -- intros k u v Hak Hkb Hne. rewrite !Hsw.
           repeat case_decide; try lia; intros Hu Hv; simplify_eq.
           ++ apply less_lt_le. exact Hxy.
           ++ apply (Hbr j' u v); auto with lia.
           ++ apply (Hadj k u v); auto with lia.
        -- intros i u v Hi Ha' Hb'. rewrite !Hsw.
           repeat case_decide; try lia; intros Hu Hv; simplify_eq.
           apply (Hadj i u v); auto with lia.
        -- split; [|exact Hs].
           eapply range_perm_trans; [|exact Hrp].
           apply range_perm_Swap; lia.
      * split; [apply range_perm_refl|].
        intros k u v Hak Hkb Hu Hv.
        destruct (decide (S k = S j')) as [Hk|Hk].
        -- simplify_eq. exact Hxy.
        -- apply (Hadj k u v); assumption.
    + apply Nat.ltb_ge in Ha.
      split; [apply range_perm_refl|].
      intros k u v Hak Hkb. apply Hadj; lia.
Qed.

Lemma insertionLoop_spec a b (n : nat) :
  forall i data,
    a < i -> i + n = b -> b <= length data ->
    adj_sorted less a i data ->
    range_perm a b data (sort.insertionLoop less a n i data) /\
    adj_sorted less a b (sort.insertionLoop less a n i data).
Proof.
  induction n as [|n IH]; intros i data Hai Hin Hlen Hs.
  - replace b with i by lia. split; [apply range_perm_refl|exact Hs].
  - cbn [sort.insertionLoop].
    destruct (insertDown_spec a (S i) i data) as [Hrp Hs1]; try lia.
    + intros k x y Hak Hkb Hne. apply Hs; lia.
    + intros k x y Hk Ha' Hb'. lia.
    + destruct (IH (S i) (sort.insertDown less a i data)) as [Hrp2 Hs2]; try lia.
      * rewrite (range_perm_length _ _ _ _ Hrp). exact Hlen.
      * exact Hs1.
      * split; [|exact Hs2].
        eapply range_perm_trans; [|exact Hrp2].
        eapply range_perm_widen; [| |exact Hrp]; lia.
Qed.

Lemma insertionSort_spec data a b :
  a <= b -> b <= length data ->
  range_perm a b data (sort.insertionSort_func less data a b) /\
  sorted_in less a b (sort.insertionSort_func less data a b).
Proof.
  intros Hab Hlen. unfold sort.insertionSort_func.
  destruct (decide (b <= a + 1)) as [Hsmall|Hbig].
  - replace (b - (a + 1)) with 0 by lia. cbn [sort.insertionLoop].
    split; [apply range_perm_refl|].
    intros i j x y Hai Hij Hjb. lia.
  - destruct (insertionLoop_spec a b (b - (a + 1)) (a + 1) data) as [Hrp Hs];
      try lia.
    + intros k x y Hak Hkb. lia.
    + split; [exact Hrp|]. apply adj_sorted_in; [|exact Hs].
      rewrite (range_perm_length _ _ _ _ Hrp). exact Hlen.
Qed.

End SortOrder.

(** ** [sort.Slice]: the partitions *)

Section SortPartition.
Context {A : Type} (less : A -> A -> bool).
Implicit Types (data : list A) (a b i j k : nat) (x y z : A) (q : A -> bool).

Lemma scanUp_spec (p : nat -> bool) j (fuel : nat) :
  forall i, i <= S j -> S j - i <= fuel ->
    i <= sort.scanUp p j fuel i /\ sort.scanUp p j fuel i <= S j /\
    (forall k, i <= k -> k < sort.scanUp p j fuel i -> p k = true) /\
    (sort.scanUp p j fuel i <= j -> p (sort.scanUp p j fuel i) = false).
Proof.
  induction fuel as [|fuel IH]; intros i Hi Hfuel.
  - cbn [sort.scanUp]. repeat split; try lia.
  - cbn [sort.scanUp]. destruct (i <=? j)%nat eqn:Hij; cbn [andb].
    + apply Nat.leb_le in Hij. destruct (p i) eqn:Hp.
      * destruct (IH (S i)) as (H1 & H2 & H3 & H4); try lia.
        repeat split; try lia; [|exact H4].
        intros k Hk1 Hk2. destruct (decide (k = i)) as [->|Hne]; [exact Hp|].
        apply H3; lia.
      * repeat split; try lia. intros _. exact Hp.
    + apply Nat.leb_gt in Hij. repeat split; try lia.
Qed.

Lemma scanDown_spec (p : nat -> bool) i (fuel : nat) :
  1 <= i ->
  forall j, i <= S j -> S j - i <= fuel ->
    sort.scanDown p i fuel j <= j /\ i <= S (sort.scanDown p i fuel j) /\
    (forall k, sort.scanDown p i fuel j < k -> k <= j -> p k = true) /\
    (i <= sort.scanDown p i fuel j -> p (sort.scanDown p i fuel j) = false).
Proof.
  intros Hi1. induction fuel as [|fuel IH]; intros j Hi Hfuel.
  - cbn [sort.scanDown]. repeat split; try lia.
  - cbn [sort.scanDown]. destruct (i <=? j)%nat eqn:Hij; cbn [andb].
    + apply Nat.leb_le in Hij. destruct (p j) eqn:Hp.
      * destruct (IH (j - 1)) as (H1 & H2 & H3 & H4); try lia.
        repeat split; try lia; [|exact H4].
        intros k Hk1 Hk2. destruct (decide (k = j)) as [->|Hne]; [exact Hp|].
        apply H3; lia.
      * repeat split; try lia. intros _. exact Hp.
    + apply Nat.leb_gt in Hij. repeat split; try lia.
Qed.

(** The scans stop on their own: more fuel gives the same index. *)
Lemma scanUp_fuel (p : nat -> bool) j (fuel : nat) :
  forall (fuel' : nat) i,
    S j - i <= fuel -> S j - i <= fuel' ->
    sort.scanUp p j fuel i = sort.scanUp p j fuel' i.
Proof.
  induction fuel as [|fuel IH]; intros fuel' i Hfuel Hfuel'.
  - destruct fuel' as [|fuel']; [reflexivity|]. cbn [sort.scanUp].
    destruct (i <=? j)%nat eqn:Hij; [|reflexivity].
    apply Nat.leb_le in Hij. lia.
  - destruct fuel' as [|fuel']; cbn [sort.scanUp];
      (destruct (i <=? j)%nat eqn:Hij; [|reflexivity]);
      apply Nat.leb_le in Hij; [lia|].
    cbn [andb]. destruct (p i); [|reflexivity]. apply IH; lia.
Qed.

Lemma scanDown_fuel (p : nat -> bool) i (fuel : nat) :
  1 <= i ->
  forall (fuel' : nat) j,
    S j - i <= fuel -> S j - i <= fuel' ->
    sort.scanDown p i fuel j = sort.scanDown p i fuel' j.
Proof.
  intros Hi. induction fuel as [|fuel IH]; intros fuel' j Hfuel Hfuel'.
  - destruct fuel' as [|fuel']; [reflexivity|]. cbn [sort.scanDown].
    destruct (i <=? j)%nat eqn:Hij; [|reflexivity].
    apply Nat.leb_le in Hij. lia.
  - destruct fuel' as [|fuel']; cbn [sort.scanDown];
      (destruct (i <=? j)%nat eqn:Hij; [|reflexivity]);
      apply Nat.leb_le in Hij; [lia|].
    cbn [andb]. destruct (p j); [|reflexivity]. apply IH; lia.
Qed.

(** One turn of a partition loop: [q] tells the elements that belong to
    the left; [up] and [down] are the two tests of the scan. *)
Lemma partition_step q (up down : nat -> bool) data a b i j :
  a < i -> i <= S j -> j < b -> b <= length data ->
  (forall k x, data !! k = Some x -> up k = q x) ->
  (forall k x, data !! k = Some x -> down k = negb (q x)) ->
  all_in (S a) i data (fun x => q x = true) ->
  all_in (S j) b data (fun x => q x = false) ->
  let i' := sort.scanUp up j (length data) i in
  let j' := sort.scanDown down i' (length data) j in
  i <= i' /\ j' <= j /\ i' <= S j' /\
  all_in (S a) i' data (fun x => q x = true) /\
  all_in (S j') b data (fun x => q x = false) /\
  (i' <= j' ->
   i' < j' /\
   all_in (S a) (S i') (sort.Swap data i' j') (fun x => q x = true) /\
   all_in j' b (sort.Swap data i' j') (fun x => q x = false)).
Proof.
  intros Hai Hij Hjb Hlen Hup Hdown Hleft Hright i' j'.
  destruct (scanUp_spec up j (length data) i) as (U1 & U2 & U3 & U4); try lia.
  fold i' in U1, U2, U3, U4.
  destruct (scanDown_spec down i' (length data)) with (j := j)
    as (D1 & D2 & D3 & D4); try lia.
  fold j' in D1, D2, D3, D4.
  assert (Hl' : all_in (S a) i' data (fun x => q x = true)).
  { intros k x Hk1 Hk2 Hx. destruct (decide (k < i)) as [Hlt|Hge].
    - apply (Hleft k x); auto with lia.
    - rewrite <- (Hup k x Hx). apply U3; lia. }
  assert (Hr' : all_in (S j') b data (fun x => q x = false)).
  { intros k x Hk1 Hk2 Hx. destruct (decide (j < k)) as [Hlt|Hge].
    - apply (Hright k x); auto with lia.
    - apply negb_true_iff. rewrite <- (Hdown k x Hx). apply D3; lia. }
  split; [lia|]. split; [lia|]. split; [lia|].
  split; [exact Hl'|]. split; [exact Hr'|].
  intros Hle.
  destruct (lookup_lt_is_Some_2 data i') as [x Hx]; [lia|].
  destruct (lookup_lt_is_Some_2 data j') as [y Hy]; [lia|].
  pose proof (U4 ltac:(lia)) as Hqx. rewrite (Hup i' x Hx) in Hqx.
  pose proof (D4 Hle) as Hqy. rewrite (Hdown j' y Hy) in Hqy.
  apply negb_false_iff in Hqy.
  assert (Hlt : i' < j').
  { destruct (decide (i' = j')) as [Heq|Hne]; [|lia].
    rewrite Heq, Hy in Hx. simplify_eq. congruence. }
  split; [exact Hlt|]. split.
  - intros k z Hk1 Hk2.
    rewrite Swap_lookup by lia.
    repeat case_decide; intros Hz; simplify_eq; try lia;
      first [exact Hqy | apply (Hl' k z); [lia|lia|exact Hz]].
  - intros k z Hk1 Hk2.
    rewrite Swap_lookup by lia.
    repeat case_decide; intros Hz; simplify_eq; try lia;
      first [exact Hqx | apply (Hr' k z); [lia|lia|exact Hz]].
Qed.

(** *** [partition_func] *)

Lemma partitionLoop_spec a b (p : A) (fuel : nat) :
  forall data i j,
    a < i -> i <= S j -> j < b -> b <= length data -> S j - i <= fuel ->
    data !! a = Some p ->
    all_in (S a) i data (fun x => less x p = true) ->
    all_in (S j) b data (fun x => less x p = false) ->
    range_perm (S a) b data (sort.partitionLoop less fuel data a i j).1 /\
    (sort.partitionLoop less fuel data a i j).1 !! a = Some p /\
    a <= (sort.partitionLoop less fuel data a i j).2 /\
    (sort.partitionLoop less fuel data a i j).2 < b /\
    all_in (S a) (S (sort.partitionLoop less fuel data a i j).2)
      (sort.partitionLoop less fuel data a i j).1 (fun x => less x p = true) /\
    all_in (S (sort.partitionLoop less fuel data a i j).2) b
      (sort.partitionLoop less fuel data a i j).1 (fun x => less x p = false).
Proof.
  induction fuel as [|fuel IH]; intros data i j Hai Hij Hjb Hlen Hfuel Hp Hl Hr.
  - cbn [sort.partitionLoop fst snd].
    assert (i = S j) as -> by lia.
    split; [apply range_perm_refl|]. repeat split; try assumption; lia.
  - cbn [sort.partitionLoop].
    pose proof (partition_step (fun x => less x p)
      (fun i => sort.Less less data i a)
      (fun j => negb (sort.Less less data j a)) data a b i j Hai Hij Hjb Hlen) as Hstep.
    cbv zeta in Hstep.
    destruct Hstep as (S1 & S2 & S3 & S4 & S5 & S6); try assumption.
    { intros k x Hx. apply Less_lookup; assumption. }
    { intros k x Hx. f_equal. apply Less_lookup; assumption. }
    set (i' := sort.scanUp _ j (length data) i) in *.
    set (j' := sort.scanDown _ i' (length data) j) in *.
    destruct (j' <? i')%nat eqn:Hji.
    + apply Nat.ltb_lt in Hji. cbn [fst snd].
      assert (i' = S j') as Heq by lia.
      split; [apply range_perm_refl|]. rewrite Heq in S4.
      repeat split; try assumption; lia.
    + apply Nat.ltb_ge in Hji. destruct (S6 Hji) as (T1 & T2 & T3).
      destruct (IH (sort.Swap data i' j') (S i') (j' - 1))
        as (R1 & R2 & R3 & R4 & R5 & R6); try lia.
      * rewrite Swap_length. exact Hlen.
      * rewrite Swap_lookup by lia. repeat case_decide; try lia. exact Hp.
      * exact T2.
      * replace (S (j' - 1)) with j' by lia. exact T3.
      * split; [|repeat split; assumption].
        eapply range_perm_trans; [|exact R1].
        apply range_perm_Swap; lia.
Qed.

(** The loop of [partition_func] stops on its own: more fuel gives the
    same slice and the same index. *)
Lemma partitionLoop_fuel a (fuel : nat) :
  forall (fuel' : nat) data i j,
    1 <= i -> i <= S j -> j < length data ->
    S j - i <= fuel -> S j - i <= fuel' ->
    sort.partitionLoop less fuel data a i j = sort.partitionLoop less fuel' data a i j.
Proof.
  assert (Hstep : forall data i j,
            1 <= i -> i <= S j -> j < length data ->
            let i' := sort.scanUp (fun i => sort.Less less data i a) j (length data) i in
            let j' := sort.scanDown (fun j => negb (sort.Less less data j a)) i'
                        (length data) j in
            i <= i' /\ j' <= j /\ i' <= S j' /\ (i' <= j' -> i' < j')).
  { intros data i j Hi Hij Hj i' j'.
    destruct (scanUp_spec (fun i => sort.Less less data i a) j (length data) i)
      as (U1 & U2 & _ & U4); try lia.
    fold i' in U1, U2, U4.
    destruct (scanDown_spec (fun j => negb (sort.Less less data j a)) i' (length data))
      with (j := j) as (D1 & D2 & _ & D4); try lia.
    fold j' in D1, D2, D4.
    repeat split; try lia. intros Hle.
    destruct (decide (i' = j')) as [Heq|Hne]; [|lia].
    pose proof (U4 ltac:(lia)) as Hu. pose proof (D4 Hle) as Hd.
    cbn beta in Hu, Hd. rewrite <- Heq in Hd. rewrite Hu in Hd. discriminate. }
  induction fuel as [|fuel IH]; intros fuel' data i j Hi Hij Hj Hfuel Hfuel'.
  - destruct fuel' as [|fuel']; [reflexivity|]. cbn [sort.partitionLoop].
    destruct (Hstep data i j Hi Hij Hj) as (S1 & S2 & S3 & S4).
    destruct (_ <? _)%nat eqn:Hji.
    + f_equal. apply Nat.ltb_lt in Hji. lia.
    + apply Nat.ltb_ge in Hji. specialize (S4 Hji). lia.
  - destruct fuel' as [|fuel']; cbn [sort.partitionLoop];
      destruct (Hstep data i j Hi Hij Hj) as (S1 & S2 & S3 & S4);
      destruct (_ <? _)%nat eqn:Hji; try reflexivity.
    + f_equal. apply Nat.ltb_lt in Hji. lia.
    + apply Nat.ltb_ge in Hji. specialize (S4 Hji). lia.
    + apply Nat.ltb_ge in Hji. specialize (S4 Hji).
      apply IH; try lia. rewrite Swap_length. lia.
Qed.

(** The last swap of a partition: the pivot goes between the two sides. *)
Lemma partition_finish q a b (p : A) data j :
  a <= j -> j < b -> b <= length data ->
  data !! a = Some p ->
  all_in (S a) (S j) data (fun x => q x = true) ->
  all_in (S j) b data (fun x => q x = false) ->
  range_perm a b data (sort.Swap data j a) /\
  sort.Swap data j a !! j = Some p /\
  all_in a j (sort.Swap data j a) (fun x => q x = true) /\
  all_in (S j) b (sort.Swap data j a) (fun x => q x = false).
Proof.
  intros Haj Hjb Hlen Hp Hl Hr.
  split; [apply range_perm_Swap; lia|].
  split; [|split].
  - rewrite Swap_lookup by lia. repeat case_decide; subst; try lia; exact Hp.
  - intros k x Hk1 Hk2. rewrite Swap_lookup by lia.
    repeat case_decide; try lia; intros Hx.
    + apply (Hl j x); [lia|lia|exact Hx].
    + apply (Hl k x); [lia|lia|exact Hx].
  - intros k x Hk1 Hk2. rewrite Swap_lookup by lia.
    repeat case_decide; try lia; intros Hx.
    apply (Hr k x); [lia|lia|exact Hx].
Qed.

Lemma partition_spec data a b pivot (p : A) :
  a <= pivot -> pivot < b -> b <= length data ->
  data !! pivot = Some p ->
  range_perm a b data (sort.partition_func less data a b pivot).1.1 /\
  a <= (sort.partition_func less data a b pivot).1.2 /\
  (sort.partition_func less data a b pivot).1.2 < b /\
  (sort.partition_func less data a b pivot).1.1
    !! (sort.partition_func less data a b pivot).1.2 = Some p /\
  all_in a (sort.partition_func less data a b pivot).1.2
    (sort.partition_func less data a b pivot).1.1 (fun x => less x p = true) /\
  all_in (S (sort.partition_func less data a b pivot).1.2) b
    (sort.partition_func less data a b pivot).1.1 (fun x => less x p = false).
Proof.
  intros Hap Hpb Hlen Hp. unfold sort.partition_func.
  set (data0 := sort.Swap data a pivot).
  assert (Hlen0 : b <= length data0) by (unfold data0; rewrite Swap_length; exact Hlen).
  assert (Hrp0 : range_perm a b data data0) by (apply range_perm_Swap; lia).
  assert (Hp0 : data0 !! a = Some p).
  { unfold data0. rewrite Swap_lookup by lia.
    repeat case_decide; try lia; try exact Hp. subst. exact Hp. }
  pose proof (partition_step (fun x => less x p)
    (fun i => sort.Less less data0 i a)
    (fun j => negb (sort.Less less data0 j a)) data0 a b (a + 1) (b - 1)) as Hstep.
  cbv zeta in Hstep.
  destruct Hstep as (S1 & S2 & S3 & S4 & S5 & S6); try lia.
  { intros k x Hx. apply Less_lookup; assumption. }
  { intros k x Hx. f_equal. apply Less_lookup; assumption. }
  { intros k x Hk1 Hk2. lia. }
  { intros k x Hk1 Hk2. lia. }
  set (i' := sort.scanUp _ (b - 1) (length data0) (a + 1)) in *.
  set (j' := sort.scanDown _ i' (length data0) (b - 1)) in *.
  destruct (j' <? i')%nat eqn:Hji.
  - apply Nat.ltb_lt in Hji. cbn [fst snd].
    assert (i' = S j') as Heq by lia. rewrite Heq in S4.
    destruct (partition_finish (fun x => less x p) a b p data0 j')
      as (F1 & F2 & F3 & F4); try assumption; try lia.
    split; [eapply range_perm_trans; eassumption|].
    repeat split; try assumption; lia.
  - apply Nat.ltb_ge in Hji. destruct (S6 Hji) as (T1 & T2 & T3).
    pose proof (partitionLoop_spec a b p (length (sort.Swap data0 i' j'))
      (sort.Swap data0 i' j') (S i') (j' - 1)) as Hloop.
    destruct (sort.partitionLoop less (length (sort.Swap data0 i' j'))
      (sort.Swap data0 i' j') a (S i') (j' - 1)) as [data2 j2].
    cbn [fst snd] in *.
    destruct Hloop as (R1 & R2 & R3 & R4 & R5 & R6); try lia.
    { rewrite Swap_length. exact Hlen0. }
    { rewrite Swap_length. lia. }
    { rewrite Swap_lookup by lia. repeat case_decide; try lia. exact Hp0. }
    { exact T2. }
    { replace (S (j' - 1)) with j' by lia. exact T3. }
    assert (Hrp2 : range_perm a b data data2).
    { eapply range_perm_trans; [exact Hrp0|].
      eapply range_perm_trans; [apply (range_perm_Swap a b data0 i' j'); lia|].
      eapply range_perm_widen; [| |exact R1]; lia. }
    destruct (partition_finish (fun x => less x p) a b p data2 j2)
      as (F1 & F2 & F3 & F4); try assumption; try lia.
    { rewrite (range_perm_length _ _ _ _ Hrp2). exact Hlen. }
    split; [eapply range_perm_trans; eassumption|].
    repeat split; try assumption; lia.
Qed.

(** *** [partitionEqual_func] *)

Lemma partitionEqualLoop_spec a b (p : A) (fuel : nat) :
  forall data i j,
    a < i -> i <= S j -> j < b -> b <= length data -> S j - i <= fuel ->
    data !! a = Some p ->
    all_in (S a) i data (fun x => negb (less p x) = true) ->
    all_in (S j) b data (fun x => negb (less p x) = false) ->
    range_perm (S a) b data (sort.partitionEqualLoop less fuel data a i j).1 /\
    (sort.partitionEqualLoop less fuel data a i j).1 !! a = Some p /\
    a < (sort.partitionEqualLoop less fuel data a i j).2 /\
    (sort.partitionEqualLoop less fuel data a i j).2 <= b /\
    all_in (S a) (sort.partitionEqualLoop less fuel data a i j).2
      (sort.partitionEqualLoop less fuel data a i j).1
      (fun x => negb (less p x) = true) /\
    all_in (sort.partitionEqualLoop less fuel data a i j).2 b
      (sort.partitionEqualLoop less fuel data a i j).1
      (fun x => negb (less p x) = false).
Proof.
  induction fuel as [|fuel IH]; intros data i j Hai Hij Hjb Hlen Hfuel Hp Hl Hr.
  - cbn [sort.partitionEqualLoop fst snd].
    assert (i = S j) as -> by lia.
    split; [apply range_perm_refl|]. repeat split; try assumption; lia.
  - cbn [sort.partitionEqualLoop].
    pose proof (partition_step (fun x => negb (less p x))
      (fun i => negb (sort.Less less data a i))
      (fun j => sort.Less less data a j) data a b i j Hai Hij Hjb Hlen) as Hstep.
    cbv zeta in Hstep.
    destruct Hstep as (S1 & S2 & S3 & S4 & S5 & S6); try assumption.
    { intros k x Hx. f_equal. apply Less_lookup; assumption. }
    { intros k x Hx. rewrite negb_involutive. apply Less_lookup; assumption. }
    set (i' := sort.scanUp _ j (length data) i) in *.
    set (j' := sort.scanDown _ i' (length data) j) in *.
    destruct (j' <? i')%nat eqn:Hji.
    + apply Nat.ltb_lt in Hji. cbn [fst snd].
      assert (i' = S j') as Heq by lia.
      split; [apply range_perm_refl|]. rewrite <- Heq in S5.
      repeat split; try assumption; lia.
    + apply Nat.ltb_ge in Hji. destruct (S6 Hji) as (T1 & T2 & T3).
      destruct (IH (sort.Swap data i' j') (S i') (j' - 1))
        as (R1 & R2 & R3 & R4 & R5 & R6); try lia.
      * rewrite Swap_length. exact Hlen.
      * rewrite Swap_lookup by lia. repeat case_decide; try lia. exact Hp.
      * exact T2.
      * replace (S (j' - 1)) with j' by lia. exact T3.
      * split; [|repeat split; assumption].
        eapply range_perm_trans; [|exact R1].
        apply range_perm_Swap; lia.
Qed.

Lemma partitionEqualLoop_fuel a (fuel : nat) :
  forall (fuel' : nat) data i j,
    1 <= i -> i <= S j -> j < length data ->
    S j - i <= fuel -> S j - i <= fuel' ->
    sort.partitionEqualLoop less fuel data a i j
    = sort.partitionEqualLoop less fuel' data a i j.
Proof.
  assert (Hstep : forall data i j,
            1 <= i -> i <= S j -> j < length data ->
            let i' := sort.scanUp (fun i => negb (sort.Less less data a i)) j
                        (length data) i in
            let j' := sort.scanDown (fun j => sort.Less less data a j) i'
                        (length data) j in
            i <= i' /\ j' <= j /\ i' <= S j' /\ (i' <= j' -> i' < j')).
  { intros data i j Hi Hij Hj i' j'.
    destruct (scanUp_spec (fun i => negb (sort.Less less data a i)) j (length data) i)
      as (U1 & U2 & _ & U4); try lia.
    fold i' in U1, U2, U4.
    destruct (scanDown_spec (fun j => sort.Less less data a j) i' (length data))
      with (j := j) as (D1 & D2 & _ & D4); try lia.
    fold j' in D1, D2, D4.
    repeat split; try lia. intros Hle.
    destruct (decide (i' = j')) as [Heq|Hne]; [|lia].
    pose proof (U4 ltac:(lia)) as Hu. pose proof (D4 Hle) as Hd.
    cbn beta in Hu, Hd. rewrite <- Heq in Hd. rewrite Hd in Hu. discriminate. }
  induction fuel as [|fuel IH]; intros fuel' data i j Hi Hij Hj Hfuel Hfuel'.
  - destruct fuel' as [|fuel']; [reflexivity|]. cbn [sort.partitionEqualLoop].
    destruct (Hstep data i j Hi Hij Hj) as (S1 & S2 & S3 & S4).
    destruct (_ <? _)%nat eqn:Hji.
    + f_equal. apply Nat.ltb_lt in Hji. lia.
    + apply Nat.ltb_ge in Hji. specialize (S4 Hji). lia.
  - destruct fuel' as [|fuel']; cbn [sort.partitionEqualLoop];
      destruct (Hstep data i j Hi Hij Hj) as (S1 & S2 & S3 & S4);
      destruct (_ <? _)%nat eqn:Hji; try reflexivity.
    + f_equal. apply Nat.ltb_lt in Hji. lia.
    + apply Nat.ltb_ge in Hji. specialize (S4 Hji). lia.
    + apply Nat.ltb_ge in Hji. specialize (S4 Hji).
      apply IH; try lia. rewrite Swap_length. lia.
Qed.

Lemma partitionEqual_spec data a b pivot (p : A) :
  a <= pivot -> pivot < b -> b <= length data ->
  data !! pivot = Some p ->
  range_perm a b data (sort.partitionEqual_func less data a b pivot).1 /\
  a < (sort.partitionEqual_func less data a b pivot).2 /\
  (sort.partitionEqual_func less data a b pivot).2 <= b /\
  (sort.partitionEqual_func less data a b pivot).1 !! a = Some p /\
  all_in (S a) (sort.partitionEqual_func less data a b pivot).2
    (sort.partitionEqual_func less data a b pivot).1 (fun x => less p x = false) /\
  all_in (sort.partitionEqual_func less data a b pivot).2 b
    (sort.partitionEqual_func less data a b pivot).1 (fun x => less p x = true).
Proof.
  intros Hap Hpb Hlen Hp. unfold sort.partitionEqual_func.
  set (data0 := sort.Swap data a pivot).
  assert (Hlen0 : b <= length data0) by (unfold data0; rewrite Swap_length; exact Hlen).
  assert (Hrp0 : range_perm a b data data0) by (apply range_perm_Swap; lia).
  assert (Hp0 : data0 !! a = Some p).
  { unfold data0. rewrite Swap_lookup by lia.
    repeat case_decide; try lia; try exact Hp. subst. exact Hp. }
  destruct (partitionEqualLoop_spec a b p (length data0) data0 (a + 1) (b - 1))
    as (R1 & R2 & R3 & R4 & R5 & R6); try lia.
  { exact Hp0. }
  { intros k x Hk1 Hk2. lia. }
  { intros k x Hk1 Hk2. lia. }
  split.
  { eapply range_perm_trans; [exact Hrp0|].
    eapply range_perm_widen; [| |exact R1]; lia. }
  repeat split; try assumption.
  - eapply all_in_impl; [|exact R5]. intros x Hx. apply negb_true_iff. exact Hx.
  - eapply all_in_impl; [|exact R6]. intros x Hx. apply negb_false_iff. exact Hx.
Qed.

End SortPartition.

(** ** [sort.Slice]: pivots, patterns and the partial insertion sort *)

Section SortPatterns.
Context {A : Type} (less : A -> A -> bool) `{!sort.Random}.
Implicit Types (data : list A) (a b i j k : nat) (x y z : A).

Lemma reverseLoop_perm a b (fuel : nat) :
  forall data i j,
    a <= i -> j < b -> b <= length data ->
    range_perm a b data (sort.reverseLoop fuel data i j).
Proof.
  induction fuel as [|fuel IH]; intros data i j Hai Hjb Hlen.
  - apply range_perm_refl.
  - cbn [sort.reverseLoop]. destruct (i <? j)%nat eqn:Hij.
    + apply Nat.ltb_lt in Hij.
      eapply range_perm_trans; [apply (range_perm_Swap a b data i j); lia|].
      apply IH; [lia|lia|]. rewrite Swap_length. exact Hlen.
    + apply range_perm_refl.
Qed.

(** The fuel of the loop of [reverseRange_func] is enough: more of it
    gives the same slice. *)
Lemma reverseLoop_fuel (fuel : nat) :
  forall (fuel' : nat) data i j,
    j - i <= fuel -> j - i <= fuel' ->
    sort.reverseLoop fuel data i j = sort.reverseLoop fuel' data i j.
Proof.
  induction fuel as [|fuel IH]; intros fuel' data i j Hfuel Hfuel'.
  - destruct fuel' as [|fuel']; [reflexivity|]. cbn [sort.reverseLoop].
    destruct (i <? j)%nat eqn:Hij; [|reflexivity].
    apply Nat.ltb_lt in Hij. lia.
  - destruct fuel' as [|fuel']; cbn [sort.reverseLoop].
    + destruct (i <? j)%nat eqn:Hij; [|reflexivity].
      apply Nat.ltb_lt in Hij. lia.
    + destruct (i <? j)%nat eqn:Hij; [|reflexivity].
      apply Nat.ltb_lt in Hij. apply IH; lia.
Qed.

Lemma reverseRange_perm data a b :
  a < b -> b <= length data ->
  range_perm a b data (sort.reverseRange_func data a b).
Proof.
  intros Hab Hlen. unfold sort.reverseRange_func.
  apply reverseLoop_perm; lia.
Qed.

Lemma Len_pow (n : nat) : 0 < n -> 2 ^ sort.Len n <= 2 * n.
Proof.
  intros Hn. unfold sort.Len.
  destruct (n =? 0)%nat eqn:Hz; [apply Nat.eqb_eq in Hz; lia|].
  pose proof (Nat.log2_spec n Hn) as [Hlow _].
  cbn [Nat.pow]. lia.
Qed.

Lemma breakLoop_perm a b (n : nat) :
  forall i random modulus length idx data,
    0 < length -> a + length = b -> b <= List.length data ->
    (0 < modulus <= 2 * Z.of_nat length)%Z ->
    (exists e, (0 <= e)%Z /\ modulus = (2 ^ e)%Z) ->
    a <= idx - 1 + i -> idx - 1 + i + n <= b ->
    range_perm a b data
      (sort.breakLoop n i random modulus length idx a data).
Proof.
  induction n as [|n IH];
    intros i random modulus length idx data Hlen Hab Hb Hmod Hpow Hlo Hhi.
  - apply range_perm_refl.
  - cbn [sort.breakLoop].
    set (r := sort.xorshift_Next random).
    set (other0 := Z.to_nat (Z.land r (modulus - 1))).
    assert (Hother0 : other0 < 2 * length).
    { destruct Hpow as (e & He & ->).
      unfold other0. replace (2 ^ e - 1)%Z with (Z.ones e)
        by (rewrite Z.ones_equiv; lia).
      rewrite Z.land_ones by exact He.
      pose proof (Z.mod_pos_bound r (2 ^ e) ltac:(lia)). lia. }
    set (other := if (length <=? other0)%nat then other0 - length else other0).
    assert (Hother : other < length).
    { unfold other. destruct (length <=? other0)%nat eqn:Hle.
      - apply Nat.leb_le in Hle. lia.
      - apply Nat.leb_gt in Hle. lia. }
    eapply range_perm_trans.
    + apply (range_perm_Swap a b data (idx - 1 + i) (a + other)); lia.
    + apply IH; try assumption; try lia.
      rewrite Swap_length. exact Hb.
Qed.

Lemma breakPatterns_perm data a b :
  a <= b -> b <= length data ->
  range_perm a b data (sort.breakPatterns_func data a b).
Proof.
  intros Hab Hlen. unfold sort.breakPatterns_func.
  destruct (8 <=? b - a)%nat eqn:H8; [|apply range_perm_refl].
  apply Nat.leb_le in H8.
  assert (Hq : 2 <= (b - a) / 4 /\ (b - a) / 4 * 4 <= b - a).
  { pose proof (Nat.div_mod_eq (b - a) 4).
    pose proof (Nat.mod_upper_bound (b - a) 4 ltac:(lia)). lia. }
  apply breakLoop_perm; try lia.
  - unfold sort.nextPowerOfTwo.
    pose proof (Len_pow (b - a) ltac:(lia)) as Hp.
    split; [apply Z.pow_pos_nonneg; lia|].
    apply Nat2Z.inj_le in Hp. rewrite Nat2Z.inj_pow in Hp.
    rewrite Nat2Z.inj_mul in Hp. exact Hp.
  - exists (Z.of_nat (sort.Len (b - a))). split; [lia|reflexivity].
Qed.

Lemma order2_in data a b swaps :
  ((sort.order2_func less data a b swaps).1.1 = a /\
   (sort.order2_func less data a b swaps).1.2 = b) \/
  ((sort.order2_func less data a b swaps).1.1 = b /\
   (sort.order2_func less data a b swaps).1.2 = a).
Proof.
  unfold sort.order2_func. destruct (sort.Less less data b a); cbn; tauto.
Qed.

Lemma median_in data a b c swaps :
  (sort.median_func less data a b c swaps).1 = a \/
  (sort.median_func less data a b c swaps).1 = b \/
  (sort.median_func less data a b c swaps).1 = c.
Proof.
  unfold sort.median_func.
  pose proof (order2_in data a b swaps) as H1.
  destruct (sort.order2_func less data a b swaps) as [[a1 b1] s1].
  pose proof (order2_in data b1 c s1) as H2.
  destruct (sort.order2_func less data b1 c s1) as [[b2 c2] s2].
  pose proof (order2_in data a1 b2 s2) as H3.
  destruct (sort.order2_func less data a1 b2 s2) as [[a3 b3] s3].
  cbn in *. intuition congruence.
Qed.

Lemma choosePivot_range data a b :
  8 <= b - a ->
  a <= (sort.choosePivot_func less data a b).1 /\
  (sort.choosePivot_func less data a b).1 < b.
Proof.
  intros H8. unfold sort.choosePivot_func.
  assert (Hq : 2 <= (b - a) / 4 /\ (b - a) / 4 * 4 <= b - a).
  { pose proof (Nat.div_mod_eq (b - a) 4).
    pose proof (Nat.mod_upper_bound (b - a) 4 ltac:(lia)). lia. }
  set (q := (b - a) / 4) in *.
  assert (H8' : (8 <=? b - a)%nat = true) by (apply Nat.leb_le; exact H8).
  rewrite H8'.
  assert (Hpick : forall i j k swaps,
            a <= i < b -> a <= j < b -> a <= k < b ->
            a <= (sort.median_func less data i j k swaps).1 < b).
  { intros i j k swaps Hi Hj Hk.
    destruct (median_in data i j k swaps) as [->|[->| ->]]; assumption. }
  assert (Hfin : forall js : nat * nat,
            a <= js.1 < b ->
            a <= (let '(j, swaps) := js in
                  if (swaps =? 0)%nat then (j, sort.increasingHint)
                  else if (swaps =? sort.maxSwaps)%nat then (j, sort.decreasingHint)
                  else (j, sort.unknownHint)).1 < b).
  { intros [j swaps] Hj. cbn [fst] in Hj.
    destruct (swaps =? 0)%nat; [exact Hj|].
    destruct (swaps =? sort.maxSwaps)%nat; exact Hj. }
  apply Hfin.
  destruct (sort.shortestNinther <=? b - a)%nat eqn:H50.
  - apply Nat.leb_le in H50. unfold sort.shortestNinther in H50.
    assert (Hq12 : 12 <= q).
    { unfold q. pose proof (Nat.div_mod_eq (b - a) 4).
      pose proof (Nat.mod_upper_bound (b - a) 4 ltac:(lia)). lia. }
    unfold sort.medianAdjacent_func.
    pose proof (Hpick (a + q * 1 - 1) (a + q * 1) (a + q * 1 + 1) 0
                  ltac:(lia) ltac:(lia) ltac:(lia)) as Hi.
    destruct (sort.median_func less data (a + q * 1 - 1) (a + q * 1)
                (a + q * 1 + 1) 0) as [i s1].
    pose proof (Hpick (a + q * 2 - 1) (a + q * 2) (a + q * 2 + 1) s1
                  ltac:(lia) ltac:(lia) ltac:(lia)) as Hj.
    destruct (sort.median_func less data (a + q * 2 - 1) (a + q * 2)
                (a + q * 2 + 1) s1) as [j s2].
    pose proof (Hpick (a + q * 3 - 1) (a + q * 3) (a + q * 3 + 1) s2
                  ltac:(lia) ltac:(lia) ltac:(lia)) as Hk.
    destruct (sort.median_func less data (a + q * 3 - 1) (a + q * 3)
                (a + q * 3 + 1) s2) as [k s3].
    cbn [fst] in *. apply Hpick; assumption.
  - apply Hpick; lia.
Qed.

End SortPatterns.

(** ** [sort.Slice]: the partial insertion sort *)

Section SortPartial.
Context {A : Type} (less : A -> A -> bool) `{!StrictWeak less}.
Implicit Types (data : list A) (a b i j k : nat) (x y z : A).

Lemma lower_bound_range_perm a b data data' :
  a <= b -> range_perm a b data data' ->
  lower_bound less a b data -> lower_bound less a b data'.
Proof.
  intros Hab Hrp Hlb x Ha Hx.
  apply (range_perm_all_in a b data data' _ Hab Hrp).
  apply Hlb; [exact Ha|]. rewrite <- (proj2 Hrp) by lia. exact Hx.
Qed.

Lemma lower_bound_narrow a b b' data :
  b' <= b -> lower_bound less a b data -> lower_bound less a b' data.
Proof.
  intros Hb Hlb x Ha Hx. eapply all_in_narrow; [| |apply (Hlb x Ha Hx)]; lia.
Qed.

(** Under the lower bound the loop that shifts to the left stops at [a]
    at the latest: it is the inner loop of the insertion sort. *)
Lemma shiftLeft_insertDown a (j : nat) :
  forall data,
    a <= j -> j < length data ->
    lower_bound less a (S j) data ->
    sort.shiftLeft less j data = sort.insertDown less a j data.
Proof.
  induction j as [|j' IH]; intros data Haj Hlen Hlb; [reflexivity|].
  cbn [sort.shiftLeft sort.insertDown].
  destruct (lookup_lt_is_Some_2 data (S j')) as [x Hx]; [lia|].
  destruct (lookup_lt_is_Some_2 data j') as [y Hy]; [lia|].
  rewrite (Less_lookup less data (S j') j' x y Hx Hy).
  destruct (a <? S j')%nat eqn:Ha; cbn [andb].
  - apply Nat.ltb_lt in Ha. destruct (less x y) eqn:Hxy; cbn [negb]; [|reflexivity].
    apply IH; [lia|rewrite Swap_length; lia|].
    apply (lower_bound_narrow a (S (S j')) (S j')); [lia|].
    apply (lower_bound_range_perm a (S (S j')) data); [lia| |exact Hlb].
    apply range_perm_Swap; lia.
  - apply Nat.ltb_ge in Ha. assert (a = S j') as -> by lia.
    assert (Hle : le less y x).
    { apply (Hlb y ltac:(lia)) with (k := S j'); [|lia|lia|exact Hx].
      replace (S j' - 1) with j' by lia. exact Hy. }
    unfold le in Hle. rewrite Hle. reflexivity.
Qed.

Lemma shiftRight_perm i b (n : nat) :
  forall j data,
    i < j -> j + n <= b -> b <= length data ->
    range_perm i b data (sort.shiftRight less n j data).
Proof.
  induction n as [|n IH]; intros j data Hij Hjb Hlen; [apply range_perm_refl|].
  cbn [sort.shiftRight].
  destruct (negb (sort.Less less data j (j - 1))); [apply range_perm_refl|].
  eapply range_perm_trans; [apply (range_perm_Swap i b data j (j - 1)); lia|].
  apply IH; [lia|lia|]. rewrite Swap_length. exact Hlen.
Qed.

Lemma adj_sorted_outside a b a' b' data data' :
  (b <= a' \/ b' <= a) -> range_perm a' b' data data' ->
  adj_sorted less a b data -> adj_sorted less a b data'.
Proof.
  intros Hdisj [_ Ho] Hs k x y Hak Hkb Hx Hy.
  apply (Hs k x y Hak Hkb); rewrite <- Ho by lia; assumption.
Qed.

Lemma scanUp_adj a b data i :
  a < i -> i <= b -> b <= length data -> 0 < b ->
  adj_sorted less a i data ->
  adj_sorted less a
    (sort.scanUp (fun i => negb (sort.Less less data i (i - 1))) (b - 1)
       (length data) i) data.
Proof.
  intros Hai Hib Hlen Hb Hs.
  destruct (scanUp_spec (fun i => negb (sort.Less less data i (i - 1))) (b - 1)
              (length data) i) as (U1 & U2 & U3 & _); try lia.
  set (i' := sort.scanUp _ (b - 1) (length data) i) in *.
  intros k x y Hak Hkb Hx Hy.
  destruct (decide (S k < i)) as [Hlt|Hge]; [apply (Hs k x y); assumption|].
  pose proof (U3 (S k) ltac:(lia) Hkb) as Htest. cbn beta in Htest.
  replace (S k - 1) with k in Htest by lia.
  rewrite (Less_lookup less data (S k) k y x Hy Hx) in Htest.
  apply negb_true_iff in Htest. exact Htest.
Qed.

Lemma partialInsertionLoop_spec a b (steps : nat) :
  forall data i,
    a < i -> i <= b -> b <= length data ->
    lower_bound less a b data ->
    adj_sorted less a i data ->
    range_perm a b data (sort.partialInsertionLoop less steps data a b i).1 /\
    ((sort.partialInsertionLoop less steps data a b i).2 = true ->
     sorted_in less a b (sort.partialInsertionLoop less steps data a b i).1).
Proof.
  induction steps as [|steps IH]; intros data i Hai Hib Hlen Hlb Hs.
  - cbn. split; [apply range_perm_refl|discriminate].
  - cbn [sort.partialInsertionLoop].
    pose proof (scanUp_adj a b data i Hai Hib Hlen ltac:(lia) Hs) as Hs'.
    destruct (scanUp_spec (fun i => negb (sort.Less less data i (i - 1))) (b - 1)
                (length data) i) as (U1 & U2 & _ & _); try lia.
    set (i' := sort.scanUp _ (b - 1) (length data) i) in *.
    destruct (i' =? b)%nat eqn:Hend.
    { apply Nat.eqb_eq in Hend. cbn [fst snd].
      split; [apply range_perm_refl|]. intros _.
      apply (adj_sorted_in less); [exact Hlen|]. rewrite <- Hend. exact Hs'. }
    apply Nat.eqb_neq in Hend.
    destruct (b - a <? sort.shortestShifting)%nat.
    { cbn [fst snd]. split; [apply range_perm_refl|discriminate]. }
    set (data1 := sort.Swap data i' (i' - 1)).
    assert (Hrp1 : range_perm a b data data1) by (apply range_perm_Swap; lia).
    assert (Hlen1 : b <= length data1).
    { unfold data1. rewrite Swap_length. exact Hlen. }
    assert (Hlb1 : lower_bound less a b data1).
    { apply (lower_bound_range_perm a b data); [lia|exact Hrp1|exact Hlb]. }
    set (data2 := if (2 <=? i' - a)%nat then sort.shiftLeft less (i' - 1) data1
                  else data1).
    assert (H2 : range_perm a i' data1 data2 /\ adj_sorted less a i' data2).
    { unfold data2. destruct (2 <=? i' - a)%nat eqn:Hfar.
      - apply Nat.leb_le in Hfar.
        rewrite (shiftLeft_insertDown a (i' - 1) data1); try lia.
        + apply (insertDown_spec less); try lia.
          * intros k x y Hak Hkb Hne. unfold data1.
            rewrite !Swap_lookup by lia.
            repeat case_decide; try lia. intros Hx Hy.
            apply (Hs' k x y); assumption.
          * intros k x y Hk Hak Hkb. lia.
        + apply (lower_bound_narrow a b); [lia|].
          exact Hlb1.
      - apply Nat.leb_gt in Hfar. split; [apply range_perm_refl|].
        intros k x y Hak Hkb. lia. }
    destruct H2 as [Hrp2 Hs2].
    assert (Hrp2' : range_perm a b data1 data2).
    { eapply range_perm_widen; [| |exact Hrp2]; lia. }
    assert (Hlen2 : b <= length data2).
    { rewrite (range_perm_length _ _ _ _ Hrp2). exact Hlen1. }
    set (data3 := if (2 <=? b - i')%nat
                  then sort.shiftRight less (b - (i' + 1)) (i' + 1) data2
                  else data2).
    assert (Hrp3 : range_perm i' b data2 data3).
    { unfold data3. destruct (2 <=? b - i')%nat eqn:Hfar.
      - apply Nat.leb_le in Hfar. apply shiftRight_perm; lia.
      - apply range_perm_refl. }
    assert (Hrp3' : range_perm a b data2 data3).
    { eapply range_perm_widen; [| |exact Hrp3]; lia. }
    assert (Hrp : range_perm a b data data3).
    { eapply range_perm_trans; [exact Hrp1|].
      eapply range_perm_trans; [exact Hrp2'|exact Hrp3']. }
    destruct (IH data3 i') as [Hrp4 Hs4]; try lia.
    + rewrite (range_perm_length _ _ _ _ Hrp). exact Hlen.
    + apply (lower_bound_range_perm a b data); [lia|exact Hrp|exact Hlb].
    + apply (adj_sorted_outside a i' i' b data2); [lia|exact Hrp3|exact Hs2].
    + split; [|exact Hs4]. eapply range_perm_trans; [exact Hrp|exact Hrp4].
Qed.

Lemma partialInsertionSort_spec data a b :
  a < b -> b <= length data ->
  lower_bound less a b data ->
  range_perm a b data (sort.partialInsertionSort_func less data a b).1 /\
  ((sort.partialInsertionSort_func less data a b).2 = true ->
   sorted_in less a b (sort.partialInsertionSort_func less data a b).1).
Proof.
  intros Hab Hlen Hlb. unfold sort.partialInsertionSort_func.
  apply partialInsertionLoop_spec; try lia; try assumption.
  intros k x y Hak Hkb. lia.
Qed.

End SortPartial.

(** ** [sort.Slice]: the heap sort *)

Section SortHeap.
Context {A : Type} (less : A -> A -> bool) `{!StrictWeak less}.
Implicit Types (data : list A) (a b i j k : nat) (x y z : A).

Lemma siftDownLoop_spec first lo hi (fuel : nat) :
  forall data root,
    lo <= root -> first + hi <= length data -> hi - root <= fuel ->
    heap_except less first lo hi root data ->
    heap_bridge less first lo hi root data ->
    range_perm (first + lo) (first + hi) data
      (sort.siftDownLoop less fuel data root hi first) /\
    heap less first lo hi (sort.siftDownLoop less fuel data root hi first).
Proof.
  induction fuel as [|fuel IH]; intros data root Hlo Hlen Hfuel Hex Hbr.
  - cbn [sort.siftDownLoop]. split; [apply range_perm_refl|].
    intros p c x y Hp _ Hc Hchi. apply Hex; try assumption.
    destruct Hc; lia.
  - cbn [sort.siftDownLoop].
    destruct (hi <=? 2 * root + 1)%nat eqn:Hleaf.
    { apply Nat.leb_le in Hleaf. split; [apply range_perm_refl|].
      intros p c x y Hp _ Hc Hchi. apply Hex; try assumption.
      destruct Hc; lia. }
    apply Nat.leb_gt in Hleaf.
    set (c1 := 2 * root + 1) in *.
    destruct (lookup_lt_is_Some_2 data (first + root)) as [vr Hvr]; [lia|].
    destruct (lookup_lt_is_Some_2 data (first + c1)) as [v1 Hv1]; [lia|].
    (* the child with the greater element *)
    set (c := if (c1 + 1 <? hi)%nat && sort.Less less data (first + c1) (first + c1 + 1)
              then c1 + 1 else c1).
    assert (Hc : child root c /\ c < hi /\
                 exists vc, data !! (first + c) = Some vc /\
                   forall c' v', child root c' -> c' < hi ->
                     data !! (first + c') = Some v' -> le less v' vc).
    { unfold c. destruct (c1 + 1 <? hi)%nat eqn:H2; cbn [andb].
      - apply Nat.ltb_lt in H2.
        destruct (lookup_lt_is_Some_2 data (first + c1 + 1)) as [v2 Hv2]; [lia|].
        rewrite (Less_lookup less data _ _ v1 v2 Hv1 Hv2).
        destruct (less v1 v2) eqn:H12.
        + split; [right; unfold c1; lia|]. split; [lia|].
          exists v2. split; [rewrite <- Hv2; f_equal; lia|].
          intros c' v' [->| ->] Hc' Hv'.
          * fold c1 in Hv'. rewrite Hv1 in Hv'. simplify_eq.
            apply less_lt_le; [exact _|exact H12].
          * replace (first + (2 * root + 2)) with (first + c1 + 1) in Hv'
              by (unfold c1; lia).
            rewrite Hv2 in Hv'. simplify_eq. apply less_le_refl. exact _.
        + split; [left; reflexivity|]. split; [lia|].
          exists v1. split; [exact Hv1|].
          intros c' v' [->| ->] Hc' Hv'.
          * fold c1 in Hv'. rewrite Hv1 in Hv'. simplify_eq. apply less_le_refl. exact _.
          * replace (first + (2 * root + 2)) with (first + c1 + 1) in Hv'
              by (unfold c1; lia).
            rewrite Hv2 in Hv'. simplify_eq. exact H12.
      - apply Nat.ltb_ge in H2.
        split; [left; reflexivity|]. split; [lia|].
        exists v1. split; [exact Hv1|].
        intros c' v' [->| ->] Hc' Hv'.
        + fold c1 in Hv'. rewrite Hv1 in Hv'. simplify_eq. apply less_le_refl. exact _.
        + unfold c1 in H2. lia. }
    destruct Hc as (Hchild & Hchi & vc & Hvc & Hmax).
    rewrite (Less_lookup less data _ _ vr vc Hvr Hvc).
    destruct (less vr vc) eqn:Hrc; cbn [negb].
    + (* the root goes down *)
      assert (Hrootc : root < c) by (destruct Hchild; lia).
      assert (Hsw : forall k, sort.Swap data (first + root) (first + c) !! (first + k) =
                if decide (k = c) then Some vr
                else if decide (k = root) then Some vc else data !! (first + k)).
      { intros k. rewrite Swap_lookup by lia. rewrite Hvr, Hvc.
        repeat case_decide; try lia; reflexivity. }
      destruct (IH (sort.Swap data (first + root) (first + c)) c)
        as [Hrp Hheap]; try lia.
      * rewrite Swap_length. exact Hlen.
      * intros p c' x y Hp Hne Hc' Hc'hi. rewrite !Hsw.
        assert (Hpc' : p < c') by (destruct Hc'; lia).
        destruct (decide (p = c)) as [?|_]; [lia|].
        destruct (decide (p = root)) as [->|Hpr].
        -- destruct (decide (c' = c)) as [->|Hc'c]; intros Hx Hy.
           ++ simplify_eq. apply less_lt_le; [exact _|exact Hrc].
           ++ destruct (decide (c' = root)) as [?|_]; [lia|].
              simplify_eq. apply (Hmax c' y); assumption.
        -- destruct (decide (c' = c)) as [->|Hc'c].
           { exfalso. destruct Hchild, Hc'; lia. }
           destruct (decide (c' = root)) as [->|Hc'r]; intros Hx Hy.
           ++ simplify_eq. apply (Hbr p c x y); assumption.
           ++ apply (Hex p c' x y); assumption.
      * intros p g x y Hp Hpc Hcg Hghi. rewrite !Hsw.
        assert (p = root) as -> by (destruct Hchild, Hpc; lia).
        assert (Hg : c < g) by (destruct Hcg; lia).
        destruct (decide (root = c)) as [?|_]; [lia|].
        destruct (decide (root = root)) as [_|?]; [|lia].
        destruct (decide (g = c)) as [?|_]; [lia|].
        destruct (decide (g = root)) as [?|_]; [lia|].
        intros Hx Hy. simplify_eq.
        apply (Hex c g x y); try assumption; lia.
      * split; [|exact Hheap].
        eapply range_perm_trans; [|exact Hrp].
        apply range_perm_Swap; lia.
    + split; [apply range_perm_refl|].
      intros p c' x y Hp _ Hc' Hc'hi Hx Hy.
      destruct (decide (p = root)) as [->|Hne].
      * rewrite Hvr in Hx. simplify_eq.
        apply (less_le_trans less y vc x); [exact (Hmax c' y Hc' Hc'hi Hy)|exact Hrc].
      * apply (Hex p c' x y); assumption.
Qed.

(** The loop of [siftDown_func] stops on its own: more fuel gives the
    same slice. *)
Lemma siftDownLoop_fuel first hi (fuel : nat) :
  forall (fuel' : nat) data root,
    hi - root <= fuel -> hi - root <= fuel' ->
    sort.siftDownLoop less fuel data root hi first
    = sort.siftDownLoop less fuel' data root hi first.
Proof.
  induction fuel as [|fuel IH]; intros fuel' data root Hfuel Hfuel'.
  - destruct fuel' as [|fuel']; [reflexivity|]. cbn [sort.siftDownLoop].
    destruct (hi <=? 2 * root + 1)%nat eqn:Hleaf; [reflexivity|].
    apply Nat.leb_gt in Hleaf. lia.
  - destruct fuel' as [|fuel']; cbn [sort.siftDownLoop];
      (destruct (hi <=? 2 * root + 1)%nat eqn:Hleaf; [reflexivity|]);
      apply Nat.leb_gt in Hleaf; [lia|].
    destruct (negb _); [reflexivity|].
    apply IH; destruct (_ && _); lia.
Qed.

Lemma siftDown_spec data lo hi first :
  first + hi <= length data ->
  heap_except less first lo hi lo data ->
  heap_bridge less first lo hi lo data ->
  range_perm (first + lo) (first + hi) data (sort.siftDown_func less data lo hi first) /\
  heap less first lo hi (sort.siftDown_func less data lo hi first).
Proof.
  intros Hlen Hex Hbr. unfold sort.siftDown_func.
  apply siftDownLoop_spec; try assumption; lia.
Qed.

Lemma heapify_spec first hi (n : nat) :
  forall data,
    first + hi <= length data ->
    heap less first n hi data ->
    range_perm first (first + hi) data (sort.heapify less n data hi first) /\
    heap less first 0 hi (sort.heapify less n data hi first).
Proof.
  induction n as [|i IH]; intros data Hlen Hheap.
  - split; [apply range_perm_refl|exact Hheap].
  - cbn [sort.heapify].
    destruct (siftDown_spec data i hi first) as [Hrp Hh]; try assumption.
    + intros p c x y Hp Hne Hc Hchi.
      apply Hheap; try assumption; unfold child in Hc; lia.
    + intros p c x y Hp Hpi Hic Hchi. destruct Hpi; lia.
    + destruct (IH (sort.siftDown_func less data i hi first)) as [Hrp2 Hh2].
      * rewrite (range_perm_length _ _ _ _ Hrp). exact Hlen.
      * exact Hh.
      * split; [|exact Hh2].
        eapply range_perm_trans; [|exact Hrp2].
        eapply range_perm_widen; [| |exact Hrp]; lia.
Qed.

(** The root of a heap does not come before any other node. *)
Lemma heap_root first hi data :
  first + hi <= length data ->
  heap less first 0 hi data ->
  forall k x y, k < hi ->
    data !! (first + k) = Some x -> data !! first = Some y -> le less x y.
Proof.
  intros Hlen Hheap k. induction k as [k IH] using lt_wf_ind.
  intros x y Hk Hx Hy.
  destruct k as [|k'].
  - rewrite Nat.add_0_r in Hx. rewrite Hy in Hx. simplify_eq. apply less_le_refl. exact _.
  - set (p := k' / 2).
    assert (Hp : child p (S k')).
    { unfold child, p. pose proof (Nat.div_mod_eq k' 2).
      pose proof (Nat.mod_upper_bound k' 2 ltac:(lia)). lia. }
    assert (Hpk : p < S k') by (destruct Hp; lia).
    destruct (lookup_lt_is_Some_2 data (first + p)) as [z Hz]; [lia|].
    apply (less_le_trans less x z y).
    + apply (Hheap p (S k') z x); try assumption; lia.
    + apply (IH p Hpk z y); [lia|exact Hz|exact Hy].
Qed.

Lemma popAll_spec first hi (n : nat) :
  forall data,
    n <= hi -> first + hi <= length data ->
    heap less first 0 n data ->
    sorted_in less (first + n) (first + hi) data ->
    split_at less first (first + n) (first + hi) data ->
    range_perm first (first + hi) data (sort.popAll less n data 0 first) /\
    sorted_in less first (first + hi) (sort.popAll less n data 0 first).
Proof.
  induction n as [|i IH]; intros data Hn Hlen Hheap Hsorted Hsplit.
  - cbn [sort.popAll]. split; [apply range_perm_refl|].
    rewrite Nat.add_0_r in Hsorted. exact Hsorted.
  - cbn [sort.popAll].
    destruct (lookup_lt_is_Some_2 data first) as [top Htop]; [lia|].
    destruct (lookup_lt_is_Some_2 data (first + i)) as [last Hlast]; [lia|].
    set (data1 := sort.Swap data first (first + i)).
    assert (Hsw : forall k, data1 !! k =
              if decide (k = first + i) then Some top
              else if decide (k = first) then Some last else data !! k).
    { intros k. unfold data1. rewrite Swap_lookup by lia.
      rewrite Htop, Hlast. reflexivity. }
    assert (Hrp1 : range_perm first (first + S i) data data1).
    { apply range_perm_Swap; lia. }
    assert (Hlen1 : first + hi <= length data1).
    { unfold data1. rewrite Swap_length. exact Hlen. }
    assert (Htopmax : all_in first (first + S i) data (fun x => le less x top)).
    { intros k x Hk1 Hk2 Hx.
      apply (heap_root first (S i) data) with (k := k - first);
        try assumption; try lia.
      replace (first + (k - first)) with k by lia. exact Hx. }
    assert (Htopmax1 : all_in first (first + S i) data1 (fun x => le less x top)).
    { apply (range_perm_all_in first (first + S i) data); [lia|exact Hrp1|exact Htopmax]. }
    assert (Hsorted1 : sorted_in less (first + i) (first + hi) data1).
    { intros k1 k2 x y Hk1 Hk12 Hk2. rewrite !Hsw.
      repeat case_decide; try lia; intros Hx Hy; simplify_eq.
      - apply (Hsplit k2 y) with (k := first); try lia; assumption.
      - apply (Hsorted k1 k2 x y); try assumption; lia. }
    assert (Hsplit1 : split_at less first (first + i) (first + hi) data1).
    { intros k y Hk1 Hk2 Hy j x Hj1 Hj2 Hx.
      destruct (decide (k = first + i)) as [->|Hne].
      - rewrite Hsw in Hy. case_decide; [|lia]. simplify_eq.
        apply (Htopmax1 j x); [lia|lia|exact Hx].
      - assert (Hy' : data !! k = Some y).
        { rewrite Hsw in Hy. repeat case_decide; try lia. exact Hy. }
        pose proof (Hsplit k y ltac:(lia) Hk2 Hy') as Hall.
        apply (range_perm_all_in first (first + S i) data data1 _ ltac:(lia) Hrp1)
          in Hall.
        apply (Hall j x); [lia|lia|exact Hx]. }
    destruct (siftDown_spec data1 0 i first) as [Hrp2 Hheap2]; try lia.
    + intros p c x y Hp Hne Hc Hci. rewrite !Hsw.
      assert (Hpc : p < c) by (destruct Hc; lia).
      repeat case_decide; try lia; intros Hx Hy.
      apply (Hheap p c x y); try assumption; lia.
    + intros p c x y Hp Hp0 H0c Hci. destruct Hp0; lia.
    + rewrite Nat.add_0_r in Hrp2.
      set (data2 := sort.siftDown_func less data1 0 i first) in *.
      destruct (IH data2) as [Hrp3 Hsorted3]; try lia.
      * rewrite (range_perm_length _ _ _ _ Hrp2). exact Hlen1.
      * exact Hheap2.
      * apply (sorted_in_outside less (first + i) (first + hi) first (first + i) data1);
          [lia|exact Hrp2|exact Hsorted1].
      * intros k y Hk1 Hk2 Hy.
        assert (Hy' : data1 !! k = Some y).
        { rewrite <- (proj2 Hrp2) by lia. exact Hy. }
        apply (range_perm_all_in first (first + i) data1 data2 _ ltac:(lia) Hrp2).
        exact (Hsplit1 k y Hk1 Hk2 Hy').
      * split; [|exact Hsorted3].
        eapply range_perm_trans; [|exact Hrp3].
        eapply range_perm_trans.
        -- eapply range_perm_widen; [| |exact Hrp1]; lia.
        -- eapply range_perm_widen; [| |exact Hrp2]; lia.
Qed.

Lemma heapSort_spec data a b :
  a <= b -> b <= length data ->
  range_perm a b data (sort.heapSort_func less data a b) /\
  sorted_in less a b (sort.heapSort_func less data a b).
Proof.
  intros Hab Hlen. unfold sort.heapSort_func.
  assert (Hhi : a + (b - a) = b) by lia.
  destruct (heapify_spec a (b - a) ((b - a - 1) / 2 + 1) data) as [Hrp1 Hheap1].
  - lia.
  - intros p c x y Hp _ Hc Hchi.
    pose proof (Nat.div_mod_eq (b - a - 1) 2).
    pose proof (Nat.mod_upper_bound (b - a - 1) 2 ltac:(lia)).
    destruct Hc; lia.
  - set (data1 := sort.heapify less ((b - a - 1) / 2 + 1) data (b - a) a) in *.
    destruct (popAll_spec a (b - a) (b - a) data1) as [Hrp2 Hs2]; try lia.
    + rewrite (range_perm_length _ _ _ _ Hrp1). lia.
    + exact Hheap1.
    + intros i j x y Hi Hij Hj. lia.
    + intros k y Hk1 Hk2. lia.
    + rewrite Hhi in *. split; [|exact Hs2].
      eapply range_perm_trans; eassumption.
Qed.

End SortHeap.

(** ** [sort.Slice] sorts *)

Section SortMain.
Context {A : Type} (less : A -> A -> bool) `{!sort.Random} `{!StrictWeak less}.
Implicit Types (data : list A) (a b i j k : nat) (x y z : A).

(** One turn of the loop of [pdqsort_func], with the tuples named. *)
Lemma pdqsort_loop_unfold (fuel : nat) data a b limit (wasBalanced wasPartitioned : bool) :
  sort.pdqsort_loop less (S fuel) data a b limit wasBalanced wasPartitioned =
  if (b - a <=? sort.maxInsertion)%nat then sort.insertionSort_func less data a b else
  if (limit =? 0)%nat then sort.heapSort_func less data a b else
  let bp := if negb wasBalanced then (sort.breakPatterns_func data a b, limit - 1)
            else (data, limit) in
  let cp := sort.choosePivot_func less bp.1 a b in
  let rv := if sort.sortedHint_eqb cp.2 sort.decreasingHint
            then (sort.reverseRange_func bp.1 a b, (b - 1) - (cp.1 - a), sort.increasingHint)
            else (bp.1, cp.1, cp.2) in
  let pi := if wasBalanced && wasPartitioned && sort.sortedHint_eqb rv.2 sort.increasingHint
            then sort.partialInsertionSort_func less rv.1.1 a b
            else (rv.1.1, false) in
  if pi.2 then pi.1 else
  if (0 <? a)%nat && negb (sort.Less less pi.1 (a - 1) rv.1.2) then
    let pe := sort.partitionEqual_func less pi.1 a b rv.1.2 in
    sort.pdqsort_loop less fuel pe.1 pe.2 b bp.2 wasBalanced wasPartitioned
  else
    let pt := sort.partition_func less pi.1 a b rv.1.2 in
    let mid := pt.1.2 in
    if (mid - a <? b - mid)%nat then
      sort.pdqsort_loop less fuel
        (sort.pdqsort_loop less fuel pt.1.1 a mid bp.2 true true)
        (mid + 1) b bp.2 ((b - a) / 8 <=? mid - a)%nat pt.2
    else
      sort.pdqsort_loop less fuel
        (sort.pdqsort_loop less fuel pt.1.1 (mid + 1) b bp.2 true true)
        a mid bp.2 ((b - a) / 8 <=? b - mid)%nat pt.2.
Proof.
  cbn [sort.pdqsort_loop]. cbv zeta.
  destruct (b - a <=? sort.maxInsertion)%nat; [reflexivity|].
  destruct (limit =? 0)%nat; [reflexivity|].
  destruct (if negb wasBalanced then _ else _) as [data1 limit1]. cbn [fst snd].
  destruct (sort.choosePivot_func less data1 a b) as [pivot0 hint0]. cbn [fst snd].
  destruct (if sort.sortedHint_eqb hint0 sort.decreasingHint then _ else _)
    as [[data2 pivot] hint]. cbn [fst snd].
  destruct (if wasBalanced && wasPartitioned && _ then _ else _) as [data3 done].
  cbn [fst snd].
  destruct done; [reflexivity|].
  destruct ((0 <? a)%nat && negb (sort.Less less data3 (a - 1) pivot)).
  - destruct (sort.partitionEqual_func less data3 a b pivot) as [data4 mid].
    reflexivity.
  - destruct (sort.partition_func less data3 a b pivot) as [[data4 mid] already].
    reflexivity.
Qed.

Lemma sorted_in_join a mid b data (p : A) :
  sorted_in less a mid data -> sorted_in less (S mid) b data ->
  data !! mid = Some p ->
  all_in a mid data (fun x => le less x p) ->
  all_in (S mid) b data (fun x => le less p x) ->
  sorted_in less a b data.
Proof.
  intros Hl Hr Hp Hlow Hhigh i j x y Hai Hij Hjb Hx Hy.
  destruct (decide (j < mid)) as [Hjm|Hjm].
  { apply (Hl i j x y); assumption. }
  destruct (decide (mid < i)) as [Him|Him].
  { apply (Hr i j x y); try assumption; lia. }
  assert (Hxp : le less x p).
  { destruct (decide (i = mid)) as [->|Hne].
    - rewrite Hp in Hx. simplify_eq. apply less_le_refl. exact _.
    - apply (Hlow i x); [lia|lia|exact Hx]. }
  assert (Hpy : le less p y).
  { destruct (decide (j = mid)) as [->|Hne].
    - rewrite Hp in Hy. simplify_eq. apply less_le_refl. exact _.
    - apply (Hhigh j y); [lia|lia|exact Hy]. }
  apply (less_le_trans less x p y); assumption.
Qed.

Lemma sorted_in_append a mid b data :
  sorted_in less a mid data -> sorted_in less mid b data ->
  (forall i j x y, a <= i -> i < mid -> mid <= j -> j < b ->
     data !! i = Some x -> data !! j = Some y -> le less x y) ->
  sorted_in less a b data.
Proof.
  intros Hl Hr Hcross i j x y Hai Hij Hjb Hx Hy.
  destruct (decide (j < mid)) as [Hjm|Hjm].
  { apply (Hl i j x y); assumption. }
  destruct (decide (mid <= i)) as [Him|Him].
  { apply (Hr i j x y); try assumption; lia. }
  apply (Hcross i j x y); try assumption; lia.
Qed.

(** The loop of [pdqsort_func] rearranges [data[a:b]] into order,
    whatever the limit and the two flags, when the fuel exceeds the
    length of the range; more fuel does not change the result. *)
Lemma pdqsort_loop_spec (fuel : nat) :
  forall (fuel' : nat) data a b limit (wasBalanced wasPartitioned : bool),
    a <= b -> b <= length data -> b - a < fuel -> b - a < fuel' ->
    lower_bound less a b data ->
    range_perm a b data
      (sort.pdqsort_loop less fuel data a b limit wasBalanced wasPartitioned) /\
    sorted_in less a b
      (sort.pdqsort_loop less fuel data a b limit wasBalanced wasPartitioned) /\
    sort.pdqsort_loop less fuel' data a b limit wasBalanced wasPartitioned
    = sort.pdqsort_loop less fuel data a b limit wasBalanced wasPartitioned.
Proof.
  induction fuel as [|fuel IH];
    intros fuel' data a b limit wasBalanced wasPartitioned Hab Hlen Hfuel Hfuel' Hlb;
    [lia|].
  destruct fuel' as [|fuel']; [lia|].
  rewrite !pdqsort_loop_unfold.
  destruct (b - a <=? sort.maxInsertion)%nat eqn:Hsmall.
  { destruct (insertionSort_spec less data a b Hab Hlen) as [Hrp Hs].
    split; [exact Hrp|split; [exact Hs|reflexivity]]. }
  apply Nat.leb_gt in Hsmall. unfold sort.maxInsertion in Hsmall.
  destruct (limit =? 0)%nat.
  { destruct (heapSort_spec less data a b Hab Hlen) as [Hrp Hs].
    split; [exact Hrp|split; [exact Hs|reflexivity]]. }
  cbv zeta.
  (* breakPatterns *)
  set (bp := if negb wasBalanced then _ else _).
  assert (Hrp1 : range_perm a b data bp.1).
  { unfold bp. destruct (negb wasBalanced); cbn [fst].
    - apply breakPatterns_perm; assumption.
    - apply range_perm_refl. }
  assert (Hlen1 : b <= length bp.1).
  { rewrite (range_perm_length _ _ _ _ Hrp1). exact Hlen. }
  generalize dependent bp. intros [data1 limit1]. cbn [fst snd]. intros Hrp1 Hlen1.
  (* choosePivot and the reversal *)
  pose proof (choosePivot_range less data1 a b ltac:(lia)) as Hpivot0.
  set (cp := sort.choosePivot_func less data1 a b) in *.
  set (rv := if sort.sortedHint_eqb cp.2 sort.decreasingHint then _ else _).
  assert (Hrv : range_perm a b data1 rv.1.1 /\ a <= rv.1.2 /\ rv.1.2 < b).
  { unfold rv. destruct (sort.sortedHint_eqb cp.2 sort.decreasingHint); cbn [fst snd].
    - split; [apply reverseRange_perm; lia|lia].
    - split; [apply range_perm_refl|lia]. }
  generalize dependent rv. intros [[data2 pivot] hint]. cbn [fst snd].
  intros (Hrp2 & Hpa & Hpb).
  assert (Hrp02 : range_perm a b data data2).
  { eapply range_perm_trans; eassumption. }
  assert (Hlen2 : b <= length data2).
  { rewrite (range_perm_length _ _ _ _ Hrp02). exact Hlen. }
  assert (Hlb2 : lower_bound less a b data2).
  { apply (lower_bound_range_perm less a b data); assumption. }
  (* partialInsertionSort *)
  set (pi := if wasBalanced && wasPartitioned && _ then _ else _).
  assert (Hpi : range_perm a b data2 pi.1 /\ (pi.2 = true -> sorted_in less a b pi.1)).
  { unfold pi. destruct (wasBalanced && wasPartitioned && _).
    - apply (partialInsertionSort_spec less); [lia|assumption|assumption].
    - cbn [fst snd]. split; [apply range_perm_refl|discriminate]. }
  generalize dependent pi. intros [data3 done]. cbn [fst snd].
  intros (Hrp3 & Hdone).
  assert (Hrp03 : range_perm a b data data3).
  { eapply range_perm_trans; eassumption. }
  destruct done.
  { split; [exact Hrp03|]. split; [apply Hdone|]; reflexivity. }
  clear Hdone.
  assert (Hlen3 : b <= length data3).
  { rewrite (range_perm_length _ _ _ _ Hrp03). exact Hlen. }
  assert (Hlb3 : lower_bound less a b data3).
  { apply (lower_bound_range_perm less a b data); assumption. }
  destruct (lookup_lt_is_Some_2 data3 pivot) as [p Hp]; [lia|].
  destruct ((0 <? a)%nat && negb (sort.Less less data3 (a - 1) pivot)) eqn:Hequal.
  - (* the pivot is the least element: partitionEqual *)
    apply andb_true_iff in Hequal. destruct Hequal as [Ha Hmin].
    apply Nat.ltb_lt in Ha.
    destruct (lookup_lt_is_Some_2 data3 (a - 1)) as [x0 Hx0]; [lia|].
    rewrite (Less_lookup less data3 _ _ x0 p Hx0 Hp) in Hmin.
    apply negb_true_iff in Hmin.
    destruct (partitionEqual_spec less data3 a b pivot p)
      as (Hrp4 & Hma & Hmb & Hpa4 & Hleft & Hright); try assumption.
    set (pe := sort.partitionEqual_func less data3 a b pivot) in *.
    generalize dependent pe. intros [data4 mid]. cbn [fst snd].
    intros Hrp4 Hma Hmb Hpa4 Hleft Hright.
    assert (Hlen4 : b <= length data4).
    { rewrite (range_perm_length _ _ _ _ Hrp4). exact Hlen3. }
    assert (Hlb4 : lower_bound less a b data4).
    { apply (lower_bound_range_perm less a b data3); assumption. }
    assert (Hx04 : data4 !! (a - 1) = Some x0).
    { rewrite (proj2 Hrp4) by lia. exact Hx0. }
    assert (Hleft' : all_in a mid data4 (fun x => le less x p)).
    { intros k x Hk1 Hk2 Hx. destruct (decide (k = a)) as [->|Hne].
      - rewrite Hpa4 in Hx. simplify_eq. apply less_le_refl. exact _.
      - apply (Hleft k x); [lia|lia|exact Hx]. }
    destruct (IH fuel' data4 mid b limit1 wasBalanced wasPartitioned)
      as (Hrp5 & Hs5 & Heq5); try lia.
    { intros w _ Hw k y Hk1 Hk2 Hy.
      apply (less_le_trans less w p y).
      - apply (Hleft' (mid - 1) w); [lia|lia|exact Hw].
      - apply less_lt_le; [exact _|]. apply (Hright k y); assumption. }
    rewrite Heq5.
    set (data5 := sort.pdqsort_loop less fuel data4 mid b limit1 _ _) in *.
    split; [|split; [|reflexivity]].
    { eapply range_perm_trans; [exact Hrp03|].
      eapply range_perm_trans; [exact Hrp4|].
      eapply range_perm_widen; [| |exact Hrp5]; lia. }
    assert (Hlb5 : all_in a b data5 (fun y => le less p y)).
    { apply (range_perm_all_in a b data4); [lia| |].
      - eapply range_perm_widen; [| |exact Hrp5]; lia.
      - intros k y Hk1 Hk2 Hy.
        apply (less_le_trans less p x0 y); [exact Hmin|].
        apply (Hlb4 x0 Ha Hx04 k y); assumption. }
    assert (Hleft5 : all_in a mid data5 (fun x => le less x p)).
    { apply (all_in_outside a mid mid b data4); [lia|exact Hrp5|exact Hleft']. }
    apply (sorted_in_append a mid b).
    + intros i j x y Hi Hij Hj Hx Hy.
      apply (less_le_trans less x p y).
      * apply (Hleft5 i x); [lia|lia|exact Hx].
      * apply (Hlb5 j y); [lia|lia|exact Hy].
    + exact Hs5.
    + intros i j x y Hi1 Hi2 Hj1 Hj2 Hx Hy.
      apply (less_le_trans less x p y).
      * apply (Hleft5 i x); [lia|lia|exact Hx].
      * apply (Hlb5 j y); [lia|lia|exact Hy].
  - (* the partition around the pivot and the two recursive sorts *)
    clear Hequal.
    destruct (partition_spec less data3 a b pivot p)
      as (Hrp4 & Hma & Hmb & Hpm & Hleft & Hright); try assumption.
    set (pt := sort.partition_func less data3 a b pivot) in *.
    generalize dependent pt. intros [[data4 mid] already]. cbn [fst snd].
    intros Hrp4 Hma Hmb Hpm Hleft Hright.
    assert (Hlen4 : b <= length data4).
    { rewrite (range_perm_length _ _ _ _ Hrp4). exact Hlen3. }
    assert (Hlb4 : lower_bound less a b data4).
    { apply (lower_bound_range_perm less a b data3); assumption. }
    assert (Hlbl : lower_bound less a mid data4).
    { apply (lower_bound_narrow less a b); [lia|exact Hlb4]. }
    assert (Hlbr : lower_bound less (mid + 1) b data4).
    { intros w _ Hw. replace (mid + 1 - 1) with mid in Hw by lia.
      rewrite Hpm in Hw. simplify_eq.
      intros k y Hk1 Hk2 Hy. apply (Hright k y); [lia|lia|exact Hy]. }
    assert (Hfinish : forall data6,
              range_perm a b data4 data6 ->
              data6 !! mid = Some p ->
              all_in a mid data6 (fun x => less x p = true) ->
              all_in (S mid) b data6 (fun x => less x p = false) ->
              sorted_in less a mid data6 ->
              sorted_in less (mid + 1) b data6 ->
              range_perm a b data data6 /\ sorted_in less a b data6).
    { intros data6 Hrp6 Hp6 Hl6 Hr6 Hsl Hsr. split.
      - eapply range_perm_trans; [exact Hrp03|].
        eapply range_perm_trans; [exact Hrp4|exact Hrp6].
      - apply (sorted_in_join a mid b data6 p); try assumption.
        + replace (S mid) with (mid + 1) by lia. exact Hsr.
        + eapply all_in_impl; [|exact Hl6]. intros x Hx.
          apply less_lt_le; [exact _|exact Hx]. }
    destruct (mid - a <? b - mid)%nat.
    + destruct (IH fuel' data4 a mid limit1 true true)
        as (Hrp5 & Hs5 & Heq5); try lia.
      { exact Hlbl. }
      rewrite Heq5.
      set (data5 := sort.pdqsort_loop less fuel data4 a mid limit1 true true) in *.
      destruct (IH fuel' data5 (mid + 1) b limit1 ((b - a) / 8 <=? mid - a)%nat already)
        as (Hrp6 & Hs6 & Heq6); try lia.
      { rewrite (range_perm_length _ _ _ _ Hrp5). lia. }
      { intros w Hpos Hw k y Hk1 Hk2 Hy.
        apply (Hlbr w Hpos) with (k := k); try assumption.
        - rewrite <- (proj2 Hrp5) by lia. exact Hw.
        - rewrite <- (proj2 Hrp5) by lia. exact Hy. }
      rewrite Heq6.
      apply and_assoc. split; [|reflexivity].
      apply Hfinish.
      * eapply range_perm_trans.
        -- eapply range_perm_widen; [| |exact Hrp5]; lia.
        -- eapply range_perm_widen; [| |exact Hrp6]; lia.
      * rewrite (proj2 Hrp6) by lia. rewrite (proj2 Hrp5) by lia. exact Hpm.
      * apply (all_in_outside a mid (mid + 1) b data5); [lia|exact Hrp6|].
        apply (range_perm_all_in a mid data4); [lia|exact Hrp5|exact Hleft].
      * replace (S mid) with (mid + 1) by lia.
        apply (range_perm_all_in (mid + 1) b data5); [lia|exact Hrp6|].
        apply (all_in_outside (mid + 1) b a mid data4); [lia|exact Hrp5|].
        replace (mid + 1) with (S mid) by lia. exact Hright.
      * apply (sorted_in_outside less a mid (mid + 1) b data5);
          [lia|exact Hrp6|exact Hs5].
      * exact Hs6.
    + destruct (IH fuel' data4 (mid + 1) b limit1 true true)
        as (Hrp5 & Hs5 & Heq5); try lia.
      { exact Hlbr. }
      rewrite Heq5.
      set (data5 := sort.pdqsort_loop less fuel data4 (mid + 1) b limit1 true true) in *.
      destruct (IH fuel' data5 a mid limit1 ((b - a) / 8 <=? b - mid)%nat already)
        as (Hrp6 & Hs6 & Heq6); try lia.
      { rewrite (range_perm_length _ _ _ _ Hrp5). lia. }
      { intros w Hpos Hw k y Hk1 Hk2 Hy.
        apply (Hlbl w Hpos) with (k := k); try assumption.
        - rewrite <- (proj2 Hrp5) by lia. exact Hw.
        - rewrite <- (proj2 Hrp5) by lia. exact Hy. }
      rewrite Heq6.
      apply and_assoc. split; [|reflexivity].
      apply Hfinish.
      * eapply range_perm_trans.
        -- eapply range_perm_widen; [| |exact Hrp5]; lia.
        -- eapply range_perm_widen; [| |exact Hrp6]; lia.
      * rewrite (proj2 Hrp6) by lia. rewrite (proj2 Hrp5) by lia. exact Hpm.
      * apply (range_perm_all_in a mid data5); [lia|exact Hrp6|].
        apply (all_in_outside a mid (mid + 1) b data4); [lia|exact Hrp5|exact Hleft].
      * replace (S mid) with (mid + 1) by lia.
        apply (all_in_outside (mid + 1) b a mid data5); [lia|exact Hrp6|].
        apply (range_perm_all_in (mid + 1) b data4); [lia|exact Hrp5|].
        replace (mid + 1) with (S mid) by lia. exact Hright.
      * exact Hs6.
      * apply (sorted_in_outside less (mid + 1) b a mid data5);
          [lia|exact Hrp6|exact Hs5].
Qed.

(** The fuel [pdqsort_func] gives its loop is enough: more of it gives
    the same slice. *)
Lemma pdqsort_func_fuel (fuel : nat) data a b limit :
  a <= b -> b <= length data -> b - a < fuel ->
  lower_bound less a b data ->
  sort.pdqsort_loop less fuel data a b limit true true
  = sort.pdqsort_func less data a b limit.
Proof.
  intros Hab Hlen Hfuel Hlb. unfold sort.pdqsort_func.
  apply (pdqsort_loop_spec (S (b - a)) fuel data a b limit true true);
    try assumption; lia.
Qed.

(** [sort.Slice] returns a permutation of the slice in which no element
    is less than one before it. *)
Theorem Slice_sorts (x : list A) :
  sort.Slice less x ≡ₚ x /\ sorted less (sort.Slice less x).
Proof.
  unfold sort.Slice, sort.pdqsort_func.
  destruct (pdqsort_loop_spec (S (length x - 0)) (S (length x - 0)) x 0 (length x)
              (sort.Len (length x)) true true) as (Hrp & Hs & _); try lia.
  - intros w Hpos. lia.
  - split; [exact (proj1 Hrp)|].
    unfold sorted. rewrite (range_perm_length _ _ _ _ Hrp). exact Hs.
Qed.

Lemma sorted_IsSorted (x : list A) : sorted less x -> sort.IsSorted less x = true.
Proof.
  unfold sorted. induction x as [|y x' IH]; intros Hs; [reflexivity|].
  destruct x' as [|z x'']; [reflexivity|].
  cbn [sort.IsSorted]. apply andb_true_iff. split.
  - apply negb_true_iff. apply (Hs 0 1 y z); cbn [length]; auto with lia.
  - apply IH. intros i j u v Hi Hij Hj Hu Hv.
    apply (Hs (S i) (S j) u v); cbn [length] in *; auto with lia.
Qed.

(** After [sort.Slice], [sort.SliceIsSorted] holds. *)
Corollary Slice_IsSorted (x : list A) : sort.IsSorted less (sort.Slice less x) = true.
Proof. apply sorted_IsSorted. apply Slice_sorts. Qed.

End SortMain.

(** ** The sort by deactivation date *)

Lemma After_asym (t u : time.Time) : time.After t u = true -> time.After u t = false.
Proof.
  unfold time.After. intros H. apply not_true_iff_false. intros H'.
  rewrite !orb_true_iff, !andb_true_iff, !orb_true_iff, !andb_true_iff,
    !Z.ltb_lt, !Z.eqb_eq in H, H'. lia.
Qed.

Lemma After_cotrans (t u v : time.Time) :
  time.After t v = true -> time.After t u = true \/ time.After u v = true.
Proof.
  unfold time.After. intros H.
  rewrite !orb_true_iff, !andb_true_iff, !orb_true_iff, !andb_true_iff,
    !Z.ltb_lt, !Z.eqb_eq in *. lia.
Qed.

(** The comparator, read on the classes of the two dates: days first, the
    latest at the head, then the texts that are no dates, then the
    records without a date. *)
Lemma dateLess_class (empI empJ : EmployeeInfo) :
  dateLess empI empJ =
  match dateClass empI, dateClass empJ with
  | Parsed tI, Parsed tJ => time.After tI tJ
  | Parsed _, _ => true
  | Unparseable, Empty => true
  | _, _ => false
  end.
Proof.
  unfold dateLess, dateClass.
  destruct (DeactivatedDate empI) as [|cI dI]; destruct (DeactivatedDate empJ) as [|cJ dJ];
    cbn [String.eqb andb]; try reflexivity.
  - destruct (time.Parse (String cI dI)); reflexivity.
  - destruct (time.Parse (String cI dI)), (time.Parse (String cJ dJ)); reflexivity.
Qed.

#[export] Instance dateLess_StrictWeak : StrictWeak dateLess.
Proof.
  split.
  - intros x y. rewrite !dateLess_class.
    destruct (dateClass x) as [t| |], (dateClass y) as [u| |];
      try discriminate; try reflexivity. apply After_asym.
  - intros x y z. rewrite !dateLess_class.
    destruct (dateClass x) as [t| |], (dateClass y) as [u| |],
      (dateClass z) as [v| |]; try discriminate; auto.
    apply After_cotrans.
Qed.

Section DateSort.
Context `{!sort.Random}.

Lemma sortStage_sorts (query : string) (employees : list EmployeeInfo) :
  wantsDateSort query = true ->
  sortStage query employees = sort.Slice dateLess employees.
Proof.
  unfold sortStage, wantsDateSort. intros Hwants. rewrite Hwants. reflexivity.
Qed.

Lemma sortStage_keeps (query : string) (employees : list EmployeeInfo) :
  wantsDateSort query = false -> sortStage query employees = employees.
Proof.
  unfold sortStage, wantsDateSort. intros Hwants. rewrite Hwants. reflexivity.
Qed.

(** C2.  When the query asks for the sort, the records come out
    rearranged so that, for every record and every later one: two
    parseable dates are in descending order (the later record's day is
    not after the earlier one's), no parseable date follows an
    unparseable or an empty one, and no unparseable date follows an empty
    one; two empty dates compare as equal, and so do two unparseable
    ones. *)
Theorem date_sort_order (query : string) (employees : list EmployeeInfo) :
  wantsDateSort query = true ->
  sortStage query employees ≡ₚ employees /\
  (forall i j empI empJ,
     i < j ->
     sortStage query employees !! i = Some empI ->
     sortStage query employees !! j = Some empJ ->
     match dateClass empI, dateClass empJ with
     | Parsed tI, Parsed tJ => time.After tJ tI = false
     | Parsed _, _ => True
     | Unparseable, Parsed _ => False
     | Unparseable, _ => True
     | Empty, Empty => True
     | Empty, _ => False
     end) /\
  (forall empI empJ,
     (dateClass empI = Empty /\ dateClass empJ = Empty) \/
     (dateClass empI = Unparseable /\ dateClass empJ = Unparseable) ->
     dateLess empI empJ = false /\ dateLess empJ empI = false).
Proof.
  intros Hwants. rewrite (sortStage_sorts query employees Hwants).
  destruct (Slice_sorts dateLess employees) as [Hperm Hsorted].
  split; [exact Hperm|]. split.
  - intros i j empI empJ Hij HI HJ.
    assert (Hle : le dateLess empI empJ).
    { apply (Hsorted i j empI empJ); try assumption; [lia|].
      apply lookup_lt_Some in HJ. exact HJ. }
    unfold le in Hle. rewrite dateLess_class in Hle.
    destruct (dateClass empI), (dateClass empJ); try exact I; try discriminate.
    exact Hle.
  - intros empI empJ Hsame. rewrite !dateLess_class.
    destruct Hsame as [[-> ->]|[-> ->]]; split; reflexivity.
Qed.

End DateSort.

Lemma date_sort_order_witness :
  @sortStage sort.xorshift "last 2 deactivated" fiveDates
    ≡ₚ fiveDates /\
  map DeactivatedDate
    (@sortStage sort.xorshift "last 2 deactivated" fiveDates)
  = ["2024-01-01"; "2023-06-01"; "2023-01-01"; "2022-01-01"; "2021-01-01"].
Proof.
  split.
  - exact (proj1 (@date_sort_order sort.xorshift
                    "last 2 deactivated" fiveDates eq_refl)).
  - reflexivity.
Defined.

(** ** Stability of the sort *)

Section Stability.
Context {A : Type} (less : A -> A -> bool) `{!StrictWeak less}.
Implicit Types (data : list A) (a b i j k : nat) (x y z e : A).

Lemma equiv_not_less e x y :
  equiv less e x = true -> equiv less e y = true -> less x y = false.
Proof.
  unfold equiv. rewrite !andb_true_iff, !negb_true_iff.
  intros [Hex Hxe] [Hey Hye].
  destruct (less x y) eqn:Hxy; [|reflexivity].
  destruct (less_cotrans less x e y Hxy) as [H|H]; congruence.
Qed.

Lemma Swap_adjacent data j x y :
  data !! j = Some y -> data !! S j = Some x ->
  data = take j data ++ y :: x :: drop (S (S j)) data /\
  sort.Swap data (S j) j = take j data ++ x :: y :: drop (S (S j)) data.
Proof.
  intros Hy Hx.
  assert (Hdata : data = take j data ++ y :: x :: drop (S (S j)) data).
  { rewrite <- (take_drop j data) at 1. f_equal.
    rewrite (drop_S data y j Hy). f_equal. apply drop_S. exact Hx. }
  split; [exact Hdata|].
  unfold sort.Swap. rewrite Hx, Hy.
  assert (Hlen : length (take j data) = j).
  { apply length_take_le. apply lookup_lt_Some in Hy. lia. }
  rewrite Hdata at 1.
  rewrite (insert_app_r_alt (take j data) _ (S j)) by lia.
  rewrite Hlen. replace (S j - j) with 1 by lia. cbn [insert list_insert].
  rewrite (insert_app_r_alt (take j data) _ j) by lia.
  rewrite Hlen, Nat.sub_diag. reflexivity.
Qed.

Lemma filter_swap_adjacent (p : A -> bool) (l1 l2 : list A) x y :
  (p x = true -> p y = true -> False) ->
  List.filter p (l1 ++ x :: y :: l2) = List.filter p (l1 ++ y :: x :: l2).
Proof.
  intros Hnot. rewrite !List.filter_app. f_equal. cbn [List.filter].
  destruct (p x) eqn:Hx, (p y) eqn:Hy; try reflexivity.
  exfalso. apply Hnot; reflexivity.
Qed.

Lemma insertDown_stable e a (j : nat) :
  forall data,
    j < length data ->
    stable_on less e data (sort.insertDown less a j data).
Proof.
  unfold stable_on.
  induction j as [|j' IH]; intros data Hlen; [reflexivity|].
  cbn [sort.insertDown].
  destruct (lookup_lt_is_Some_2 data (S j')) as [x Hx]; [lia|].
  destruct (lookup_lt_is_Some_2 data j') as [y Hy]; [lia|].
  rewrite (Less_lookup less data (S j') j' x y Hx Hy).
  destruct ((a <? S j')%nat && less x y) eqn:Htest; [|reflexivity].
  apply andb_true_iff in Htest. destruct Htest as [_ Hxy].
  rewrite IH by (rewrite Swap_length; lia).
  destruct (Swap_adjacent data j' x y Hy Hx) as [Hdata Hswap].
  rewrite Hswap. rewrite Hdata at 3.
  apply filter_swap_adjacent.
  intros Hex Hey. rewrite (equiv_not_less e x y Hex Hey) in Hxy. discriminate.
Qed.

Lemma insertDown_length a (j : nat) :
  forall data, length (sort.insertDown less a j data) = length data.
Proof.
  induction j as [|j' IH]; intros data; [reflexivity|].
  cbn [sort.insertDown].
  destruct ((a <? S j')%nat && sort.Less less data (S j') j'); [|reflexivity].
  rewrite IH. apply Swap_length.
Qed.

Lemma insertionLoop_stable e a (n : nat) :
  forall i data,
    i + n <= length data ->
    stable_on less e data (sort.insertionLoop less a n i data).
Proof.
  unfold stable_on.
  induction n as [|n IH]; intros i data Hlen; [reflexivity|].
  cbn [sort.insertionLoop].
  rewrite IH by (rewrite insertDown_length; lia).
  apply (insertDown_stable e a i data). lia.
Qed.

(** A slice of at most twelve elements is sorted by insertion. *)
Lemma Slice_short `{!sort.Random} (x : list A) :
  length x <= 12 ->
  sort.Slice less x = sort.insertionSort_func less x 0 (length x).
Proof.
  intros Hshort. unfold sort.Slice, sort.pdqsort_func.
  rewrite pdqsort_loop_unfold.
  replace (length x - 0) with (length x) by lia.
  assert (Hle : (length x <=? sort.maxInsertion)%nat = true).
  { apply Nat.leb_le. exact Hshort. }
  rewrite Hle. reflexivity.
Qed.

(** On at most twelve elements [sort.Slice] is stable. *)
Lemma Slice_short_stable `{!sort.Random} e (x : list A) :
  length x <= 12 -> stable_on less e x (sort.Slice less x).
Proof.
  intros Hshort. rewrite (Slice_short x Hshort).
  unfold sort.insertionSort_func.
  destruct x as [|x0 x']; [reflexivity|].
  apply insertionLoop_stable. cbn [length]. lia.
Qed.

End Stability.

Section DateStability.
Context `{!sort.Random}.

(** C3, as the code has it.  The sort keeps the records of equal date
    (both empty, both unparseable, or the same day) in their order when
    there are at most twelve records; whatever their number the result
    is a rearrangement of the records; and without a sort keyword the
    records are left as they are. *)
Theorem date_sort_stable_when_short (query : string) (employees : list EmployeeInfo) :
  (length employees <= 12 ->
   forall emp, stable_on dateLess emp employees (sortStage query employees)) /\
  sortStage query employees ≡ₚ employees /\
  (wantsDateSort query = false -> sortStage query employees = employees).
Proof.
  split; [|split].
  - intros Hshort emp. destruct (wantsDateSort query) eqn:Hwants.
    + rewrite (sortStage_sorts query employees Hwants).
      apply (Slice_short_stable dateLess emp employees Hshort).
    + rewrite (sortStage_keeps query employees Hwants). reflexivity.
  - destruct (wantsDateSort query) eqn:Hwants.
    + rewrite (sortStage_sorts query employees Hwants).
      apply (Slice_sorts dateLess employees).
    + rewrite (sortStage_keeps query employees Hwants). reflexivity.
  - apply sortStage_keeps.
Qed.

End DateStability.

Lemma date_sort_stable_when_short_witness :
  length tiedDates <= 12 /\
  wantsDateSort "last 7 deactivated" = true /\
  map FirstName (@sortStage sort.xorshift "last 7 deactivated" tiedDates)
    = ["Gus"; "Bob"; "Eve"; "Cid"; "Fay"; "Ann"; "Dan"] /\
  List.filter (equiv dateLess (dated "Bob" "2023-01-01")) tiedDates
    = [dated "Bob" "2023-01-01"; dated "Eve" "2023-01-01"] /\
  List.filter (equiv dateLess (dated "Cid" "n/a")) tiedDates
    = [dated "Cid" "n/a"; dated "Fay" "n/a"] /\
  List.filter (equiv dateLess (dated "Ann" EmptyString)) tiedDates
    = [dated "Ann" EmptyString; dated "Dan" EmptyString] /\
  (forall emp,
     stable_on dateLess emp tiedDates
       (@sortStage sort.xorshift "last 7 deactivated" tiedDates)) /\
  @sortStage sort.xorshift "last 7 deactivated" tiedDates ≡ₚ tiedDates /\
  @sortStage sort.xorshift "all employees" tiedDates = tiedDates.
Proof.
  split; [simpl; lia|]. split; [reflexivity|]. split; [reflexivity|].
  split; [reflexivity|]. split; [reflexivity|]. split; [reflexivity|].
  split; [|split].
  - apply (proj1 (@date_sort_stable_when_short sort.xorshift
                    "last 7 deactivated" tiedDates)).
    simpl. lia.
  - apply (proj1 (proj2 (@date_sort_stable_when_short sort.xorshift
                           "last 7 deactivated" tiedDates))).
  - apply (proj2 (proj2 (@date_sort_stable_when_short sort.xorshift
                           "all employees" tiedDates))).
    reflexivity.
Defined.

(** C3, as stated, fails: on thirteen records the sort moves the dated
    record to the head through a partition, and leaves the twelve records
    without a date, which compare as equal, as G, C, D, E, F, A, H, I, J,
    K, L, B. *)
Lemma date_sort_unstable_counterexample :
  wantsDateSort "last" = true /\
  map FirstName (@sortStage sort.xorshift "last" thirteen)
    = ["M"; "G"; "C"; "D"; "E"; "F"; "A"; "H"; "I"; "J"; "K"; "L"; "B"] /\
  equiv dateLess (dated "A" EmptyString) (dated "G" EmptyString) = true /\
  ~ stable_on dateLess (dated "A" EmptyString) thirteen
      (@sortStage sort.xorshift "last" thirteen).
Proof.
  split; [reflexivity|]. split; [reflexivity|]. split; [reflexivity|].
  unfold stable_on. vm_compute. discriminate.
Qed.

(** ** The pipeline as a whole *)

Section Pipeline.
Context `{!strings.Text} `{!sort.Random}.

(** Off the lookup path, and when the filtered records decode,
    [ProcessQuery] is the three stages and the formatter in a row. *)
Lemma ProcessQuery_stages (jsonData : list object) (text : string)
    (employees : list EmployeeInfo) :
  isSpecificEmployeeSearch (strings.ToLower text) = false ->
  json.Unmarshal (fst (Get (filterStage jsonData (strings.ToLower text))))
    = (employees, None) ->
  ProcessQuery jsonData text
  = formatStage (strings.ToLower text)
      (limitStage (strings.ToLower text)
         (sortStage (strings.ToLower text) employees)).
Proof.
  intros Hlist Hdecode. unfold ProcessQuery. rewrite Hlist.
  destruct (Get (filterStage jsonData (strings.ToLower text))) as [result jq].
  cbn [fst] in Hdecode. cbn [json.Marshal]. rewrite Hdecode. reflexivity.
Qed.

End Pipeline.

(** The examples of the specification, on the ASCII instance. *)

Example example_last_two_deactivated :
  ProcessQuery (H := strings.ascii) (H0 := sort.xorshift)
    (json.MarshalEmployees fiveDates) "last 2 deactivated"
  = ("Found 2 employees:" +:+ fmt.nl +:+ fmt.nl +:+
     "1. Dan Doe (Deactivated on 2024-01-01)" +:+ fmt.nl +:+
     "2. Bob Doe (Deactivated on 2023-06-01)" +:+ fmt.nl, None).
Proof. vm_compute. reflexivity. Qed.

Example example_when_was_john_doe_deactivated :
  ProcessQuery (H := strings.ascii) (H0 := sort.xorshift)
    (json.MarshalEmployees
       [ {| FirstName := "John"; LastName := "Doe"; Email := EmptyString;
            Title := EmptyString; Deactivated := true;
            DeactivatedDate := "2022-03-15" |} ])
    "when was John Doe deactivated"
  = ("Employee: John Doe" +:+ fmt.nl +:+ "Status: Deactivated" +:+ fmt.nl +:+
     "Deactivation Date: 2022-03-15" +:+ fmt.nl, None).
Proof. vm_compute. reflexivity. Qed.

Example example_show_as_table :
  ProcessQuery (H := strings.ascii) (H0 := sort.xorshift)
    (json.MarshalEmployees [john; jane]) "show as table"
  = ("| Name | Title | Email | Status | Deactivation Date |" +:+ fmt.nl +:+
     "|------|-------|-------|--------|------------------|" +:+ fmt.nl +:+
     "| John Doe | Software Engineer | john.doe@example.com | Active |  |" +:+ fmt.nl +:+
     "| Jane Roe | Marketing Manager | jane.roe@example.com | Active |  |" +:+ fmt.nl,
     None).
Proof. vm_compute. reflexivity. Qed.

(** ** Substrings *)

Lemma HasPrefix_spec (s prefix : string) :
  strings.HasPrefix s prefix = true <-> exists rest, s = prefix +:+ rest.
Proof.
  unfold strings.HasPrefix. revert s.
  induction prefix as [|a p IH]; intros s.
  - split; [intros _; exists s; reflexivity|intros _; destruct s; reflexivity].
  - destruct s as [|b s'].
    + split; [discriminate|]. intros [rest Hrest]. rewrite append_cons in Hrest.
      discriminate.
    + cbn [String.prefix]. destruct (ascii_dec a b) as [->|Hab].
      * rewrite IH. split; intros [rest Hrest]; exists rest.
        -- rewrite append_cons, Hrest. reflexivity.
        -- rewrite append_cons in Hrest. congruence.
      * split; [discriminate|]. intros [rest Hrest]. rewrite append_cons in Hrest.
        congruence.
Qed.

Lemma Contains_unfold (s substr : string) :
  strings.Contains s substr =
  strings.HasPrefix s substr ||
  match s with
  | EmptyString => false
  | String _ s' => strings.Contains s' substr
  end.
Proof. destruct s; reflexivity. Qed.

(** [strings.Contains(s, substr)] holds when [s] is some text, then
    [substr], then some text. *)
Lemma Contains_spec (s substr : string) :
  strings.Contains s substr = true <->
  exists before after, s = before +:+ substr +:+ after.
Proof.
  split.
  - induction s as [|c s' IH]; rewrite Contains_unfold; intros Hc;
      apply orb_true_iff in Hc as [Hp|Hc]; try discriminate.
    + apply HasPrefix_spec in Hp as [rest ->]. exists EmptyString, rest. reflexivity.
    + apply HasPrefix_spec in Hp as [rest ->]. exists EmptyString, rest. reflexivity.
    + destruct (IH Hc) as (before & after & ->).
      exists (String c before), after. rewrite append_cons. reflexivity.
  - intros (before & after & ->).
    induction before as [|c before' IH]; rewrite Contains_unfold.
    + apply orb_true_iff. left. apply HasPrefix_spec. exists after. reflexivity.
    + apply orb_true_iff. right. rewrite append_cons. exact IH.
Qed.

(** A text that contains a word contains what the word contains. *)
Lemma Contains_trans (s word substr : string) :
  strings.Contains s word = true ->
  strings.Contains word substr = true ->
  strings.Contains s substr = true.
Proof.
  rewrite !Contains_spec. intros (b1 & a1 & ->) (b2 & a2 & ->).
  exists (b1 +:+ b2), (a2 +:+ a1). rewrite !append_assoc. reflexivity.
Qed.

Lemma Contains_none (s word substr : string) :
  strings.Contains s substr = false ->
  strings.Contains word substr = true ->
  strings.Contains s word = false.
Proof.
  intros Hnone Hword. destruct (strings.Contains s word) eqn:Hs; [|reflexivity].
  rewrite (Contains_trans s word substr Hs Hword) in Hnone. discriminate.
Qed.

(** ** More on the two formatters and on the answers of [ProcessQuery] *)

Lemma concat_cons (x : string) (l : list string) :
  String.concat EmptyString (x :: l) = x +:+ String.concat EmptyString l.
Proof.
  destruct l as [|y l']; [|reflexivity].
  simpl. rewrite append_empty_r. reflexivity.
Qed.

Lemma listLoop_lines (employees : list EmployeeInfo) (i : nat) (result : string) :
  listLoop i employees result
  = result +:+ String.concat EmptyString (imap (fun k => listLine (i + k)) employees).
Proof.
  revert i result. induction employees as [|emp l IH]; intros i result.
  - simpl. rewrite append_empty_r. reflexivity.
  - cbn [listLoop]. rewrite IH, imap_cons, concat_cons, append_assoc.
    rewrite Nat.add_0_r. do 3 f_equal. apply imap_ext. intros k x _. simpl.
    f_equal. lia.
Qed.

Lemma listLine_text (i : nat) (emp : EmployeeInfo) :
  listLine i emp =
  fmt.d (i + 1) +:+ ". " +:+ FirstName emp +:+ " " +:+ LastName emp
    +:+ (if String.eqb (Title emp) EmptyString then EmptyString
         else " - " +:+ Title emp)
    +:+ (if Deactivated emp
         then if String.eqb (DeactivatedDate emp) EmptyString
              then " (Deactivated)"
              else " (Deactivated on " +:+ DeactivatedDate emp +:+ ")"
         else EmptyString)
    +:+ fmt.nl.
Proof.
  unfold listLine.
  destruct (String.eqb (Title emp) EmptyString), (Deactivated emp),
    (String.eqb (DeactivatedDate emp) EmptyString);
    cbn [negb]; rewrite ?append_assoc; reflexivity.
Qed.

(** X1.  On a non-empty list, [FormatResults] writes the header
    ["Found <n> employees:"], an empty line, and one line per record in
    the order of the list; the line of the record at index [i] starts
    with the number [i + 1], then the two names, then the title after
    [" - "] when there is one, then the deactivation with its date when
    there is one. *)
Theorem list_layout (employees : list EmployeeInfo) :
  employees <> [] ->
  FormatResults employees
  = ("Found " +:+ fmt.d (length employees) +:+ " employees:" +:+ fmt.nl +:+ fmt.nl
       +:+ String.concat EmptyString (imap listLine employees), None) /\
  length (imap listLine employees) = length employees /\
  forall i emp, employees !! i = Some emp ->
    imap listLine employees !! i = Some (listLine i emp) /\
    listLine i emp =
    fmt.d (i + 1) +:+ ". " +:+ FirstName emp +:+ " " +:+ LastName emp
      +:+ (if String.eqb (Title emp) EmptyString then EmptyString
           else " - " +:+ Title emp)
      +:+ (if Deactivated emp
           then if String.eqb (DeactivatedDate emp) EmptyString
                then " (Deactivated)"
                else " (Deactivated on " +:+ DeactivatedDate emp +:+ ")"
           else EmptyString)
      +:+ fmt.nl.
Proof.
  intros Hne. split; [|split].
  - unfold FormatResults. destruct employees as [|emp l]; [contradiction|].
    cbn [length Nat.eqb]. rewrite listLoop_lines. rewrite !append_assoc.
    reflexivity.
  - apply length_imap.
  - intros i emp Hi. split; [|apply listLine_text].
    rewrite list_lookup_imap, Hi. reflexivity.
Qed.

Lemma list_layout_witness :
  FormatResults [john; dated "Ann" "2023-01-01"; dated "Bob" EmptyString]
  = ("Found 3 employees:" +:+ fmt.nl +:+ fmt.nl +:+
     "1. John Doe - Software Engineer" +:+ fmt.nl +:+
     "2. Ann Doe (Deactivated on 2023-01-01)" +:+ fmt.nl +:+
     "3. Bob Doe (Deactivated)" +:+ fmt.nl, None).
Proof.
  destruct (list_layout [john; dated "Ann" "2023-01-01"; dated "Bob" EmptyString])
    as [Hlayout _]; [discriminate|].
  rewrite Hlayout. vm_compute. reflexivity.
Defined.

Lemma tableRow_shown (emp : EmployeeInfo) :
  tableRow (Typed.shown emp) = tableRow emp.
Proof.
  unfold Typed.shown. destruct (Deactivated emp) eqn:Hd; [reflexivity|].
  unfold tableRow. cbn [FirstName LastName Email Title Deactivated DeactivatedDate].
  rewrite Hd. reflexivity.
Qed.

Lemma listLine_shown (i : nat) (emp : EmployeeInfo) :
  listLine i (Typed.shown emp) = listLine i emp.
Proof.
  unfold Typed.shown. destruct (Deactivated emp) eqn:Hd; [reflexivity|].
  unfold listLine. cbn [FirstName LastName Email Title Deactivated DeactivatedDate].
  rewrite Hd. reflexivity.
Qed.

Lemma narrative_shown (emp : EmployeeInfo) :
  narrative (Typed.shown emp) = narrative emp.
Proof.
  unfold Typed.shown. destruct (Deactivated emp) eqn:Hd; [reflexivity|].
  unfold narrative. cbn [FirstName LastName Email Title Deactivated DeactivatedDate].
  rewrite Hd. reflexivity.
Qed.

(** X2.  A deactivation date kept on an active record is never shown:
    the table, the list and the narrative are the same as for the
    record without its date. *)
Theorem active_date_never_shown (employees : list EmployeeInfo) :
  FormatAsMarkdownTable (map Typed.shown employees) = FormatAsMarkdownTable employees /\
  FormatResults (map Typed.shown employees) = FormatResults employees /\
  (forall emp, narrative (Typed.shown emp) = narrative emp) /\
  (forall emp, Deactivated emp = false ->
     DeactivatedDate (Typed.shown emp) = EmptyString).
Proof.
  split; [|split; [|split]].
  - unfold FormatAsMarkdownTable. rewrite length_map.
    destruct (length employees =? 0)%nat; [reflexivity|].
    rewrite !fold_left_rows, map_map.
    do 3 f_equal. apply map_ext. intros emp. apply tableRow_shown.
  - unfold FormatResults. rewrite length_map.
    destruct (length employees =? 0)%nat; [reflexivity|].
    rewrite !listLoop_lines. do 3 f_equal.
    rewrite imap_fmap. apply imap_ext. intros i emp _. apply listLine_shown.
  - apply narrative_shown.
  - intros emp Hd. unfold Typed.shown. rewrite Hd. reflexivity.
Qed.

Lemma formatStage_no_error `{!strings.Text} (query : string)
    (employees : list EmployeeInfo) :
  snd (formatStage query employees) = None.
Proof.
  unfold formatStage, FormatAsMarkdownTable, FormatResults.
  destruct (_ || _); destruct (length employees =? 0)%nat; reflexivity.
Qed.

Lemma append_head (c : ascii) (s t : string) : String c s +:+ t <> EmptyString.
Proof. rewrite append_cons. discriminate. Qed.

Lemma formatStage_not_empty `{!strings.Text} (query : string)
    (employees : list EmployeeInfo) :
  fst (formatStage query employees) <> EmptyString.
Proof.
  unfold formatStage, FormatAsMarkdownTable, FormatResults.
  destruct (_ || _); destruct (length employees =? 0)%nat; cbn [fst];
    try discriminate.
  - rewrite fold_left_rows. unfold tableHeader.
    change (EmptyString +:+ ?x) with x. rewrite !append_assoc. apply append_head.
  - rewrite listLoop_lines, !append_assoc. apply append_head.
Qed.

Lemma narrative_not_empty (emp : EmployeeInfo) : narrative emp <> EmptyString.
Proof.
  unfold narrative.
  destruct (negb (String.eqb (Title emp) EmptyString)),
    (negb (String.eqb (Email emp) EmptyString)), (Deactivated emp),
    (negb (String.eqb (DeactivatedDate emp) EmptyString));
    rewrite !append_assoc; apply append_head.
Qed.

Lemma saveError_saved (saved e : option error) :
  saved <> None -> json.saveError saved e <> None.
Proof. destruct saved; [discriminate|contradiction]. Qed.

Lemma saveError_new (saved e : option error) :
  e <> None -> json.saveError saved e <> None.
Proof. destruct saved; [discriminate|]. intros He. exact He. Qed.

Lemma boolField_notBool (vm : object) (k : string) :
  Typed.notBool vm k = true -> snd (json.boolField vm k) <> None.
Proof.
  unfold Typed.notBool, json.boolField.
  destruct (vm !! k) as [[| | |]|]; discriminate.
Qed.

Lemma stringField_notString (vm : object) (k : string) :
  Typed.notString vm k = true -> snd (json.stringField vm k) <> None.
Proof.
  unfold Typed.notString, json.stringField.
  destruct (vm !! k) as [[| | |]|]; discriminate.
Qed.

Lemma unmarshalEmployee_saved (vm : object) (saved : option error) :
  saved <> None -> snd (json.unmarshalEmployee vm saved) <> None.
Proof.
  intros Hsaved. unfold json.unmarshalEmployee.
  destruct (json.boolField vm "deactivated") as [deactivated e1].
  destruct (json.stringField vm "deactivated_date") as [date e2].
  destruct (json.stringField vm "email") as [email e3].
  destruct (json.stringField vm "first_name") as [first e4].
  destruct (json.stringField vm "last_name") as [last e5].
  destruct (json.stringField vm "title") as [title e6].
  cbn [snd]. repeat apply saveError_saved. exact Hsaved.
Qed.

(** A member of the wrong type under the name of a field is a decoding
    error. *)
Lemma unmarshalEmployee_misTyped (vm : object) (saved : option error) :
  Typed.misTyped vm = true -> snd (json.unmarshalEmployee vm saved) <> None.
Proof.
  unfold Typed.misTyped. rewrite !orb_true_iff.
  intros Hmis. unfold json.unmarshalEmployee.
  pose proof (boolField_notBool vm "deactivated") as H1.
  pose proof (stringField_notString vm "deactivated_date") as H2.
  pose proof (stringField_notString vm "email") as H3.
  pose proof (stringField_notString vm "first_name") as H4.
  pose proof (stringField_notString vm "last_name") as H5.
  pose proof (stringField_notString vm "title") as H6.
  destruct (json.boolField vm "deactivated") as [deactivated e1].
  destruct (json.stringField vm "deactivated_date") as [date e2].
  destruct (json.stringField vm "email") as [email e3].
  destruct (json.stringField vm "first_name") as [first e4].
  destruct (json.stringField vm "last_name") as [last e5].
  destruct (json.stringField vm "title") as [title e6].
  cbn [snd] in *.
  destruct Hmis as [[[[[Hm|Hm]|Hm]|Hm]|Hm]|Hm].
  - do 5 apply saveError_saved. apply saveError_new. exact (H1 Hm).
  - do 4 apply saveError_saved. apply saveError_new. exact (H2 Hm).
  - do 3 apply saveError_saved. apply saveError_new. exact (H3 Hm).
  - do 2 apply saveError_saved. apply saveError_new. exact (H4 Hm).
  - do 1 apply saveError_saved. apply saveError_new. exact (H5 Hm).
  - apply saveError_new. exact (H6 Hm).
Qed.

Lemma unmarshalArray_saved (doc : list object) (saved : option error) :
  saved <> None -> snd (json.unmarshalArray doc saved) <> None.
Proof.
  revert saved. induction doc as [|vm doc IH]; intros saved Hsaved; [exact Hsaved|].
  cbn [json.unmarshalArray].
  pose proof (unmarshalEmployee_saved vm saved Hsaved) as Hvm.
  destruct (json.unmarshalEmployee vm saved) as [e saved1].
  specialize (IH saved1 Hvm).
  destruct (json.unmarshalArray doc saved1) as [es saved2]. exact IH.
Qed.

Lemma unmarshalArray_misTyped (doc : list object) (saved : option error) :
  Exists (fun vm => Typed.misTyped vm = true) doc ->
  snd (json.unmarshalArray doc saved) <> None.
Proof.
  intros Hexists. revert saved.
  induction Hexists as [vm doc Hvm|vm doc _ IH]; intros saved;
    cbn [json.unmarshalArray].
  - pose proof (unmarshalEmployee_misTyped vm saved Hvm) as Hsaved.
    destruct (json.unmarshalEmployee vm saved) as [e saved1].
    pose proof (unmarshalArray_saved doc saved1 Hsaved) as Hdoc.
    destruct (json.unmarshalArray doc saved1) as [es saved2]. exact Hdoc.
  - destruct (json.unmarshalEmployee vm saved) as [e saved1].
    specialize (IH saved1).
    destruct (json.unmarshalArray doc saved1) as [es saved2]. exact IH.
Qed.

Section Answers.
Context `{!strings.Text} `{!sort.Random}.

Lemma findLoop_answers (words : list string) (jq : JSONQ) :
  fst (findLoop jq words) = notFound \/
  exists emp, fst (findLoop jq words) = narrative emp.
Proof.
  revert jq. induction words as [|first rest IH]; intros jq; [left; reflexivity|].
  destruct rest as [|last rest']; [left; reflexivity|].
  rewrite findLoop_step.
  destruct (_ || _); [apply IH|].
  destruct (searchPair jq first last) as [[employees err] jq1].
  destruct employees as [|emp employees], err as [e|]; try apply IH.
  right. exists emp. reflexivity.
Qed.

(** X3.  [ProcessQuery] returns an error off the lookup path only, and
    the text returned with it is ["Error: "] followed by the message of
    the error; off the lookup path, a record that passed the status
    filter and has, under the name of a field, a member of another type
    than the field makes [ProcessQuery] return an error. *)
Theorem error_only_from_decoding (jsonData : list object) (text : string) :
  let query := strings.ToLower text in
  (forall err,
     snd (ProcessQuery jsonData text) = Some err ->
     isSpecificEmployeeSearch query = false /\
     fst (ProcessQuery jsonData text) = "Error: " +:+ json.Error err) /\
  (isSpecificEmployeeSearch query = false ->
   Exists (fun vm => Typed.misTyped vm = true)
     (List.filter (matchesFilter (selectedFilter query)) jsonData) ->
   snd (ProcessQuery jsonData text) <> None).
Proof.
  intros query. unfold ProcessQuery. fold query.
  pose proof (filterStage_result jsonData query) as Hfilter.
  destruct (isSpecificEmployeeSearch query).
  - unfold findSpecificEmployee. rewrite findLoop_no_error.
    split; [discriminate|]. intros Hlist. discriminate.
  - destruct (Get (filterStage jsonData query)) as [result jq].
    cbn [fst] in Hfilter. subst result. cbn [json.Marshal].
    pose proof (unmarshalArray_misTyped
                  (List.filter (matchesFilter (selectedFilter query)) jsonData)
                  None) as Hmis.
    unfold json.Unmarshal.
    destruct (json.unmarshalArray _ None) as [employees [e|]]; cbn [snd fst] in *.
    + split; [|intros _ _; discriminate].
      intros err [= ->]. split; reflexivity.
    + rewrite formatStage_no_error. split; [discriminate|].
      intros _ Hexists. exact (Hmis Hexists).
Qed.

(** X4.  Whatever the document and the text, the answer of
    [ProcessQuery] is never the empty string. *)
Theorem answer_never_empty (jsonData : list object) (text : string) :
  fst (ProcessQuery jsonData text) <> EmptyString.
Proof.
  unfold ProcessQuery.
  destruct (isSpecificEmployeeSearch (strings.ToLower text)).
  - unfold findSpecificEmployee.
    destruct (findLoop_answers (strings.Fields (strings.ToLower text))
                (filterStage jsonData (strings.ToLower text))) as [->|[emp ->]].
    + discriminate.
    + apply narrative_not_empty.
  - destruct (Get _) as [result jq]. cbn [json.Marshal].
    destruct (json.Unmarshal result) as [employees [e|]].
    + cbn [fst]. apply append_head.
    + apply formatStage_not_empty.
Qed.

End Answers.

(** A first name that is a number: the list fails where the lookup goes
    on. *)
Example error_on_a_number_for_a_name :
  Typed.misTyped misshaped = true /\
  ProcessQuery (H := strings.ascii) (H0 := sort.xorshift)
    [misshaped; json.marshalEmployee jane] "list everybody"
  = ("Error: json: cannot unmarshal number into Go struct field "
       +:+ "EmployeeInfo.first_name of type string",
     Some {| json.Value := "number"; json.Type_ := "string";
             json.Field := "first_name" |}).
Proof. split; reflexivity. Qed.

(** ** The engine on the file of the directory tool *)

Lemma marshalEmployee_flag (e : EmployeeInfo) :
  json.marshalEmployee e !! "deactivated" = Some (JBool (Deactivated e)).
Proof. unfold json.marshalEmployee. destruct (DeactivatedDate e); reflexivity. Qed.

Lemma matchesFilter_marshalEmployee (f : StatusFilter) (e : EmployeeInfo) :
  matchesFilter f (json.marshalEmployee e) = Typed.keeps f e.
Proof.
  unfold matchesFilter, hasStatus, Typed.keeps. rewrite marshalEmployee_flag.
  destruct f, (Deactivated e); reflexivity.
Qed.

Lemma filter_MarshalEmployees (f : StatusFilter) (employees : list EmployeeInfo) :
  List.filter (matchesFilter f) (json.MarshalEmployees employees)
  = json.MarshalEmployees (List.filter (Typed.keeps f) employees).
Proof.
  unfold json.MarshalEmployees.
  induction employees as [|e l IH]; [reflexivity|].
  cbn [map List.filter]. rewrite matchesFilter_marshalEmployee, IH.
  destruct (Typed.keeps f e); reflexivity.
Qed.

Lemma filter_three_ways {A : Type} (p1 p2 p3 : A -> bool) (l : list A) :
  (forall x, (p1 x = true /\ p2 x = false /\ p3 x = false) \/
             (p1 x = false /\ p2 x = true /\ p3 x = false) \/
             (p1 x = false /\ p2 x = false /\ p3 x = true)) ->
  List.filter p1 l ++ List.filter p2 l ++ List.filter p3 l ≡ₚ l.
Proof.
  intros Hone. induction l as [|x l IH]; [reflexivity|].
  cbn [List.filter].
  destruct (Hone x) as [(-> & -> & ->)|[(-> & -> & ->)|(-> & -> & ->)]].
  - cbn [app]. constructor. exact IH.
  - rewrite <- app_comm_cons, <- Permutation_middle. constructor. exact IH.
  - rewrite app_assoc, <- Permutation_middle, <- app_assoc. constructor. exact IH.
Qed.

Section Exported.
Context `{!strings.Text} `{!sort.Random}.

Lemma findLoop_exported (words : list string) (jq : JSONQ)
    (employees : list EmployeeInfo) :
  rootJSONContent jq = json.MarshalEmployees employees ->
  findLoop jq words = lookupAsStated employees words.
Proof.
  revert jq. induction words as [|first rest IH]; intros jq Hroot; [reflexivity|].
  destruct rest as [|last rest']; [reflexivity|].
  cbn [findLoop lookupAsStated].
  destruct (_ || _); [apply IH; exact Hroot|].
  pose proof (searchPair_well_formed jq employees first last Hroot) as Hfst.
  pose proof (searchPair_root jq first last) as Hr.
  destruct (searchPair jq first last) as [[found err] jq1].
  simpl in Hfst, Hr. injection Hfst as -> ->.
  destruct (List.filter (pairMatches first last) employees) as [|emp found].
  - apply IH. congruence.
  - reflexivity.
Qed.

Lemma lookupAsStated_no_error (words : list string) (employees : list EmployeeInfo) :
  snd (lookupAsStated employees words) = None.
Proof.
  induction words as [|first rest IH]; [reflexivity|].
  destruct rest as [|last rest']; [reflexivity|].
  cbn [lookupAsStated].
  destruct (_ || _); [exact IH|].
  destruct (List.filter _ employees); [exact IH|reflexivity].
Qed.

Lemma ProcessQuery_exported (employees : list EmployeeInfo) (text : string) :
  ProcessQuery (json.MarshalEmployees employees) text
  = Typed.answer employees (strings.ToLower text).
Proof.
  unfold Typed.answer.
  destruct (isSpecificEmployeeSearch (strings.ToLower text)) eqn:Hlookup.
  - unfold ProcessQuery. rewrite Hlookup. unfold findSpecificEmployee.
    apply findLoop_exported. apply filterStage_root.
  - apply ProcessQuery_stages; [exact Hlookup|].
    rewrite filterStage_result, filter_MarshalEmployees.
    unfold json.Unmarshal. apply unmarshalArray_MarshalEmployees.
Qed.

(** X5.  On a file the directory tool wrote, [ProcessQuery] is the
    engine on the records themselves: the lookup among all the records,
    or the records whose flag passes the status filter, sorted, cut and
    formatted; and it returns no error. *)
Theorem exported_file_answer (employees : list EmployeeInfo) (text : string) :
  ProcessQuery (json.MarshalEmployees employees) text
    = Typed.answer employees (strings.ToLower text) /\
  snd (ProcessQuery (json.MarshalEmployees employees) text) = None.
Proof.
  split; [apply ProcessQuery_exported|]. rewrite ProcessQuery_exported.
  unfold Typed.answer.
  destruct (isSpecificEmployeeSearch (strings.ToLower text)).
  - apply lookupAsStated_no_error.
  - apply formatStage_no_error.
Qed.

(** X6.  The records kept by a query for the active employees, those
    kept by a query for the deactivated ones, and the records without a
    boolean [deactivated] member make up the document; a file the
    directory tool wrote has no record of the third kind. *)
Theorem status_filters_partition (jsonData : list object) (active deactivated : string) :
  selectedFilter active = ACTIVE ->
  selectedFilter deactivated = DEACTIVATED ->
  fst (Get (filterStage jsonData active))
    ++ fst (Get (filterStage jsonData deactivated))
    ++ List.filter Typed.unflagged jsonData ≡ₚ jsonData /\
  forall employees,
    List.filter Typed.unflagged (json.MarshalEmployees employees) = [].
Proof.
  intros Hactive Hdeactivated. split.
  - rewrite !filterStage_result, Hactive, Hdeactivated.
    apply filter_three_ways. intros vm.
    unfold matchesFilter, hasStatus, Typed.unflagged.
    destruct (vm !! "deactivated") as [[| [|] | |]|]; cbn; auto.
  - intros employees. unfold json.MarshalEmployees.
    induction employees as [|e l IH]; [reflexivity|].
    cbn [map List.filter]. unfold Typed.unflagged at 1.
    rewrite marshalEmployee_flag. exact IH.
Qed.

(** X7.  A query with a word that contains ["active"], such as
    ["inactive"], and without ["deactivat"] nor ["terminat"], keeps the
    records whose flag is [false]. *)
Theorem word_with_active_keeps_active (jsonData : list object) (text word : string) :
  strings.Contains word "active" = true ->
  strings.Contains (strings.ToLower text) word = true ->
  strings.Contains (strings.ToLower text) "deactivat" = false ->
  strings.Contains (strings.ToLower text) "terminat" = false ->
  fst (Get (filterStage jsonData (strings.ToLower text)))
    = List.filter (hasStatus false) jsonData.
Proof.
  intros Hword Htext Hd Ht. rewrite filterStage_result.
  unfold selectedFilter. rewrite Hd, Ht.
  rewrite (Contains_trans _ word "active" Htext Hword). reflexivity.
Qed.

Lemma sortStage_Permutation (query : string) (employees : list EmployeeInfo) :
  sortStage query employees ≡ₚ employees.
Proof.
  destruct (wantsDateSort query) eqn:Hwants.
  - rewrite (sortStage_sorts query employees Hwants).
    apply (Slice_sorts dateLess employees).
  - rewrite (sortStage_keeps query employees Hwants). reflexivity.
Qed.

Lemma limitStage_take (query : string) (employees : list EmployeeInfo) :
  exists n, 0 < n /\ limitStage query employees = take n employees.
Proof.
  unfold limitStage. rewrite limitLoop_find.
  destruct (List.find _ _) as [L|] eqn:Hfind.
  - apply find_some in Hfind as [HIn _].
    pose proof (limitCandidates_pos (strings.Fields query)) as Hpos.
    rewrite List.Forall_forall in Hpos. specialize (Hpos L HIn).
    exists (Z.to_nat L). split; [lia|reflexivity].
  - exists (S (length employees)). split; [lia|].
    rewrite take_ge; [reflexivity|lia].
Qed.

Lemma lookupAsStated_empty (words : list string) :
  lookupAsStated [] words = (notFound, None).
Proof.
  induction words as [|first rest IH]; [reflexivity|].
  destruct rest as [|last rest']; [reflexivity|].
  cbn [lookupAsStated List.filter]. destruct (_ || _); exact IH.
Qed.

(** X8.  On the empty document [ProcessQuery] returns no error: the
    lookup answers that the employee is not found, every other query
    that no employee matches. *)
Theorem empty_document_answer (text : string) :
  ProcessQuery [] text
  = (if isSpecificEmployeeSearch (strings.ToLower text) then notFound else noEmployees,
     None).
Proof.
  change (@nil object) with (json.MarshalEmployees []).
  rewrite ProcessQuery_exported. unfold Typed.answer.
  destruct (isSpecificEmployeeSearch (strings.ToLower text)).
  - apply lookupAsStated_empty.
  - cbn [List.filter].
    assert (Hsort : sortStage (strings.ToLower text) [] = []).
    { apply Permutation_nil. symmetry. apply sortStage_Permutation. }
    rewrite Hsort.
    destruct (limitStage_take (strings.ToLower text) []) as (n & _ & ->).
    rewrite take_nil. unfold formatStage. destruct (_ || _); reflexivity.
Qed.

(** X9.  The numeric limit keeps a prefix of the records and never
    empties a list that has records. *)
Theorem limit_keeps_a_prefix (query : string) (employees : list EmployeeInfo) :
  limitStage query employees `prefix_of` employees /\
  length (limitStage query employees) <= length employees /\
  (employees <> [] -> limitStage query employees <> []).
Proof.
  destruct (limitStage_take query employees) as (n & Hn & ->).
  split; [apply prefix_take|]. split.
  - rewrite length_take. lia.
  - intros Hne. destruct employees as [|emp l]; [contradiction|].
    destruct n as [|n']; [lia|]. discriminate.
Qed.

(** X10.  The records that reach the formatter are some of the records
    that passed the filter, each at most as often as it passed; without
    a sort they are the first of them in the order of the document. *)
Theorem formatted_records_are_filtered_records (query : string)
    (employees : list EmployeeInfo) :
  limitStage query (sortStage query employees) ⊆+ employees /\
  (wantsDateSort query = false ->
   limitStage query (sortStage query employees) `prefix_of` employees).
Proof.
  destruct (limitStage_take query (sortStage query employees)) as (n & Hn & ->).
  split.
  - rewrite <- (sortStage_Permutation query employees) at 2.
    apply sublist_submseteq, sublist_take.
  - intros Hwants. rewrite (sortStage_keeps query employees Hwants).
    apply prefix_take.
Qed.

(** X11.  When the query asks for the sort and for a limit, the records
    kept are the first of the sorted records, and no record that was cut
    has a date that sorts before the date of a record that was kept. *)
Theorem limit_after_sort_keeps_latest (query : string) (employees : list EmployeeInfo) :
  wantsDateSort query = true ->
  let sorted := sortStage query employees in
  let kept := limitStage query sorted in
  sorted = kept ++ drop (length kept) sorted /\
  forall emp cut, In emp kept -> In cut (drop (length kept) sorted) ->
    dateLess cut emp = false.
Proof.
  intros Hwants sorted kept.
  destruct (limitStage_take query sorted) as (n & Hn & Hkept).
  fold kept in Hkept.
  assert (Hsplit : sorted = kept ++ drop (length kept) sorted).
  { rewrite Hkept at 1. rewrite Hkept, length_take.
    destruct (Nat.le_gt_cases n (length sorted)) as [Hle|Hgt].
    - rewrite Nat.min_l by exact Hle. symmetry. apply take_drop.
    - rewrite Nat.min_r by lia. rewrite take_ge by lia.
      rewrite drop_all, app_nil_r. reflexivity. }
  split; [exact Hsplit|].
  intros emp cut Hemp Hcut.
  assert (Hsorted : SortSpec.sorted dateLess sorted).
  { unfold sorted. rewrite (sortStage_sorts query employees Hwants).
    apply (Slice_sorts dateLess employees). }
  apply list_elem_of_In, list_elem_of_lookup in Hemp as [i Hi].
  apply list_elem_of_In, list_elem_of_lookup in Hcut as [j Hj].
  pose proof (lookup_lt_Some _ _ _ Hi) as Hilt.
  rewrite lookup_drop in Hj.
  apply (Hsorted i (length kept + j) emp cut); try lia.
  - apply lookup_lt_Some in Hj. exact Hj.
  - rewrite Hsplit. rewrite lookup_app_l by exact Hilt. exact Hi.
  - exact Hj.
Qed.

End Exported.

(** ** The dates the directory tool writes *)

Lemma appendInt_year_checked :
  forallb
    (fun n =>
       match time.appendInt (Z.of_nat n) 4 with
       | String c1 (String c2 (String c3 (String c4 EmptyString))) =>
           strconv.isDigit c1 && strconv.isDigit c2 &&
           strconv.isDigit c3 && strconv.isDigit c4 &&
           ((((strconv.digit c1 * 10 + strconv.digit c2) * 10
              + strconv.digit c3) * 10 + strconv.digit c4) =? Z.of_nat n)%Z
       | _ => false
       end)
    (seq 0 (100 * 100)) = true.
Proof. vm_compute. reflexivity. Qed.

Lemma appendInt_two_checked :
  forallb
    (fun n =>
       match time.appendInt (Z.of_nat n) 2 with
       | String c1 (String c2 EmptyString) =>
           strconv.isDigit c1 && strconv.isDigit c2 &&
           ((strconv.digit c1 * 10 + strconv.digit c2) =? Z.of_nat n)%Z
       | _ => false
       end)
    (seq 0 100) = true.
Proof. vm_compute. reflexivity. Qed.

(** A year from 0 to 9999 is written with four digits that read back as
    the year. *)
Lemma appendInt_year (year : Z) :
  (0 <= year <= 9999)%Z ->
  exists c1 c2 c3 c4,
    time.appendInt year 4 = String c1 (String c2 (String c3 (String c4 EmptyString))) /\
    forall rest,
      time.getyear (String c1 (String c2 (String c3 (String c4 rest))))
      = Some (year, rest).
Proof.
  intros Hrange. pose proof appendInt_year_checked as Hall.
  rewrite forallb_forall in Hall. specialize (Hall (Z.to_nat year)).
  rewrite Z2Nat.id in Hall by lia.
  assert (Hin : In (Z.to_nat year) (seq 0 (100 * 100))) by (apply in_seq; lia).
  specialize (Hall Hin).
  destruct (time.appendInt year 4) as [|c1 [|c2 [|c3 [|c4 [|? ?]]]]];
    try discriminate.
  apply andb_true_iff in Hall as [Hall Hv]. apply Z.eqb_eq in Hv.
  exists c1, c2, c3, c4. split; [reflexivity|].
  intros rest. cbn [time.getyear]. rewrite Hall, Hv. reflexivity.
Qed.

(** A month or a day is written with two digits that read back as the
    number. *)
Lemma appendInt_two (x : Z) :
  (0 <= x <= 99)%Z ->
  exists c1 c2,
    time.appendInt x 2 = String c1 (String c2 EmptyString) /\
    forall rest, time.getnum2 (String c1 (String c2 rest)) = Some (x, rest).
Proof.
  intros Hrange. pose proof appendInt_two_checked as Hall.
  rewrite forallb_forall in Hall. specialize (Hall (Z.to_nat x)).
  rewrite Z2Nat.id in Hall by lia.
  assert (Hin : In (Z.to_nat x) (seq 0 100)) by (apply in_seq; lia).
  specialize (Hall Hin).
  destruct (time.appendInt x 2) as [|c1 [|c2 [|? ?]]]; try discriminate.
  apply andb_true_iff in Hall as [Hall Hv]. apply Z.eqb_eq in Hv.
  exists c1, c2. split; [reflexivity|].
  intros rest. cbn [time.getnum2]. rewrite Hall, Hv. reflexivity.
Qed.

Lemma daysIn_le_31 (m year : Z) : (time.daysIn m year <= 31)%Z.
Proof.
  unfold time.daysIn.
  destruct (m =? 2)%Z; [destruct (time.isLeap year); lia|].
  destruct (_ || _); lia.
Qed.

(** [time.Parse] reads back the day that [Format] wrote. *)
Lemma Parse_Format (t : time.Time) :
  Typed.validDate t = true -> time.Parse (time.Format t) = Some t.
Proof.
  destruct t as [year month day]. unfold Typed.validDate.
  cbn [time.Year time.Month time.Day].
  rewrite !andb_true_iff, !Z.leb_le.
  intros [[[[[Hy0 Hy1] Hm0] Hm1] Hd0] Hd1].
  pose proof (daysIn_le_31 month year) as H31.
  destruct (appendInt_year year) as (y1 & y2 & y3 & y4 & Hyear & Hgetyear); [lia|].
  destruct (appendInt_two month) as (m1 & m2 & Hmonth & Hgetmonth); [lia|].
  destruct (appendInt_two day) as (d1 & d2 & Hday & Hgetday); [lia|].
  unfold time.Format. cbn [time.Year time.Month time.Day].
  rewrite Hyear, Hmonth, Hday.
  change (time.Parse
            (String y1 (String y2 (String y3 (String y4
               (String "-" (String m1 (String m2
                  (String "-" (String d1 (String d2 EmptyString))))))))))
          = Some (time.Date year month day)).
  unfold time.Parse. rewrite Hgetyear. cbn [time.skipDash].
  rewrite Hgetmonth.
  replace ((month <=? 0)%Z || (12 <? month)%Z) with false
    by (symmetry; apply orb_false_iff; split; [apply Z.leb_gt|apply Z.ltb_ge]; lia).
  cbn [time.skipDash]. rewrite Hgetday.
  replace ((day <? 1)%Z || (time.daysIn month year <? day)%Z) with false
    by (symmetry; apply orb_false_iff; split; apply Z.ltb_ge; lia).
  reflexivity.
Qed.

Lemma append_tail_not_empty (s : string) (c : ascii) (t : string) :
  s +:+ String c t <> EmptyString.
Proof. destruct s; [discriminate|]. rewrite append_cons. discriminate. Qed.

Lemma Format_not_empty (t : time.Time) : time.Format t <> EmptyString.
Proof. unfold time.Format. apply append_tail_not_empty. Qed.

Section Dates.
Context `{!time.Zone}.

(** X12.  The date the directory tool writes for a deactivated user is
    never empty; and when the day of the update is a calendar day of the
    years 0 to 9999 the engine parses it back to that day, so that the
    sort never finds it unparseable. *)
Theorem estimated_date_parses (jsonTime : Z) :
  slack.estimateDeactivatedDateFromJSON jsonTime <> EmptyString /\
  (Typed.validDate (time.Unix jsonTime) = true ->
   time.Parse (slack.estimateDeactivatedDateFromJSON jsonTime)
     = Some (time.Unix jsonTime) /\
   forall emp,
     DeactivatedDate emp = slack.estimateDeactivatedDateFromJSON jsonTime ->
     dateClass emp = Parsed (time.Unix jsonTime)).
Proof.
  unfold slack.estimateDeactivatedDateFromJSON.
  split; [apply Format_not_empty|]. intros Hvalid.
  split; [apply Parse_Format; exact Hvalid|].
  intros emp Hdate. unfold dateClass. rewrite Hdate.
  pose proof (Parse_Format _ Hvalid) as Hparse.
  destruct (time.Format (time.Unix jsonTime)) eqn:Hf.
  - exfalso. exact (Format_not_empty _ Hf).
  - rewrite Hparse. reflexivity.
Qed.

End Dates.

Lemma estimated_date_parses_witness :
  Typed.validDate (time.Unix (Zone := time.utc) 1700000000) = true /\
  slack.estimateDeactivatedDateFromJSON (H := time.utc) 1700000000 = "2023-11-14" /\
  slack.estimateDeactivatedDateFromJSON (H := time.utc) 1700000000 <> EmptyString /\
  time.Parse (slack.estimateDeactivatedDateFromJSON (H := time.utc) 1700000000)
    = Some (time.Date 2023 11 14) /\
  slack.estimateDeactivatedDateFromJSON (H := time.utc) 253402300800 = "10000-01-01" /\
  slack.estimateDeactivatedDateFromJSON (H := time.utc) 253402300800 <> EmptyString /\
  time.Parse (slack.estimateDeactivatedDateFromJSON (H := time.utc) 253402300800)
    = None.
Proof.
  split; [reflexivity|]. split; [reflexivity|].
  split; [exact (proj1 (@estimated_date_parses time.utc 1700000000))|].
  split; [exact (proj1 (proj2 (@estimated_date_parses time.utc 1700000000) eq_refl))|].
  split; [reflexivity|].
  split; [exact (proj1 (@estimated_date_parses time.utc 253402300800))|].
  reflexivity.
Defined.

(** ** The directory tool *)

Section Directory.
Context `{!time.Zone}.

Lemma processUser_app (employees : list EmployeeInfo) (user : slackgo.User)
    (filter : slack.FilterType) :
  slack.processUser employees user filter
  = employees ++ slack.processUser [] user filter.
Proof.
  unfold slack.processUser.
  destruct (String.eqb filter slack.FilterAll); [reflexivity|].
  destruct (String.eqb filter slack.FilterDeactivated).
  { destruct (slackgo.Deleted user); [reflexivity|]. rewrite app_nil_r. reflexivity. }
  destruct (String.eqb filter slack.FilterActive).
  { destruct (negb (slackgo.Deleted user)); [reflexivity|].
    rewrite app_nil_r. reflexivity. }
  rewrite app_nil_r. reflexivity.
Qed.

(** The record of a user: the one [processUser] appends under
    [FilterAll]. *)
Lemma processUser_all (user : slackgo.User) :
  exists emp,
    slack.processUser [] user slack.FilterAll = [emp] /\
    Deactivated emp = slackgo.Deleted user /\
    Email emp = slackgo.Email (slackgo.Profile user) /\
    Title emp = slackgo.Title (slackgo.Profile user) /\
    DeactivatedDate emp =
      (if slackgo.Deleted user
       then slack.estimateDeactivatedDateFromJSON (slackgo.Updated user)
       else EmptyString).
Proof.
  unfold slack.processUser. cbn [String.eqb slack.FilterAll].
  eexists. split; [reflexivity|]. repeat split.
Qed.

Lemma processUser_filter (user : slackgo.User) (filter : slack.FilterType) :
  slack.processUser [] user filter
  = List.filter (Typed.passes filter) (slack.processUser [] user slack.FilterAll).
Proof.
  destruct (processUser_all user) as (emp & Hall & Hflag & _). rewrite Hall.
  cbn [List.filter]. unfold Typed.passes. rewrite Hflag.
  unfold slack.processUser in *.
  change (String.eqb slack.FilterAll slack.FilterAll) with true in Hall.
  cbn [app] in Hall. injection Hall as Hemp. rewrite Hemp.
  destruct (String.eqb filter slack.FilterAll); [reflexivity|].
  destruct (String.eqb filter slack.FilterDeactivated) eqn:Hd.
  { apply String.eqb_eq in Hd. subst filter.
    destruct (slackgo.Deleted user); reflexivity. }
  destruct (String.eqb filter slack.FilterActive).
  { destruct (slackgo.Deleted user); reflexivity. }
  reflexivity.
Qed.

Lemma processPage_cons (employees : list EmployeeInfo) (user : slackgo.User)
    (users : list slackgo.User) (filter : slack.FilterType) :
  slack.processPage employees (user :: users) filter
  = slack.processPage
      (if negb (slackgo.IsBot user) then slack.processUser employees user filter
       else employees) users filter.
Proof. reflexivity. Qed.

Lemma processPage_app_users (employees : list EmployeeInfo)
    (users1 users2 : list slackgo.User) (filter : slack.FilterType) :
  slack.processPage employees (users1 ++ users2) filter
  = slack.processPage (slack.processPage employees users1 filter) users2 filter.
Proof. unfold slack.processPage. apply fold_left_app. Qed.

Lemma processPage_app (users : list slackgo.User) (employees : list EmployeeInfo)
    (filter : slack.FilterType) :
  slack.processPage employees users filter
  = employees ++ slack.processPage [] users filter.
Proof.
  revert employees. induction users as [|user users IH]; intros employees.
  - cbn. rewrite app_nil_r. reflexivity.
  - rewrite !processPage_cons. destruct (negb (slackgo.IsBot user)).
    + rewrite IH. rewrite (IH (slack.processUser [] user filter)).
      rewrite processUser_app, app_assoc. reflexivity.
    + apply IH.
Qed.

Lemma processPage_filter (users : list slackgo.User) (filter : slack.FilterType) :
  slack.processPage [] users filter
  = List.filter (Typed.passes filter) (slack.processPage [] users slack.FilterAll).
Proof.
  induction users as [|user users IH]; [reflexivity|].
  rewrite !processPage_cons. destruct (negb (slackgo.IsBot user)); [|exact IH].
  rewrite processPage_app, (processPage_app users (slack.processUser _ _ _)).
  rewrite List.filter_app, <- IH, <- processUser_filter. reflexivity.
Qed.

Lemma paginationLoop_users (attempts : nat) (pages : list slackgo.next)
    (employees : list EmployeeInfo) (paginationCount totalUsers : nat)
    (filter : slack.FilterType) :
  fst (fst (slack.paginationLoop attempts pages employees paginationCount
              totalUsers filter))
  = slack.processPage employees (Typed.usersRead attempts pages) filter.
Proof.
  revert pages employees paginationCount totalUsers.
  induction attempts as [|attempts IH]; intros pages employees count total;
    [destruct pages; reflexivity|].
  destruct pages as [|[users|err] pages]; try reflexivity.
  cbn [slack.paginationLoop Typed.usersRead].
  rewrite IH, processPage_app_users. reflexivity.
Qed.

Lemma search_users (client : slackgo.Client) (filter : slack.FilterType) :
  slack.searchAMAEmployeesUsingStandardAPI client filter
  = (slack.processPage []
       (Typed.usersRead slack.maxPaginationAttempts (slackgo.Pages client)) filter,
     None).
Proof.
  unfold slack.searchAMAEmployeesUsingStandardAPI.
  pose proof (paginationLoop_users (slack.maxPaginationAttempts - 0)
                (slackgo.Pages client) [] 0 0 filter) as Hloop.
  destruct (slack.paginationLoop _ _ _ _ _ _) as [[employees count] total].
  cbn [fst] in Hloop. rewrite Hloop. reflexivity.
Qed.

Lemma usersRead_failed (attempts : nat) (pages : list (list slackgo.User))
    (err : string) (rest : list slackgo.next) :
  Typed.usersRead attempts (map slackgo.Page pages ++ slackgo.Failed err :: rest)
  = Typed.usersRead attempts (map slackgo.Page pages).
Proof.
  revert attempts. induction pages as [|users pages IH]; intros attempts.
  - destruct attempts; reflexivity.
  - destruct attempts as [|attempts]; [reflexivity|].
    cbn [map app Typed.usersRead]. rewrite IH. reflexivity.
Qed.

Lemma usersRead_take (attempts : nat) (pages : list slackgo.next) :
  Typed.usersRead attempts pages = Typed.usersRead attempts (take attempts pages).
Proof.
  revert pages. induction attempts as [|attempts IH]; intros pages.
  - destruct pages; reflexivity.
  - destruct pages as [|[users|err] pages]; try reflexivity.
    cbn [take Typed.usersRead]. rewrite <- IH. reflexivity.
Qed.

Lemma usersRead_pages (attempts : nat) (pages : list (list slackgo.User)) :
  length pages <= attempts ->
  Typed.usersRead attempts (map slackgo.Page pages) = concat pages.
Proof.
  revert attempts. induction pages as [|users pages IH]; intros attempts Hle.
  - destruct attempts; reflexivity.
  - destruct attempts as [|attempts]; [cbn [length] in Hle; lia|].
    cbn [map Typed.usersRead concat]. rewrite IH; [reflexivity|].
    cbn [length] in Hle. lia.
Qed.

(** X13.  The fetch never returns an error.  A call for a page that
    fails ends it as the end of the pagination does: the employees of the
    pages read before are returned, with a nil error. *)
Theorem page_failure_is_silent (auth : option string)
    (pages : list (list slackgo.User)) (err : string) (rest : list slackgo.next)
    (filter : slack.FilterType) :
  slack.searchAMAEmployeesUsingStandardAPI
    {| slackgo.AuthTest := auth;
       slackgo.Pages := map slackgo.Page pages ++ slackgo.Failed err :: rest |} filter
  = slack.searchAMAEmployeesUsingStandardAPI
      {| slackgo.AuthTest := auth; slackgo.Pages := map slackgo.Page pages |} filter /\
  forall client,
    snd (slack.searchAMAEmployeesUsingStandardAPI client filter) = None.
Proof.
  split.
  - rewrite !search_users. cbn [slackgo.Pages].
    rewrite usersRead_failed. reflexivity.
  - intros client. rewrite search_users. reflexivity.
Qed.

(** X14.  The fetch reads ten pages at most: what the calls after the
    tenth would give changes nothing, and with ten pages or fewer the
    users of all the pages are processed in order. *)
Theorem at_most_ten_pages (auth : option string) (filter : slack.FilterType) :
  (forall pages,
     slack.searchAMAEmployeesUsingStandardAPI
       {| slackgo.AuthTest := auth; slackgo.Pages := pages |} filter
     = slack.searchAMAEmployeesUsingStandardAPI
         {| slackgo.AuthTest := auth; slackgo.Pages := take 10 pages |} filter) /\
  (forall pages,
     length pages <= 10 ->
     slack.searchAMAEmployeesUsingStandardAPI
       {| slackgo.AuthTest := auth; slackgo.Pages := map slackgo.Page pages |} filter
     = (slack.processPage [] (concat pages) filter, None)).
Proof.
  split.
  - intros pages. rewrite !search_users. cbn [slackgo.Pages].
    rewrite usersRead_take. reflexivity.
  - intros pages Hle. rewrite search_users. cbn [slackgo.Pages].
    rewrite usersRead_pages by exact Hle. reflexivity.
Qed.

(** X15.  Fetching with a filter gives what fetching everything and
    then keeping the records that pass the filter gives; a filter other
    than the three known ones gives no record. *)
Theorem filter_at_fetch (client : slackgo.Client) (filter : slack.FilterType) :
  fst (slack.searchAMAEmployeesUsingStandardAPI client filter)
  = List.filter (Typed.passes filter)
      (fst (slack.searchAMAEmployeesUsingStandardAPI client slack.FilterAll)) /\
  Forall (fun emp => Typed.passes filter emp = true)
    (fst (slack.searchAMAEmployeesUsingStandardAPI client filter)) /\
  (filter <> slack.FilterAll -> filter <> slack.FilterActive ->
   filter <> slack.FilterDeactivated ->
   fst (slack.searchAMAEmployeesUsingStandardAPI client filter) = []).
Proof.
  assert (Heq : fst (slack.searchAMAEmployeesUsingStandardAPI client filter)
    = List.filter (Typed.passes filter)
        (fst (slack.searchAMAEmployeesUsingStandardAPI client slack.FilterAll))).
  { rewrite !search_users. cbn [fst]. apply processPage_filter. }
  split; [exact Heq|]. split.
  - rewrite Heq. apply List.Forall_forall. intros emp Hin.
    apply List.filter_In in Hin as [_ Hp]. exact Hp.
  - intros Hall Hactive Hdeactivated. rewrite Heq.
    apply String.eqb_neq in Hall, Hactive, Hdeactivated.
    generalize (fst (slack.searchAMAEmployeesUsingStandardAPI client slack.FilterAll)).
    intros l. induction l as [|emp l IH]; [reflexivity|].
    cbn [List.filter]. unfold Typed.passes at 1.
    rewrite Hall, Hactive, Hdeactivated. exact IH.
Qed.

Lemma processPage_records (users : list slackgo.User) (emp : EmployeeInfo) :
  In emp (slack.processPage [] users slack.FilterAll) ->
  exists user, In user users /\ slackgo.IsBot user = false /\
               slack.processUser [] user slack.FilterAll = [emp].
Proof.
  induction users as [|user users IH]; [intros []|].
  rewrite processPage_cons. destruct (slackgo.IsBot user) eqn:Hbot; cbn [negb].
  - intros Hin. destruct (IH Hin) as (u & Hu & Hb & Hrec).
    exists u. split; [right; exact Hu|]. split; assumption.
  - rewrite processPage_app. intros Hin. apply in_app_or in Hin as [Hin|Hin].
    + destruct (processUser_all user) as (e & He & _). rewrite He in Hin.
      destruct Hin as [<-|[]]. exists user. split; [left; reflexivity|].
      split; assumption.
    + destruct (IH Hin) as (u & Hu & Hb & Hrec).
      exists u. split; [right; exact Hu|]. split; assumption.
Qed.

Lemma search_records (client : slackgo.Client) (filter : slack.FilterType)
    (emp : EmployeeInfo) :
  In emp (fst (slack.searchAMAEmployeesUsingStandardAPI client filter)) ->
  exists user,
    In user (Typed.usersRead slack.maxPaginationAttempts (slackgo.Pages client)) /\
    slackgo.IsBot user = false /\
    slack.processUser [] user slack.FilterAll = [emp].
Proof.
  rewrite search_users. cbn [fst]. rewrite processPage_filter.
  intros Hin. apply List.filter_In in Hin as [Hin _].
  apply processPage_records. exact Hin.
Qed.

(** X16.  In every record the fetch returns, the deactivation date is
    empty exactly when the record is not deactivated. *)
Theorem date_only_when_deactivated (client : slackgo.Client)
    (filter : slack.FilterType) :
  Forall (fun emp => DeactivatedDate emp = EmptyString <-> Deactivated emp = false)
    (fst (slack.searchAMAEmployeesUsingStandardAPI client filter)).
Proof.
  apply List.Forall_forall. intros emp Hin.
  destruct (search_records client filter emp Hin) as (user & _ & _ & Hrec).
  destruct (processUser_all user) as (e & He & Hflag & _ & _ & Hdate).
  rewrite Hrec in He. injection He as <-. rewrite Hflag, Hdate.
  destruct (slackgo.Deleted user).
  - split; [|discriminate]. intros Hempty. exfalso.
    exact (Format_not_empty _ Hempty).
  - split; reflexivity.
Qed.

(** X17.  When the day of the update of every deleted user read is a
    calendar day of the years 0 to 9999, no record the fetch returns has
    an unparseable date: the sort of the engine sees a day on the
    deactivated records and no date on the others. *)
Theorem fetched_dates_parse (client : slackgo.Client) (filter : slack.FilterType) :
  Forall (fun user => slackgo.Deleted user = true ->
                      Typed.validDate (time.Unix (slackgo.Updated user)) = true)
    (Typed.usersRead slack.maxPaginationAttempts (slackgo.Pages client)) ->
  Forall (fun emp =>
            if Deactivated emp then exists t, dateClass emp = Parsed t
            else dateClass emp = Empty)
    (fst (slack.searchAMAEmployeesUsingStandardAPI client filter)).
Proof.
  intros Hvalid. rewrite List.Forall_forall in Hvalid.
  apply List.Forall_forall. intros emp Hin.
  destruct (search_records client filter emp Hin) as (user & Huser & _ & Hrec).
  destruct (processUser_all user) as (e & He & Hflag & _ & _ & Hdate).
  rewrite Hrec in He. injection He as <-. rewrite Hflag.
  specialize (Hvalid user Huser).
  destruct (slackgo.Deleted user).
  - exists (time.Unix (slackgo.Updated user)).
    unfold dateClass. rewrite Hdate.
    unfold slack.estimateDeactivatedDateFromJSON.
    pose proof (Parse_Format _ (Hvalid eq_refl)) as Hparse.
    destruct (time.Format (time.Unix (slackgo.Updated user))) eqn:Hf.
    + exfalso. exact (Format_not_empty _ Hf).
    + rewrite Hparse. reflexivity.
  - unfold dateClass. rewrite Hdate. reflexivity.
Qed.

End Directory.

(** ** Names, and the two tools together *)

Lemma Contains_space_cons (c : ascii) (s : string) :
  strings.Contains (String c s) " " = Ascii.eqb c " " || strings.Contains s " ".
Proof.
  rewrite Contains_unfold. f_equal. unfold strings.HasPrefix.
  cbn [String.prefix]. destruct (ascii_dec " " c) as [<-|Hne].
  - destruct s; reflexivity.
  - symmetry. apply Ascii.eqb_neq. congruence.
Qed.

Lemma splitSpace_no_space (s : string) :
  strings.Contains s " " = false -> strings.splitSpace s = (s, []).
Proof.
  induction s as [|c s IH]; [reflexivity|].
  rewrite Contains_space_cons. intros Hno.
  apply orb_false_iff in Hno as [Hc Hs].
  cbn [strings.splitSpace]. rewrite (IH Hs), Hc. reflexivity.
Qed.

Lemma splitSpace_join (part text : string) :
  strings.Contains part " " = false ->
  strings.splitSpace (part +:+ " " +:+ text)
  = (part, fst (strings.splitSpace text) :: snd (strings.splitSpace text)).
Proof.
  induction part as [|c part IH]; intros Hno.
  - change (EmptyString +:+ " " +:+ text) with (String " " text).
    cbn [strings.splitSpace]. destruct (strings.splitSpace text). reflexivity.
  - rewrite Contains_space_cons in Hno.
    apply orb_false_iff in Hno as [Hc Hs].
    rewrite append_cons. cbn [strings.splitSpace]. rewrite (IH Hs), Hc. reflexivity.
Qed.

(** [strings.Split(strings.Join(parts, " "), " ")] gives the parts back
    when none of them has a space. *)
Lemma SplitSpace_concat (parts : list string) :
  parts <> [] ->
  Forall (fun part => strings.Contains part " " = false) parts ->
  strings.SplitSpace (String.concat " " parts) = parts.
Proof.
  induction parts as [|part parts IH]; [contradiction|].
  intros _ Hno. apply Forall_cons in Hno as [Hpart Hparts].
  destruct parts as [|part' parts'].
  - cbn [String.concat]. unfold strings.SplitSpace.
    rewrite (splitSpace_no_space _ Hpart). reflexivity.
  - specialize (IH ltac:(discriminate) Hparts).
    change (String.concat " " (part :: part' :: parts'))
      with (part +:+ " " +:+ String.concat " " (part' :: parts')).
    unfold strings.SplitSpace in *. rewrite (splitSpace_join _ _ Hpart).
    destruct (strings.splitSpace (String.concat " " (part' :: parts'))).
    cbn [fst snd]. rewrite IH. reflexivity.
Qed.

Section Tools.
Context `{!time.Zone} `{!strings.Text} `{!sort.Random}.

(** X18.  The names of a record: the names of the profile when it has
    them; without a first name, the text of the real name before its
    first space; without a last name, the text after the last space of
    the real name, and no last name when the real name has no space. *)
Theorem names_from_real_name (user : slackgo.User) (parts : list string) :
  parts <> [] ->
  Forall (fun part => strings.Contains part " " = false) parts ->
  slackgo.RealName user = String.concat " " parts ->
  exists emp,
    slack.processUser [] user slack.FilterAll = [emp] /\
    FirstName emp =
      (if String.eqb (slackgo.FirstName (slackgo.Profile user)) EmptyString
       then default EmptyString (head parts)
       else slackgo.FirstName (slackgo.Profile user)) /\
    LastName emp =
      (if String.eqb (slackgo.LastName (slackgo.Profile user)) EmptyString
       then (if (1 <? length parts)%nat then default EmptyString (last parts)
             else EmptyString)
       else slackgo.LastName (slackgo.Profile user)).
Proof.
  intros Hne Hno Hname. unfold slack.processUser.
  rewrite Hname, (SplitSpace_concat parts Hne Hno).
  change (String.eqb slack.FilterAll slack.FilterAll) with true. cbn iota.
  eexists. split; [reflexivity|].
  cbn [FirstName LastName]. split.
  - destruct (String.eqb _ EmptyString); [|reflexivity].
    destruct parts as [|part parts']; [contradiction|]. reflexivity.
  - destruct (String.eqb _ EmptyString) eqn:Hlast; [|reflexivity]. cbn [andb].
    apply String.eqb_eq in Hlast.
    destruct (1 <? length parts)%nat eqn:Hlen.
    + rewrite last_lookup. f_equal. f_equal. lia.
    + exact Hlast.
Qed.

(** X19.  The filter the directory tool reads from a text and the
    filter the engine reads from the same text: when the tool fetches
    the deactivated employees the engine keeps the deactivated ones;
    when the engine keeps the active ones the tool fetched the active
    ones; when the engine keeps all the tool fetched all. *)
Theorem tools_agree_on_filter (text : string) :
  (slack.callFilter text = slack.FilterDeactivated ->
   selectedFilter (strings.ToLower text) = DEACTIVATED) /\
  (selectedFilter (strings.ToLower text) = ACTIVE ->
   slack.callFilter text = slack.FilterActive) /\
  (selectedFilter (strings.ToLower text) = ALL ->
   slack.callFilter text = slack.FilterAll).
Proof.
  unfold slack.callFilter, selectedFilter.
  assert (Hstem : strings.Contains "deactivated" "deactivat" = true) by reflexivity.
  destruct (strings.Contains (strings.ToLower text) "deactivated") eqn:Hd.
  - rewrite (Contains_trans _ _ _ Hd Hstem). rewrite andb_false_r.
    cbn [orb negb]. split; [reflexivity|]. split; discriminate.
  - rewrite andb_true_r. cbn [negb].
    destruct (strings.Contains (strings.ToLower text) "deactivat"
              || strings.Contains (strings.ToLower text) "terminat");
      destruct (strings.Contains (strings.ToLower text) "active");
      split; try discriminate; try reflexivity; split;
      try discriminate; reflexivity.
Qed.

(** X20.  The directory tool fails when the authentication fails, and
    only then.  Otherwise the document it writes decodes to the records
    it fetched, and the engine returns no error on it, whatever the
    query. *)
Theorem call_writes_what_was_fetched (client : slackgo.Client) (input : string) :
  (forall err, slackgo.AuthTest client = Some err ->
     slack.callEmployeesJSON client input
     = ([], Some ("error searching for employees information: "
                    +:+ "slack authentication failed: " +:+ err))) /\
  (slackgo.AuthTest client = None ->
   snd (slack.callEmployeesJSON client input) = None /\
   json.Unmarshal (fst (slack.callEmployeesJSON client input))
   = (fst (slack.searchAMAEmployeesUsingStandardAPI client (slack.callFilter input)),
      None) /\
   forall text,
     snd (ProcessQuery (fst (slack.callEmployeesJSON client input)) text) = None).
Proof.
  unfold slack.callEmployeesJSON, slack.SearchAMAEmployees.
  rewrite search_users. split.
  - intros err ->. reflexivity.
  - intros ->. cbn [fst snd]. split; [reflexivity|]. split.
    + unfold json.Unmarshal. apply unmarshalArray_MarshalEmployees.
    + intros text. rewrite ProcessQuery_exported. unfold Typed.answer.
      destruct (isSpecificEmployeeSearch (strings.ToLower text)).
      * apply lookupAsStated_no_error.
      * apply formatStage_no_error.
Qed.

Lemma processPage_all_fields (users : list slackgo.User) :
  map (fun emp => (Email emp, Title emp, Deactivated emp))
    (slack.processPage [] users slack.FilterAll)
  = map (fun user => (slackgo.Email (slackgo.Profile user),
                      slackgo.Title (slackgo.Profile user), slackgo.Deleted user))
      (List.filter (fun user => negb (slackgo.IsBot user)) users).
Proof.
  induction users as [|user users IH]; [reflexivity|].
  rewrite processPage_cons. cbn [List.filter].
  destruct (negb (slackgo.IsBot user)); [|exact IH].
  rewrite processPage_app, map_app, IH.
  destruct (processUser_all user) as (emp & -> & Hflag & Hemail & Htitle & _).
  cbn [map app]. rewrite Hflag, Hemail, Htitle. reflexivity.
Qed.

(** X21.  Fetching all gives one record for every user read that is no
    bot, in the order of the pages, with the e-mail and the title of the
    profile and the deletion flag of the user; the bots give none. *)
Theorem one_record_per_human (client : slackgo.Client) :
  let users := Typed.usersRead slack.maxPaginationAttempts (slackgo.Pages client) in
  let employees := fst (slack.searchAMAEmployeesUsingStandardAPI client slack.FilterAll) in
  map (fun emp => (Email emp, Title emp, Deactivated emp)) employees
  = map (fun user => (slackgo.Email (slackgo.Profile user),
                      slackgo.Title (slackgo.Profile user), slackgo.Deleted user))
      (List.filter (fun user => negb (slackgo.IsBot user)) users) /\
  length employees
  = length (List.filter (fun user => negb (slackgo.IsBot user)) users).
Proof.
  intros users employees.
  assert (Hfields := processPage_all_fields users).
  unfold employees. rewrite search_users. cbn [fst]. fold users.
  split; [exact Hfields|].
  apply (f_equal (@length _)) in Hfields. rewrite !length_map in Hfields.
  exact Hfields.
Qed.

End Tools.

(** ** The properties above on the sample records *)

Lemma status_filters_partition_witness :
  selectedFilter "active staff" = ACTIVE /\
  selectedFilter "terminated staff" = DEACTIVATED /\
  fst (Get (H := strings.ascii) (filterStage (H := strings.ascii) mixedDocument "active staff"))
    ++ fst (Get (H := strings.ascii) (filterStage (H := strings.ascii) mixedDocument "terminated staff"))
    ++ [unflaggedRecord] ≡ₚ mixedDocument.
Proof.
  split; [reflexivity|]. split; [reflexivity|].
  exact (proj1 (@status_filters_partition strings.ascii mixedDocument
                  "active staff" "terminated staff" eq_refl eq_refl)).
Defined.

Lemma word_with_active_keeps_active_witness :
  strings.Contains "inactive" "active" = true /\
  fst (Get (H := strings.ascii) (filterStage (H := strings.ascii) mixedDocument
              (strings.ToLower (Text := strings.ascii) "List the INACTIVE employees")))
  = [json.marshalEmployee john; json.marshalEmployee jane].
Proof.
  split; [reflexivity|].
  exact (@word_with_active_keeps_active strings.ascii mixedDocument
           "List the INACTIVE employees" "inactive" eq_refl eq_refl eq_refl eq_refl).
Defined.

Lemma limit_after_sort_keeps_latest_witness :
  wantsDateSort "last 2 deactivated" = true /\
  (let sorted := @sortStage sort.xorshift "last 2 deactivated" fiveDates in
   let kept := limitStage (H := strings.ascii) "last 2 deactivated" sorted in
   sorted = kept ++ drop (length kept) sorted /\
   forall emp cut, In emp kept -> In cut (drop (length kept) sorted) ->
     dateLess cut emp = false).
Proof.
  split; [reflexivity|].
  exact (@limit_after_sort_keeps_latest strings.ascii sort.xorshift
           "last 2 deactivated" fiveDates eq_refl).
Defined.

Lemma fetched_dates_parse_witness :
  map dateClass
    (fst (slack.searchAMAEmployeesUsingStandardAPI (H := time.utc) workspace
            slack.FilterAll))
  = [Empty; Parsed (time.Date 2023 11 14)] /\
  Forall (fun emp =>
            if Deactivated emp then exists t, dateClass emp = Parsed t
            else dateClass emp = Empty)
    (fst (slack.searchAMAEmployeesUsingStandardAPI (H := time.utc) workspace
            slack.FilterAll)).
Proof.
  split; [reflexivity|].
  apply (@fetched_dates_parse time.utc workspace slack.FilterAll).
  repeat constructor.
Defined.

Lemma names_from_real_name_witness :
  slack.processUser (H := time.utc) []
    (member "Mary Ann Smith" false false 1600000000) slack.FilterAll
  = [ {| FirstName := "Mary"; LastName := "Smith"; Email := EmptyString;
         Title := EmptyString; Deactivated := false;
         DeactivatedDate := EmptyString |} ] /\
  exists emp,
    slack.processUser (H := time.utc) []
      (member "Mary Ann Smith" false false 1600000000) slack.FilterAll = [emp] /\
    FirstName emp = "Mary" /\ LastName emp = "Smith".
Proof.
  split; [reflexivity|].
  apply (@names_from_real_name time.utc
           (member "Mary Ann Smith" false false 1600000000) ["Mary"; "Ann"; "Smith"]).
  - discriminate.
  - repeat constructor.
  - reflexivity.
Defined.

(** The two tools read the text ["terminated employees"] differently:
    the directory tool fetches everybody, the engine keeps the
    deactivated records. *)
Example terminated_is_read_differently :
  slack.callFilter (H0 := strings.ascii) "terminated employees" = slack.FilterAll /\
  selectedFilter "terminated employees" = DEACTIVATED.
Proof. split; reflexivity. Qed.

(** The sample workspace: the bot and the page after the failure give
    no record, and the file decodes and is answered. *)
Example workspace_file :
  slack.callEmployeesJSON (H := time.utc) (H0 := strings.ascii) workspace
    "all employees"
  = (json.MarshalEmployees
       [ {| FirstName := "Mary"; LastName := "Smith"; Email := EmptyString;
            Title := EmptyString; Deactivated := false;
            DeactivatedDate := EmptyString |};
         {| FirstName := "Madonna"; LastName := EmptyString; Email := EmptyString;
            Title := EmptyString; Deactivated := true;
            DeactivatedDate := "2023-11-14" |} ], None) /\
  ProcessQuery (H := strings.ascii) (H0 := sort.xorshift)
    (fst (slack.callEmployeesJSON (H := time.utc) (H0 := strings.ascii) workspace
            "all employees"))
    "last 1 deactivated"
  = ("Found 1 employees:" +:+ fmt.nl +:+ fmt.nl +:+
     "1. Madonna  (Deactivated on 2023-11-14)" +:+ fmt.nl, None).
Proof. split; reflexivity. Qed.
